(** * Batch rendering and post-processing pipeline of obsidian-webpage-export

    A shallow embedding of [src/plugin/render-api/render-api.ts]: the polling
    waiter, the batch session (a process-wide singleton, here an explicit
    [World] threaded through every operation), the document renderers, the
    heading tree builder and the post-processor, followed by the properties
    the specification states about them.

    Conventions.
    - Time is an integer number of milliseconds.  Everything the host does
      while one millisecond passes is one [tick] of the world.
    - A call of an [async] function that the source does not [await] runs up
      to its first suspension point at the call; the rest is queued and runs
      when the caller next suspends.
    - Host calls that the program can observe only through their effect
      (detaching a leaf, a notice, a console line, a progress update) are
      recorded in a trace of events. *)

From Stdlib Require Import ZArith List String Ascii Bool Lia Arith.
Import ListNotations.
Local Open Scope string_scope.
Local Open Scope list_scope.
Local Open Scope Z_scope.

(* ===================================================================== *)
(** * Part I. Definitions *)
(* ===================================================================== *)

(** ** The polling waiter: [waitUntil] (render-api.ts, lines 236-255) *)

(** What evaluating a JavaScript predicate can do: return a truthy value,
    return a falsy value, or throw. *)
Inductive Verdict : Type :=
| Truthy
| Falsy
| Throws (e : string).

(** How a promise ends: resolved with a value, rejected with an error, or
    still pending when the observation stops. *)
Inductive Settled (A : Type) : Type :=
| Resolved (a : A)
| Rejected (e : string)
| Pending.
Arguments Resolved {A} a.
Arguments Rejected {A} e.
Arguments Pending {A}.

(** What one call of [waitUntil] did: how its promise ended, whether it armed
    an interval timer, how many times the timer's callback ran, and the value
    of the local accumulator [timer] when it stopped. *)
Record WaitReport : Type := mkWaitReport {
  outcome : Settled bool;
  scheduled : bool;
  callbacks : nat;
  timerAcc : Z
}.

Section WaitUntil.
Context {W : Type}.

(** One millisecond of host activity. *)
Variable tick : W -> W.

(** [setInterval] fires its callback every [ms] milliseconds. *)
Definition elapse (ms : Z) (w : W) : W := Nat.iter (Z.to_nat ms) tick w.

(** The predicate handed to [waitUntil]: it may read and change the world. *)
Definition Condition : Type := W -> Verdict * W.

(** The body of the [setInterval] callback, run at most [fuel] times.
    [n] counts the callbacks that have already run.  An exception thrown by
    [condition] leaves the callback before [timer] is touched and before
    [clearInterval]: the interval stays armed and the promise unsettled. *)
Fixpoint intervalLoop (fuel : nat) (condition : Condition)
         (timeout interval timer : Z) (n : nat) (w : W) : WaitReport * W :=
  match fuel with
  | O => (mkWaitReport Pending true n timer, w)
  | S fuel' =>
      let w1 := elapse interval w in
      match condition w1 with
      | (Truthy, w2) => (mkWaitReport (Resolved true) true (S n) timer, w2)
      | (Throws _, w2) =>
          intervalLoop fuel' condition timeout interval timer (S n) w2
      | (Falsy, w2) =>
          let timer' := timer + interval in
          if timeout <=? timer'
          then (mkWaitReport (Resolved false) true (S n) timer', w2)
          else intervalLoop fuel' condition timeout interval timer' (S n) w2
      end
  end.

(** [waitUntil(condition, timeout, interval)]. *)
Definition waitUntil (fuel : nat) (condition : Condition)
           (timeout interval : Z) (w : W) : WaitReport * W :=
  match condition w with
  | (Truthy, w1) => (mkWaitReport (Resolved true) false O 0, w1)
  | (Throws e, w1) => (mkWaitReport (Rejected e) false O 0, w1)
  | (Falsy, w1) => intervalLoop fuel condition timeout interval 0 O w1
  end.

(** The verdict of the [k]-th evaluation of the predicate (the call-time
    evaluation is number 0) along the run in which every earlier one came
    out falsy, with the world it leaves. *)
Fixpoint nthPoll (condition : Condition) (interval : Z) (k : nat) (w : W)
  : Verdict * W :=
  match k with
  | O => condition w
  | S k' => condition (elapse interval (snd (nthPoll condition interval k' w)))
  end.

(** The number of callbacks after which a never-satisfied wait gives up:
    the least [n >= 1] with [n * interval >= timeout]. *)
Definition giveUpAfter (timeout interval : Z) : nat :=
  Z.to_nat (Z.max 1 ((timeout + interval - 1) / interval)).

End WaitUntil.

(** ** The document tree *)

Set Warnings "-register-all".

(** A DOM node: a text node, or an element with its tag (in lower case), its
    attributes in source order ([style] apart), the declarations of its
    inline style, the live value of a form control when a script or the
    user has set one, and its children. *)
Inductive node : Type :=
| Text (s : string)
| Elem (tag : string) (attrs : list (string * string))
       (style : list (string * string)) (value : option string)
       (kids : list node).

Definition isElement (n : node) : bool :=
  match n with Elem _ _ _ _ _ => true | Text _ => false end.

Definition tagOf (n : node) : string :=
  match n with Elem t _ _ _ _ => t | Text _ => "" end.

Definition attrsOf (n : node) : list (string * string) :=
  match n with Elem _ a _ _ _ => a | Text _ => [] end.

Definition styleOf (n : node) : list (string * string) :=
  match n with Elem _ _ s _ _ => s | Text _ => [] end.

Definition kidsOf (n : node) : list node :=
  match n with Elem _ _ _ _ k => k | Text _ => [] end.

(** *** Attributes *)

Fixpoint lookup (name : string) (l : list (string * string)) : option string :=
  match l with
  | [] => None
  | (k, v) :: rest => if String.eqb k name then Some v else lookup name rest
  end.

(** [setAttribute] keeps the place of an attribute that exists and appends
    one that does not. *)
Fixpoint assign (name v : string) (l : list (string * string))
  : list (string * string) :=
  match l with
  | [] => [(name, v)]
  | (k, v0) :: rest =>
      if String.eqb k name then (k, v) :: rest else (k, v0) :: assign name v rest
  end.

Definition unassign (name : string) (l : list (string * string))
  : list (string * string) :=
  filter (fun kv => negb (String.eqb (fst kv) name)) l.

Definition getAttribute (name : string) (n : node) : option string :=
  lookup name (attrsOf n).

Definition setAttribute (name v : string) (n : node) : node :=
  match n with
  | Elem t a s val k => Elem t (assign name v a) s val k
  | Text _ => n
  end.

Definition removeAttribute (name : string) (n : node) : node :=
  match n with
  | Elem t a s val k => Elem t (unassign name a) s val k
  | Text _ => n
  end.

(** [el.style.prop = v]: the empty string removes the declaration. *)
Definition setStyle (prop v : string) (n : node) : node :=
  match n with
  | Elem t a s val k =>
      Elem t a (if String.eqb v "" then unassign prop s else assign prop v s) val k
  | Text _ => n
  end.

Definition getStyle (prop : string) (n : node) : string :=
  match lookup prop (styleOf n) with Some v => v | None => "" end.

(** *** Class lists *)

Definition isSpace (c : ascii) : bool :=
  let n := nat_of_ascii c in
  (n =? 32)%nat || (n =? 9)%nat || (n =? 10)%nat || (n =? 12)%nat || (n =? 13)%nat.

(** The tokens of a space-separated attribute value. *)
Fixpoint tokensAux (s : string) (cur : string) : list string :=
  match s with
  | EmptyString => if String.eqb cur "" then [] else [cur]
  | String c rest =>
      if isSpace c
      then (if String.eqb cur "" then tokensAux rest ""
            else cur :: tokensAux rest "")
      else tokensAux rest (cur ++ String c "")%string
  end.

Definition tokens (s : string) : list string := tokensAux s "".

Definition className (n : node) : string :=
  match getAttribute "class" n with Some c => c | None => "" end.

Definition classList (n : node) : list string := tokens (className n).

Definition hasClass (c : string) (n : node) : bool :=
  isElement n && existsb (String.eqb c) (classList n).

Fixpoint dedupe (l : list string) : list string :=
  match l with
  | [] => []
  | x :: rest => x :: filter (fun y => negb (String.eqb x y)) (dedupe rest)
  end.

Definition joinTokens (l : list string) : string := String.concat " " l.

(** [el.classList.add(c)]: the attribute becomes the serialisation of the
    token set. *)
Definition classListAdd (c : string) (n : node) : node :=
  let ts := dedupe (classList n) in
  let ts := if existsb (String.eqb c) ts then ts else ts ++ [c] in
  setAttribute "class" (joinTokens ts) n.

(** [[class^='prefix']]: the attribute exists and its value starts with the
    (non-empty) prefix. *)
Definition classStartsWith (pre : string) (n : node) : bool :=
  match getAttribute "class" n with
  | Some c => String.prefix pre c
  | None => false
  end.

(** *** Walking the tree *)

Definition isTag (t : string) (n : node) : bool :=
  isElement n && String.eqb (tagOf n) t.

Definition isHeading (n : node) : bool :=
  isElement n &&
  existsb (String.eqb (tagOf n)) ["h1"; "h2"; "h3"; "h4"; "h5"; "h6"].

(** Some proper descendant satisfies [p]. *)
Fixpoint hasDescendant (p : node -> bool) (n : node) : bool :=
  match n with
  | Text _ => false
  | Elem _ _ _ _ kids =>
      existsb (fun k => p k || hasDescendant p k) kids
  end.

(** Some child satisfies [p]. *)
Definition hasChild (p : node -> bool) (n : node) : bool :=
  existsb p (kidsOf n).

(** [:empty]: no child at all (no element and no text). *)
Definition isEmpty (n : node) : bool :=
  match kidsOf n with [] => true | _ => false end.

(** The descendants of [n] that satisfy [p], in document order, [p] being
    told the ancestors of the candidate (nearest first, [n] included). *)
Fixpoint descendantsWith (p : list node -> node -> bool) (anc : list node)
         (n : node) : list node :=
  match n with
  | Text _ => []
  | Elem _ _ _ _ kids =>
      flat_map (fun k => (if p (n :: anc) k then [k] else [])
                         ++ descendantsWith p (n :: anc) k) kids
  end.

(** [n.querySelectorAll(sel)], for a selector that does not look at ancestors. *)
Definition querySelectorAll (p : node -> bool) (n : node) : list node :=
  descendantsWith (fun _ k => p k) [] n.

(** [n.querySelector(sel)]. *)
Definition querySelector (p : node -> bool) (n : node) : option node :=
  hd_error (querySelectorAll p n).

(** [querySelectorAll(sel).forEach(f)] for a callback that changes nothing
    but its own element's attributes, style or live value: every element
    below [n] that matched before the loop started is replaced by its image.
    The selector is told the ancestors as they were. *)
Fixpoint forEachMatch (p : list node -> node -> bool) (f : node -> node)
         (anc : list node) (n : node) : node :=
  match n with
  | Text _ => n
  | Elem t a s v kids =>
      Elem t a s v
           (map (fun k =>
                   let k' := forEachMatch p f (n :: anc) k in
                   if p (n :: anc) k then
                     match f k, k' with
                     | Elem t1 a1 s1 v1 _, Elem _ _ _ _ kids' => Elem t1 a1 s1 v1 kids'
                     | _, _ => k'
                     end
                   else k') kids)
  end.

(** [textContent]. *)
Fixpoint textContent (n : node) : string :=
  match n with
  | Text s => s
  | Elem _ _ _ _ kids => String.concat "" (map textContent kids)
  end.

(** [querySelectorAll(sel).forEach(f)] for a callback that takes its element
    out of the tree ([remove], [replaceWith]): every element below [n] that
    matched before the loop started is replaced by the nodes [f] gives for
    it.  What is below a matched element leaves the tree with it, so the
    callbacks of matched elements inside it do not show in the result. *)
Fixpoint rewriteMatch (p : list node -> node -> bool) (f : node -> list node)
         (anc : list node) (n : node) : node :=
  match n with
  | Text _ => n
  | Elem t a s v kids =>
      Elem t a s v
           (flat_map (fun k => if p (n :: anc) k then f k
                               else [rewriteMatch p f (n :: anc) k]) kids)
  end.

(** The first descendant of [n] in document order that satisfies [p] is
    taken out of the tree: the node, and the tree without it. *)
Fixpoint extractFirst (p : node -> bool) (n : node) : option (node * node) :=
  match n with
  | Text _ => None
  | Elem t a s v kids =>
      match (fix go (ks : list node) : option (node * list node) :=
               match ks with
               | [] => None
               | k :: rest =>
                   if p k then Some (k, rest)
                   else match extractFirst p k with
                        | Some (x, k') => Some (x, k' :: rest)
                        | None =>
                            match go rest with
                            | Some (x, rest') => Some (x, k :: rest')
                            | None => None
                            end
                        end
               end) kids with
      | Some (x, kids') => Some (x, Elem t a s v kids')
      | None => None
      end
  end.

(** *** Element references

    A reference to an element of a tree is the place of the element: the
    child indexes on the way from the root down to it. *)

(** The [i]-th member of a list replaced by its image under [f]. *)
Fixpoint updateNth (i : nat) (f : node -> node) (l : list node) : list node :=
  match l, i with
  | [], _ => []
  | k :: rest, O => f k :: rest
  | k :: rest, S i' => k :: updateNth i' f rest
  end.

(** The node at a place. *)
Fixpoint nodeAt (place : list nat) (n : node) : option node :=
  match place with
  | [] => Some n
  | i :: rest =>
      match nth_error (kidsOf n) i with
      | Some k => nodeAt rest k
      | None => None
      end
  end.

(** The node at a place replaced by its image under [f]; nothing changes
    when there is no such place. *)
Fixpoint updateAt (place : list nat) (f : node -> node) (n : node) : node :=
  match place with
  | [] => f n
  | i :: rest =>
      match n with
      | Text _ => n
      | Elem t a s v kids => Elem t a s v (updateNth i (updateAt rest f) kids)
      end
  end.

(** The first member of a list, from index [i] on, that satisfies [p] or
    holds a descendant that does: its place, as the place of the parent and
    the index below it. *)
Fixpoint firstIn (p : node -> bool) (inside : node -> option (list nat * nat))
         (i : nat) (ks : list node) : option (list nat * nat) :=
  match ks with
  | [] => None
  | k :: rest =>
      if p k then Some ([], i)
      else match inside k with
           | Some (pp, j) => Some (i :: pp, j)
           | None => firstIn p inside (S i) rest
           end
  end.

(** [n.querySelector(sel)] as a reference: the place of the first descendant
    of [n] in document order that satisfies [p], given as the place of its
    parent and its index among the parent's children. *)
Fixpoint firstMatch (p : node -> bool) (n : node) : option (list nat * nat) :=
  match n with
  | Text _ => None
  | Elem _ _ _ _ kids => firstIn p (firstMatch p) O kids
  end.

(** [parent.appendChild(child)]. *)
Definition appendChild (child : node) (parent : node) : node :=
  match parent with
  | Elem t a s v kids => Elem t a s v (kids ++ [child])
  | Text _ => parent
  end.

(** [parent.prepend(child)]. *)
Definition prependChild (child : node) (parent : node) : node :=
  match parent with
  | Elem t a s v kids => Elem t a s v (child :: kids)
  | Text _ => parent
  end.

Definition setKids (kids : list node) (n : node) : node :=
  match n with
  | Elem t a s v _ => Elem t a s v kids
  | Text _ => n
  end.

(** ** Documents, as the host presents them *)

(** A value handed to the loggers ([message: any]), among them the values
    that the host throws: a string, or any other value, of which the program
    reads [JSON.stringify(value)] and [value.toString()] only.  For an
    [Error] without enumerable properties of its own the first is "{}" and
    the second is its name, a colon and its message.  (The values for which
    [JSON.stringify] gives no string, [undefined], a function or a symbol,
    are not among the messages of the model.) *)
Inductive Message : Type :=
| Str (s : string)
| Obj (json text : string).

Coercion Str : string >-> Message.

(** [message.toString()]. *)
Definition toText (message : Message) : string :=
  match message with
  | Str s => s
  | Obj _ text => text
  end.

Record TFile : Type := mkFile {
  path : string;
  name : string;
  extension : string
}.

(** A section of a markdown preview.  [section.rendered] turns true
    [sRenderDelay] milliseconds after [section.render()], [section.computed]
    [sComputeDelay] milliseconds after [renderer.measureSection(section)]
    (never, when [None]); [sElAt t] is the content of [section.el] [t]
    milliseconds after [section.render()], with what the dataview renderer
    and [preview.postProcess] have put there. *)
Record MdSection : Type := mkSection {
  sRenderDelay : option Z;
  sComputeDelay : option Z;
  sElAt : Z -> node
}.

(** A markdown preview ([view.previewMode]): its file, the class of
    [renderer.previewEl], its sections, and what [unfoldAllHeadings],
    [unfoldAllLists] or [parseSync] throws, if one of them does. *)
Record Preview : Type := mkPreview {
  pFile : TFile;
  pClassName : string;
  pSections : list MdSection;
  pUnfoldError : option Message
}.

(** A node of a canvas: [node.file], [node.nodeEl], [node.child.previewMode],
    [node.url], and the place of [node.contentEl] below [node.nodeEl] (the
    child indexes from the root down). *)
Record CanvasNode : Type := mkCanvasNode {
  nFile : option TFile;
  nNodeEl : node;
  nChildPreview : option Preview;
  nUrl : option string;
  nContentAt : list nat
}.

(** An edge of a canvas: [lineGroupEl], [lineEndGroupEl] and, when the edge
    has a label, [labelElement.wrapperEl]. *)
Record CanvasEdge : Type := mkCanvasEdge {
  eLineGroupEl : node;
  eLineEndGroupEl : node;
  eLabel : option node
}.

(** What [renderLeaf.view] is once a file is open: [getViewType()], and the
    members the renderers read. *)
Record View : Type := mkView {
  vType : string;
  vFile : TFile;
  vPreviewMode : Preview;
  vContainerEl : node;
  vContentEl : node;
  vNodes : list CanvasNode;
  vEdges : list CanvasEdge;
  vSvg : node                       (* what view.svg(scene, "", false) gives *)
}.

(** [MarkdownRendererOptions] (api-options.ts). *)
Record MarkdownRendererOptions : Type := mkOptions {
  container : option node;
  postProcess : bool;
  makeHeadersTrees : bool;
  createDocumentContainer : bool;
  createPusherElement : bool;
  displayProgress : bool;
  inlineHTML : bool;
  filesToExport : list string
}.

Definition set_container (c : option node) (o : MarkdownRendererOptions)
  : MarkdownRendererOptions :=
  mkOptions c (postProcess o) (makeHeadersTrees o) (createDocumentContainer o)
            (createPusherElement o) (displayProgress o) (inlineHTML o)
            (filesToExport o).

(** ** The host: what the program cannot decide for itself *)

(** Text nodes that follow one another are one text node once the markup
    is parsed again. *)
Fixpoint mergeText (l : list node) : list node :=
  match l with
  | [] => []
  | Text a :: rest =>
      match mergeText rest with
      | Text b :: more => Text (a ++ b) :: more
      | more => Text a :: more
      end
  | x :: rest => x :: mergeText rest
  end.

(** The severities of [ExportLog]. *)
Inductive Severity : Type := Info | Warning | Error.

(** An entry of the log queue kept by [Path] ([Path.dequeueLog()]); the
    [type] field is one of "info", "warn", "error", "fatal". *)
Inductive PathLogType : Type := PInfo | PWarn | PError | PFatal.

Record PathLog : Type := mkPathLog {
  plType : PathLogType;
  plTitle : string;
  plMessage : Message
}.

(** A workspace leaf (the render surface handle): the number of the tab that
    [TabManager.openNewTab] returned and the time it was opened at.  The
    window that hosts the leaf carries the same number. *)
Record Leaf : Type := mkLeaf {
  leafId : nat;
  openedAt : Z
}.

(** The host environment.  [attachDelay n] is the number of milliseconds
    after which tab [n] is attached to a parent that is itself attached
    ([leaf.parent] and [leaf.parent.parent] are set), if ever;
    [hasWindow n] tells whether [leaf.view.containerEl.win.electronWindow]
    exists; [closeAt n] is the time at which the window of tab [n] emits
    "close", if ever; [settingsLoaded] and [logLevel] are
    [SettingsPage.loaded] and [Settings.logLevel].  The other members stand
    for collaborators whose code is outside this module. *)
Record Host : Type := mkHost {
  attachDelay : nat -> option Z;
  hasWindow : nat -> bool;
  closeAt : nat -> option Z;
  settingsLoaded : bool;
  logLevel : string;
  (* renderLeaf.openFile(file): the error it throws, if it does *)
  openFileError : TFile -> option Message;
  (* renderLeaf.view once the file is open *)
  viewOf : TFile -> View;
  (* canvas.toDataURL() *)
  toDataURL : node -> string;
  (* Settings.getAllFilesFromPaths *)
  getAllFilesFromPaths : list string -> list string;
  (* IncludeGenerator.generate(path, true), parsed *)
  includeGenerate : string -> list node;
  (* view.setViewData(markdown, false): the error it throws, if it does *)
  setViewDataError : string -> option Message;
  (* the preview of the markdown view once it holds the given text *)
  previewOfMarkdown : string -> Preview;
  (* the href property of an anchor: its href attribute resolved against the
     address of the document *)
  resolveHref : string -> string;
  (* the text content of the element renderSimpleMarkdown was started on,
     at the time the caller reads it (the call is not awaited) *)
  simpleMarkdownText : string -> string;
  (* canvas.outerHTML: the markup of an element as the browser writes it *)
  outerHTML : node -> string;
  (* span.innerHTML = element.innerHTML: the children the browser gives the
     span, from the children of the element *)
  reparsed : list node -> list node
}.

(** What the program does to the host, in the order it does it. *)
Inductive Event : Type :=
| TabOpened (leaf : nat)                     (* TabManager.openNewTab *)
| Detached (leaf : nat)                      (* renderLeaf.detach() *)
| Noticed (text : string)                    (* new Notice(text) *)
| Console (level : Severity) (title : string) (message : Message)
| ConsoleError (text : string)               (* console.error of appendLogEl *)
| ProgressShown (leaf : nat) (fraction : Z) (message subMessage color : string)
| TaskbarProgress (window : nat) (fraction : Z)
| LogAppended (leaf : nat) (level : Severity) (title message : string)
| LogRevealed (leaf : nat)                   (* resizeTo(1000, 500), display flex *)
| WindowHidden (window : nat)                (* moveTo off screen, hide() *)
| WindowDocked (window : nat)                (* resizeTo(900, 400), moveTo *)
| WindowPinned (window : nat).               (* setAlwaysOnTop, no throttling *)

(** A call of [_reportInfo], [_reportWarning] or [_reportError] that was not
    awaited and is suspended at its [await waitUntil(..., 100, 10)]:
    [dDue = None] when the wait has already resolved [true] and the rest of
    the function runs at the next microtask checkpoint, [dDue = Some t] when
    the next callback of its interval timer is due at time [t]; [dTimer] is
    the [timer] accumulator of that wait. *)
Record Deferred : Type := mkDeferred {
  dSeverity : Severity;
  dTitle : string;
  dMessage : Message;
  dFatal : bool;
  dTimer : Z;
  dDue : option Z
}.

(** ** The world: the module-level state of [_MarkdownRendererInternal] and
    [ExportLog], and the part of the host state the program depends on *)

Record World : Type := mkWorld {
  now : Z;
  (* _MarkdownRendererInternal *)
  renderLeaf : option Leaf;
  electronWindow : option nat;
  errorInBatch : bool;
  cancelled : bool;
  batchStarted : bool;
  logContainer : option nat;
  loadingContainer : option nat;
  fileListContainer : option nat;
  markdownView : option nat;
  logShowing : bool;
  (* ExportLog *)
  fullLog : string;
  (* Path *)
  pathLogQueue : list PathLog;
  (* host *)
  nextTab : nat;                 (* the number of the next tab to be opened *)
  progressWrappers : list nat;   (* tabs whose root holds .html-progress-wrapper *)
  closeListeners : list nat;     (* windows on which windowClosed is registered *)
  deferred : list Deferred;      (* suspended un-awaited report calls *)
  trace : list Event             (* host calls so far, oldest first *)
}.

Definition set_now v w := mkWorld v (renderLeaf w) (electronWindow w) (errorInBatch w) (cancelled w) (batchStarted w) (logContainer w) (loadingContainer w) (fileListContainer w) (markdownView w) (logShowing w) (fullLog w) (pathLogQueue w) (nextTab w) (progressWrappers w) (closeListeners w) (deferred w) (trace w).
Definition set_renderLeaf v w := mkWorld (now w) v (electronWindow w) (errorInBatch w) (cancelled w) (batchStarted w) (logContainer w) (loadingContainer w) (fileListContainer w) (markdownView w) (logShowing w) (fullLog w) (pathLogQueue w) (nextTab w) (progressWrappers w) (closeListeners w) (deferred w) (trace w).
Definition set_electronWindow v w := mkWorld (now w) (renderLeaf w) v (errorInBatch w) (cancelled w) (batchStarted w) (logContainer w) (loadingContainer w) (fileListContainer w) (markdownView w) (logShowing w) (fullLog w) (pathLogQueue w) (nextTab w) (progressWrappers w) (closeListeners w) (deferred w) (trace w).
Definition set_errorInBatch v w := mkWorld (now w) (renderLeaf w) (electronWindow w) v (cancelled w) (batchStarted w) (logContainer w) (loadingContainer w) (fileListContainer w) (markdownView w) (logShowing w) (fullLog w) (pathLogQueue w) (nextTab w) (progressWrappers w) (closeListeners w) (deferred w) (trace w).
Definition set_cancelled v w := mkWorld (now w) (renderLeaf w) (electronWindow w) (errorInBatch w) v (batchStarted w) (logContainer w) (loadingContainer w) (fileListContainer w) (markdownView w) (logShowing w) (fullLog w) (pathLogQueue w) (nextTab w) (progressWrappers w) (closeListeners w) (deferred w) (trace w).
Definition set_batchStarted v w := mkWorld (now w) (renderLeaf w) (electronWindow w) (errorInBatch w) (cancelled w) v (logContainer w) (loadingContainer w) (fileListContainer w) (markdownView w) (logShowing w) (fullLog w) (pathLogQueue w) (nextTab w) (progressWrappers w) (closeListeners w) (deferred w) (trace w).
Definition set_logContainer v w := mkWorld (now w) (renderLeaf w) (electronWindow w) (errorInBatch w) (cancelled w) (batchStarted w) v (loadingContainer w) (fileListContainer w) (markdownView w) (logShowing w) (fullLog w) (pathLogQueue w) (nextTab w) (progressWrappers w) (closeListeners w) (deferred w) (trace w).
Definition set_loadingContainer v w := mkWorld (now w) (renderLeaf w) (electronWindow w) (errorInBatch w) (cancelled w) (batchStarted w) (logContainer w) v (fileListContainer w) (markdownView w) (logShowing w) (fullLog w) (pathLogQueue w) (nextTab w) (progressWrappers w) (closeListeners w) (deferred w) (trace w).
Definition set_fileListContainer v w := mkWorld (now w) (renderLeaf w) (electronWindow w) (errorInBatch w) (cancelled w) (batchStarted w) (logContainer w) (loadingContainer w) v (markdownView w) (logShowing w) (fullLog w) (pathLogQueue w) (nextTab w) (progressWrappers w) (closeListeners w) (deferred w) (trace w).
Definition set_markdownView v w := mkWorld (now w) (renderLeaf w) (electronWindow w) (errorInBatch w) (cancelled w) (batchStarted w) (logContainer w) (loadingContainer w) (fileListContainer w) v (logShowing w) (fullLog w) (pathLogQueue w) (nextTab w) (progressWrappers w) (closeListeners w) (deferred w) (trace w).
Definition set_logShowing v w := mkWorld (now w) (renderLeaf w) (electronWindow w) (errorInBatch w) (cancelled w) (batchStarted w) (logContainer w) (loadingContainer w) (fileListContainer w) (markdownView w) v (fullLog w) (pathLogQueue w) (nextTab w) (progressWrappers w) (closeListeners w) (deferred w) (trace w).
Definition set_fullLog v w := mkWorld (now w) (renderLeaf w) (electronWindow w) (errorInBatch w) (cancelled w) (batchStarted w) (logContainer w) (loadingContainer w) (fileListContainer w) (markdownView w) (logShowing w) v (pathLogQueue w) (nextTab w) (progressWrappers w) (closeListeners w) (deferred w) (trace w).
Definition set_pathLogQueue v w := mkWorld (now w) (renderLeaf w) (electronWindow w) (errorInBatch w) (cancelled w) (batchStarted w) (logContainer w) (loadingContainer w) (fileListContainer w) (markdownView w) (logShowing w) (fullLog w) v (nextTab w) (progressWrappers w) (closeListeners w) (deferred w) (trace w).
Definition set_nextTab v w := mkWorld (now w) (renderLeaf w) (electronWindow w) (errorInBatch w) (cancelled w) (batchStarted w) (logContainer w) (loadingContainer w) (fileListContainer w) (markdownView w) (logShowing w) (fullLog w) (pathLogQueue w) v (progressWrappers w) (closeListeners w) (deferred w) (trace w).
Definition set_progressWrappers v w := mkWorld (now w) (renderLeaf w) (electronWindow w) (errorInBatch w) (cancelled w) (batchStarted w) (logContainer w) (loadingContainer w) (fileListContainer w) (markdownView w) (logShowing w) (fullLog w) (pathLogQueue w) (nextTab w) v (closeListeners w) (deferred w) (trace w).
Definition set_closeListeners v w := mkWorld (now w) (renderLeaf w) (electronWindow w) (errorInBatch w) (cancelled w) (batchStarted w) (logContainer w) (loadingContainer w) (fileListContainer w) (markdownView w) (logShowing w) (fullLog w) (pathLogQueue w) (nextTab w) (progressWrappers w) v (deferred w) (trace w).
Definition set_deferred v w := mkWorld (now w) (renderLeaf w) (electronWindow w) (errorInBatch w) (cancelled w) (batchStarted w) (logContainer w) (loadingContainer w) (fileListContainer w) (markdownView w) (logShowing w) (fullLog w) (pathLogQueue w) (nextTab w) (progressWrappers w) (closeListeners w) v (trace w).
Definition set_trace v w := mkWorld (now w) (renderLeaf w) (electronWindow w) (errorInBatch w) (cancelled w) (batchStarted w) (logContainer w) (loadingContainer w) (fileListContainer w) (markdownView w) (logShowing w) (fullLog w) (pathLogQueue w) (nextTab w) (progressWrappers w) (closeListeners w) (deferred w) v.

(** Record a host call. *)
Definition emit (e : Event) (w : World) : World := set_trace (trace w ++ [e]) w.

(** The state of the module when it is loaded, at time [t]. *)
Definition initialWorld (t : Z) : World :=
  mkWorld t None None false false false None None None None false
          "" [] O [] [] [] [].

Definition TAB : string := String (ascii_of_nat 9) "".
Definition LF : string := String (ascii_of_nat 10) "".

Definition errorColor : string := "var(--color-red)".

(** How a call of an [async] function of this module ends: it returns a
    value, it throws (its promise is rejected), or it never returns. *)
Inductive Completion (A : Type) : Type :=
| Returned (a : A)
| Thrown (e : string)
| Hung.
Arguments Returned {A} a.
Arguments Thrown {A} e.
Arguments Hung {A}.

Section Session.
Variable host : Host.

(** [leaf.parent && leaf.parent.parent] at time [t]. *)
Definition attached (l : Leaf) (t : Z) : bool :=
  match attachDelay host (leafId l) with
  | Some d => openedAt l + d <=? t
  | None => false
  end.

(** [renderLeaf && renderLeaf.parent && renderLeaf.parent.parent], the
    predicate the report functions wait for. *)
Definition leafRooted (w : World) : bool :=
  match renderLeaf w with
  | Some l => attached l (now w)
  | None => false
  end.

(** *** The log widget (lines 1085-1105) *)

(** [appendLogEl(generateLogEl(title, message, ...))]; the element shows
    [message.toString()] (line 1046). *)
Definition appendLogEl (sev : Severity) (title : string) (message : Message)
           (w : World) : World :=
  let w := set_logContainer (loadingContainer w) w in
  match logContainer w, renderLeaf w with
  | Some _, Some l =>
      let w := if logShowing w then w
               else set_logShowing true (emit (LogRevealed (leafId l)) w) in
      emit (LogAppended (leafId l) sev title (toText message)) w
  | _, _ =>
      emit (ConsoleError
              "Failed to append log element, log container or render leaf is undefined!") w
  end.

(** The part of [_reportInfo], [_reportWarning] and [_reportError] after
    [await waitUntil(...)], [found] being the result of the wait. *)
Definition resumeReport (d : Deferred) (found : bool) (w : World) : World :=
  if negb found then w
  else
    let w := appendLogEl (dSeverity d) (dTitle d) (dMessage d) w in
    if dFatal d
    then set_logContainer None (set_loadingContainer None (set_renderLeaf None w))
    else w.

(** An un-awaited call of [_reportInfo], [_reportWarning] ([fatal] false)
    or [_reportError] (lines 1154-1194): the function runs up to its
    [await]; the predicate of [waitUntil] is evaluated once, at the call. *)
Definition spawnReport (sev : Severity) (title : string) (message : Message)
           (fatal : bool) (w : World) : World :=
  if negb (batchStarted w) then w
  else
    let w := match sev with
             | Error => set_errorInBatch true w
             | _ => w
             end in
    let due := if leafRooted w then None else Some (now w + 10) in
    set_deferred (deferred w ++ [mkDeferred sev title message fatal 0 due]) w.

(** [_reportError], [_reportWarning] and [_reportInfo], as [ExportLog]
    calls them (without [await]). *)
Definition _reportError (messageTitle : string) (message : Message)
           (fatal : bool) : World -> World := spawnReport Error messageTitle message fatal.

Definition _reportWarning (messageTitle : string) (message : Message)
  : World -> World := spawnReport Warning messageTitle message false.

Definition _reportInfo (messageTitle : string) (message : Message)
  : World -> World := spawnReport Info messageTitle message false.

(** *** ExportLog (lines 1198-1307) *)

(** [s.replaceAll("\n", "\n\t\t")]. *)
Fixpoint indentLines (s : string) : string :=
  match s with
  | EmptyString => EmptyString
  | String c rest =>
      if (nat_of_ascii c =? 10)%nat
      then String c (TAB ++ TAB ++ indentLines rest)%string
      else String c (indentLines rest)
  end.

(** [logToString(message, title)] (lines 1202-1208): a string is written as
    it is, any other value as its JSON text. *)
Definition logToString (message : Message) (title : string) : string :=
  let messageString :=
    match message with
    | Str s => s
    | Obj json _ => indentLines json
    end in
  let titleString := if String.eqb title "" then "" else (title ++ TAB)%string in
  (titleString ++ messageString ++ LF)%string.

Definition levelIn (allowed : list string) : bool :=
  existsb (String.eqb (logLevel host)) allowed.

(** [ExportLog.log], [warning] and [error] after their call of
    [pullPathLogs()]. *)
Definition logCore (message : Message) (messageTitle : string) (w : World)
  : World :=
  let messageTitle := ("[INFO] " ++ messageTitle)%string in
  let w := set_fullLog (fullLog w ++ logToString message messageTitle)%string w in
  if settingsLoaded host && negb (levelIn ["all"]) then w
  else _reportInfo messageTitle message
                   (emit (Console Info messageTitle message) w).

Definition warningCore (message : Message) (messageTitle : string) (w : World)
  : World :=
  let messageTitle := ("[WARNING] " ++ messageTitle)%string in
  let w := set_fullLog (fullLog w ++ logToString message messageTitle)%string w in
  if settingsLoaded host && negb (levelIn ["warning"; "all"]) then w
  else _reportWarning messageTitle message
                     (emit (Console Warning messageTitle message) w).

Definition errorCore (message : Message) (messageTitle : string) (fatal : bool)
           (w : World) : World :=
  let messageTitle :=
    ((if fatal then "[FATAL ERROR] " else "[ERROR] ") ++ messageTitle)%string in
  let w := set_fullLog (fullLog w ++ logToString message messageTitle)%string w in
  if settingsLoaded host && negb fatal && negb (levelIn ["error"; "warning"; "all"])
  then w
  else
    let messageTitle :=
      if fatal && String.eqb messageTitle "Error" then "Fatal Error"
      else messageTitle in
    _reportError messageTitle message fatal
                 (emit (Console Error messageTitle message) w).

(** [pullPathLogs()]: [Path.dequeueLog()] hands over the queue and leaves it
    empty, so the calls of [pullPathLogs] nested in the loggers called here
    find nothing. *)
Definition pullPathLogs (w : World) : World :=
  fold_left
    (fun w thisLog =>
       match plType thisLog with
       | PInfo => logCore (plMessage thisLog) (plTitle thisLog) w
       | PWarn => warningCore (plMessage thisLog) (plTitle thisLog) w
       | PError => errorCore (plMessage thisLog) (plTitle thisLog) false w
       | PFatal => errorCore (plMessage thisLog) (plTitle thisLog) true w
       end)
    (pathLogQueue w) (set_pathLogQueue [] w).

Definition ExportLog_log (message : Message) (messageTitle : string) (w : World)
  : World :=
  logCore message messageTitle (pullPathLogs w).

Definition ExportLog_warning (message : Message) (messageTitle : string)
           (w : World) : World :=
  warningCore message messageTitle (pullPathLogs w).

Definition ExportLog_error (message : Message) (messageTitle : string)
           (fatal : bool) (w : World) : World :=
  errorCore message messageTitle fatal (pullPathLogs w).

(** *** [_reportProgress] (lines 1107-1140): no [await] inside, so a call
    runs to its end. *)
Definition _reportProgress (fraction : Z) (message subMessage progressColor : string)
           (w : World) : World :=
  if negb (batchStarted w) then w
  else
    match renderLeaf w with
    | None => w
    | Some l =>
        if negb (attached l (now w)) then w
        else if negb (existsb (Nat.eqb (leafId l)) (progressWrappers w)) then w
        else
          let w := emit (ProgressShown (leafId l) fraction message subMessage
                                       progressColor) w in
          match electronWindow w with
          | Some win => emit (TaskbarProgress win fraction) w
          | None => w
          end
    end.

(** *** [endBatch] (lines 1006-1030) *)
Definition endBatch (w : World) : World :=
  if negb (batchStarted w) then w
  else
    let w :=
      match renderLeaf w with
      | Some l =>
          if negb (errorInBatch w)
          then
            emit (Detached (leafId l))
                 (ExportLog_log "Closing render window" "" w)
          else
            let w := ExportLog_warning "Error in batch, leaving render window open"
                                       "" w in
            _reportProgress 1 "Completed with errors"
                            "Please see the log for more details." errorColor w
      | None => w
      end in
    let w := set_electronWindow None w in
    let w := set_renderLeaf None w in
    let w := set_loadingContainer None w in
    let w := set_fileListContainer None w in
    set_batchStarted false w.

(** *** [checkCancelled] (lines 219-229) *)
Definition checkCancelled (w : World) : bool * World :=
  if cancelled w || negb (match renderLeaf w with Some _ => true | None => false end)
  then (true, endBatch (ExportLog_log "cancelled" "" w))
  else (false, w).

(** *** The event loop *)

(** [windowClosed], the "close" listener installed by [beginBatch]
    (lines 992-998). *)
Definition windowClosed (w : World) : World :=
  if cancelled w then w
  else
    let w := endBatch w in
    let w := set_cancelled true w in
    match electronWindow w with
    | Some win =>
        set_closeListeners
          (filter (fun x => negb (Nat.eqb x win)) (closeListeners w)) w
    | None => w
    end.

(** The microtask checkpoint: the report calls whose wait has resolved run
    to their end. *)
Definition microtasks (w : World) : World :=
  let ready := filter (fun d => match dDue d with None => true | _ => false end)
                      (deferred w) in
  let waiting := filter (fun d => match dDue d with None => false | _ => true end)
                        (deferred w) in
  fold_left (fun w d => resumeReport d true w) ready (set_deferred waiting w).

(** One callback of the interval timer of a suspended report call: the body
    of the [setInterval] callback of [waitUntil] with timeout 100 and
    interval 10, followed by the rest of the report function when the wait
    settles. *)
Definition pollDeferred (d : Deferred) (w : World) : World :=
  match dDue d with
  | None => set_deferred (deferred w ++ [d]) w
  | Some t =>
      if negb (t <=? now w) then set_deferred (deferred w ++ [d]) w
      else if leafRooted w then resumeReport d true w
      else
        let timer := dTimer d + 10 in
        if 100 <=? timer then resumeReport d false w
        else set_deferred
               (deferred w ++ [mkDeferred (dSeverity d) (dTitle d) (dMessage d)
                                          (dFatal d) timer (Some (t + 10))]) w
  end.

(** The windows that close at the present time run their listener. *)
Definition fireCloses (w : World) : World :=
  let closing :=
    filter (fun win => match closeAt host win with
                       | Some t => t =? now w
                       | None => false
                       end) (closeListeners w) in
  fold_left (fun w _ => windowClosed w) closing w.

(** The interval timers of the suspended report calls fire. *)
Definition fireTimers (w : World) : World :=
  fold_left (fun w d => pollDeferred d w) (deferred w) (set_deferred [] w).

(** One millisecond passes: the clock advances, the windows that close at
    this time run their listener, the interval timers of the suspended
    report calls that are due fire, and the microtasks run. *)
Definition tick (w : World) : World :=
  microtasks (fireTimers (fireCloses (set_now (now w + 1) w))).

(** *** Asynchronous functions *)

Definition M (A : Type) : Type := World -> Completion A * World.

Definition ret {A} (a : A) : M A := fun w => (Returned a, w).

Definition bind {A B} (m : M A) (k : A -> M B) : M B :=
  fun w =>
    match m w with
    | (Returned a, w1) => k a w1
    | (Thrown e, w1) => (Thrown e, w1)
    | (Hung, w1) => (Hung, w1)
    end.

(** A synchronous step that only changes the world. *)
Definition act (f : World -> World) : M unit := fun w => (Returned tt, f w).

(** A synchronous step with a result. *)
Definition call {A} (f : World -> A * World) : M A :=
  fun w => let '(a, w1) := f w in (Returned a, w1).

(** [await] of a host promise that is already settled: the caller resumes
    after the microtasks queued before it. *)
Definition yield : M unit := act microtasks.

(** [await delay(ms)]. *)
Definition delay (ms : Z) : M unit :=
  act (fun w => microtasks (elapse tick ms w)).

(** [await waitUntil(condition, timeout, interval)] with a predicate that
    does not throw. *)
Definition awaitUntil (condition : World -> bool * World) (timeout interval : Z)
  : M bool :=
  fun w =>
    let verdict w := let '(b, w1) := condition w in
                     (if b then Truthy else Falsy, w1) in
    let '(r, w1) := waitUntil tick (giveUpAfter timeout interval) verdict
                              timeout interval w in
    let w2 := microtasks w1 in
    match outcome r with
    | Resolved b => (Returned b, w2)
    | Rejected e => (Thrown e, w2)
    | Pending => (Hung, w2)
    end.

(** *** [failRender] (lines 257-263): always [undefined]. *)
Definition failRender (file : option TFile) (message : Message) (w : World)
  : World :=
  let '(c, w1) := checkCancelled w in
  if c then w1
  else
    let what := match file with
                | Some f => path f
                | None => " custom markdown "
                end in
    ExportLog_error message ("Rendering " ++ what ++ " failed: ")%string false w1.

(** *** [beginBatch] (lines 906-1004) *)

(** [createLoadingContainer()] (lines 1057-1082), called when the leaf is
    attached. *)
Definition createLoadingContainer (w : World) : World :=
  match loadingContainer w, renderLeaf w with
  | None, Some l =>
      set_progressWrappers (progressWrappers w ++ [leafId l])
                           (set_loadingContainer (Some (leafId l)) w)
  | _, _ => w
  end.

Definition beginBatch (options : MarkdownRendererOptions) : M unit :=
  fun w =>
    if batchStarted w then (Returned tt, w)
    else
      let w := set_errorInBatch false w in
      let w := set_cancelled false w in
      let w := set_batchStarted true w in
      let w := set_loadingContainer None w in
      let w := set_logContainer None w in
      let w := set_logShowing false w in
      let leaf := mkLeaf (nextTab w) (now w) in
      let w := emit (TabOpened (leafId leaf)) (set_nextTab (S (nextTab w)) w) in
      let w := set_renderLeaf (Some leaf) w in
      let w := set_markdownView (Some (leafId leaf)) w in
      let parentAttached w :=
        match renderLeaf w with
        | Some l => if attached l (now w) then (true, w) else checkCancelled w
        | None => checkCancelled w
        end in
      bind (awaitUntil parentAttached 2000 1) (fun parentFound w =>
        if negb parentFound then
          let w :=
            match renderLeaf w with
            | Some l => emit (Detached (leafId l)) w
            | None =>
                (* the TypeError of [renderLeaf.detach()] is caught and logged *)
                ExportLog_error
                  (Obj "{}" "TypeError: Cannot read properties of undefined (reading 'detach')")
                  "Failed to detach render leaf: " false w
            end in
          let '(c, w) := checkCancelled w in
          if negb c then
            (Thrown "Failed to create leaf for rendering!",
             emit (Noticed "Error: Failed to create leaf for rendering!") w)
          else (Returned tt, w)
        else
          match renderLeaf w with
          | None => (Thrown "TypeError: renderLeaf is undefined", w)
          | Some l =>
              if negb (hasWindow host (leafId l)) then
                let w := set_electronWindow None w in
                let w := emit (Noticed
                           "Failed to get the render window, please try again.") w in
                let w := set_errorInBatch false w in
                let w := set_cancelled false w in
                let w := set_batchStarted false w in
                let w := set_renderLeaf None w in
                (Returned tt, set_electronWindow None w)
              else
                let win := leafId l in
                let w := set_electronWindow (Some win) w in
                let w := if negb (displayProgress options)
                         then emit (WindowHidden win) w
                         else emit (WindowDocked win) w in
                let w := emit (WindowPinned win) w in
                let w := set_closeListeners (closeListeners w ++ [win]) w in
                (Returned tt, createLoadingContainer w)
          end) w.

End Session.

(** ** The document renderers *)

Definition viewableMediaExtensions : list string :=
  ["png"; "jpg"; "jpeg"; "svg"; "gif"; "bmp"; "ico"; "mp4"; "mov"; "avi";
   "webm"; "mpeg"; "mp3"; "wav"; "ogg"; "aac"; "pdf"; "html"; "htm"; "json";
   "txt"; "yaml"].

Definition contains (l : list string) (x : string) : bool :=
  existsb (String.eqb x) l.

(** [extentionToTag] (lines 17-24). *)
Definition extentionToTag (extention : string) : string :=
  if contains ["png"; "jpg"; "jpeg"; "svg"; "gif"; "bmp"; "ico"] extention then "img"
  else if contains ["mp4"; "mov"; "avi"; "webm"; "mpeg"] extention then "video"
  else if contains ["mp3"; "wav"; "ogg"; "aac"] extention then "audio"
  else if contains ["pdf"] extention then "embed"
  else "iframe".

(** [options.container?.appendChild(el)]: the container afterwards. *)
Definition intoContainer (options : MarkdownRendererOptions) (el : node)
  : option node :=
  option_map (appendChild el) (container options).

Section Renderers.
Variable host : Host.

Local Notation "x <- m ;; k" := (bind m (fun x => k))
  (at level 61, m at next level, right associativity).
Local Notation "m ;;; k" := (bind m (fun _ => k))
  (at level 61, right associativity).

(** [createMediaPage] (lines 748-769). *)
Definition createMediaPage (file : TFile) (options : MarkdownRendererOptions)
  : node * option node :=
  let embedType := extentionToTag (extension file) in
  let media := Elem embedType [] [] None [] in
  let media := if String.eqb embedType "video" || String.eqb embedType "audio"
               then setAttribute "controls" "" media else media in
  let media := setAttribute "src" (path file) media in
  let contentEl := Elem "div" [("class", "obsidian-document")] [] None [media] in
  (contentEl, intoContainer options contentEl).

(** *** [renderMarkdownView] (lines 365-525) *)

Definition rendered (sec : MdSection) (t0 t : Z) : bool :=
  match sRenderDelay sec with Some d => t0 + d <=? t | None => false end.

Definition computed (sec : MdSection) (t1 t : Z) : bool :=
  match sComputeDelay sec with Some d => t1 + d <=? t | None => false end.

(** [section.el.querySelector(".markdown-sizer:empty")] finds something. *)
Definition hasEmptySizer (el : node) : bool :=
  hasDescendant (fun k => hasClass "markdown-sizer" k && isEmpty k) el.

Definition isEmptyPluginBlock (k : node) : bool :=
  isElement k && classStartsWith "block-language-" k && isEmpty k.

(** [canvas:not(.pdf-embed canvas)]. *)
Definition liveCanvas (anc : list node) (k : node) : bool :=
  isTag "canvas" k && negb (existsb (hasClass "pdf-embed") anc).

Definition degenerate (canvas : node) : bool :=
  (String.length (toDataURL host canvas) <? 100)%nat.

(** What takes the place of a canvas: nothing when its snapshot is
    degenerate, an image of it otherwise. *)
Definition canvasImage (canvas : node) : list node :=
  if degenerate canvas then []
  else
    let width := if String.eqb (getStyle "width" canvas) "" then "100%"
                 else getStyle "width" canvas in
    [setStyle "max-width" "100%"
       (setStyle "width" width
          (Elem "img" [("src", toDataURL host canvas)] [] None []))].

(** The callouts folded in the live view are shown while the section
    renders and folded again afterwards. *)
Definition foldedCallout (_ : list node) (k : node) : bool :=
  hasClass "callout-content" k && String.eqb (getStyle "display" k) "none".

Definition refold (k : node) : node :=
  setStyle "display" "none" (setStyle "display" "" k).

(** The body of the loop over the sections: [None] when the function
    returns [undefined] from inside the loop, the final state of
    [section.el] otherwise. *)
Definition renderSection (preview : Preview) (sec : MdSection)
  : M (option node) :=
  fun w0 =>
    let file := pFile preview in
    let t0 := now w0 in
    let elNow (w : World) : node := sElAt sec (now w - t0) in
    ( yield ;;;                                    (* await section.render() *)
      success <- awaitUntil host
                   (fun w => if rendered sec t0 (now w) then (true, w)
                             else checkCancelled host w) 2000 1 ;;
      if negb success
      then act (failRender host (Some file) "Failed to render section!") ;;;
           ret None
      else
        t1 <- call (fun w => (now w, w)) ;;
        yield ;;;                                  (* await measureSection *)
        success <- awaitUntil host
                     (fun w => if computed sec t1 (now w) then (true, w)
                               else checkCancelled host w) 2000 1 ;;
        if negb success
        then act (failRender host (Some file) "Failed to compute section!") ;;;
             ret None
        else
          yield ;;;                                (* await preview.postProcess *)
          _ <- awaitUntil host
                 (fun w => if negb (hasEmptySizer (elNow w)) then (true, w)
                           else checkCancelled host w) 500 1 ;;
          c <- call (checkCancelled host) ;;
          if c : bool then ret None
          else
            el <- call (fun w => (elNow w, w)) ;;
            (if hasEmptySizer el
             then act (ExportLog_warning host
                         ("Transclusions were not rendered correctly in file "
                            ++ name file ++ "!")%string "")
             else ret tt) ;;;
            _ <- awaitUntil host
                   (fun w => if negb (hasDescendant isEmptyPluginBlock (elNow w))
                             then (true, w)
                             else checkCancelled host w) 500 1 ;;
            c <- call (checkCancelled host) ;;
            if c : bool then ret None
            else
              el <- call (fun w => (elNow w, w)) ;;
              act (fun w =>
                     fold_left
                       (fun w canvas =>
                          if degenerate canvas
                          then ExportLog_log host (outerHTML host canvas)
                                 ("Failed to render canvas based plugin element in file "
                                    ++ name file ++ ":")%string w
                          else w)
                       (descendantsWith liveCanvas [] el) w) ;;;
              let el := rewriteMatch liveCanvas canvasImage [] el in
              act (fun w =>
                     fold_left
                       (fun w block =>
                          ExportLog_warning host
                            ("Plugin element " ++ className block ++ " from "
                               ++ name file ++ " not rendered correctly!")%string "" w)
                       (querySelectorAll isEmptyPluginBlock el) w) ;;;
              ret (Some (forEachMatch foldedCallout refold [] el))
    ) w0.

(** The loop over the sections: the final elements of all sections, or
    [None] when the function returned from inside the loop. *)
Fixpoint renderSections (preview : Preview) (sections : list MdSection)
  : M (option (list node)) :=
  match sections with
  | [] => ret (Some [])
  | sec :: rest =>
      r <- renderSection preview sec ;;
      match r with
      | None => ret None
      | Some el =>
          rs <- renderSections preview rest ;;
          ret (option_map (cons el) rs)
      end
  end.

Definition pusherElement : node :=
  Elem "div" [("class", "markdown-pusher")]
       [("width", "1px"); ("height", "0.1px"); ("margin-bottom", "0px")] None [].

(** The result is the element and the container afterwards; the element is
    [None] when the function returns [undefined].  The assignment to
    [newMarkdownEl.outerHTML] when [createDocumentContainer] is false
    leaves the element the function returns as it is. *)
Definition renderMarkdownView (preview : Preview)
           (options : MarkdownRendererOptions)
  : M (option node * option node) :=
  yield ;;;                       (* await unfoldAllHeadings, ..., parseSync *)
  (match pUnfoldError preview with
   | Some e => act (ExportLog_error host e "Failed to unfold or parse renderer!" false)
   | None => ret tt
   end) ;;;
  yield ;;;                       (* await loadMermaid() *)
  r <- renderSections preview (pSections preview) ;;
  match r with
  | None => ret (None, container options)
  | Some els =>
      yield ;;;                   (* await Promise.all(promises) *)
      let pusher := if createPusherElement options then [pusherElement] else [] in
      let sizer := Elem "div" [("class", "markdown-sizer")] [] None (pusher ++ els) in
      let wrapperKids :=
        match extractFirst (hasClass "obsidian-banner-wrapper") sizer with
        | Some (banner, sizer') => [banner; sizer']
        | None => [sizer]
        end in
      let newMarkdownEl :=
        Elem "div" [("class", ("obsidian-document " ++ pClassName preview)%string)]
             [] None wrapperKids in
      ret (Some newMarkdownEl, intoContainer options newMarkdownEl)
  end.

(** *** [renderGeneric] (lines 574-586) *)
Definition renderGeneric (view : View) (options : MarkdownRendererOptions)
  : M (option node * option node) :=
  delay host 2000 ;;;
  c <- call (checkCancelled host) ;;
  if c : bool then ret (None, container options)
  else ret (Some (vContainerEl view), intoContainer options (vContainerEl view)).

(** *** [renderExcalidraw] (lines 588-620) *)
Definition renderExcalidraw (view : View) (options : MarkdownRendererOptions)
  : M (option node * option node) :=
  delay host 500 ;;;
  yield ;;;                       (* await view.svg(scene, "", false) *)
  let svg := vSvg view in
  let isLight := match getAttribute "filter" svg with
                 | Some f => String.eqb f ""
                 | None => true
                 end in
  let svg := if isLight then svg else removeAttribute "filter" svg in
  let svg := classListAdd (if isLight then "light" else "dark") svg in
  let sizerEl := Elem "div" [("class", "excalidraw-plugin")] [] None [svg] in
  let contentEl := Elem "div" [("class", "obsidian-document")] [] None [sizerEl] in
  c <- call (checkCancelled host) ;;
  if c : bool then ret (None, container options)
  else
    let contentEl := if createDocumentContainer options then contentEl else svg in
    ret (Some contentEl, intoContainer options contentEl).

(** *** [renderCanvas] (lines 622-746) *)

(** [.markdown-embed-content.node-insert-event]. *)
Definition isEmbedContent (k : node) : bool :=
  hasClass "markdown-embed-content" k && hasClass "node-insert-event" k.

(** The static cross-reference put in place of an embedded document
    (lines 689-691): [embedEl] is the [i]-th child of the element at
    [parent]. *)
Definition referencePlaceholder (nodeFile : TFile) (parent : list nat) (i : nat)
           (nodeEl : node) : node :=
  let nodeEl := updateAt (parent ++ [i])
                         (setKids (includeGenerate host (path nodeFile))) nodeEl in
  let nodeEl := updateAt parent (classListAdd "external-markdown-embed") nodeEl in
  updateAt parent (setAttribute "src" (path nodeFile)) nodeEl.

(** The embedded document rendered into [embedEl] (lines 677-685 and
    696-705): the markdown section renderer runs with a copy of the options
    whose container is [embedEl], found at [place] in the node element. *)
Definition inlineEmbed (childPreview : Preview) (place : list nat) (embedEl : node)
           (options : MarkdownRendererOptions) (nodeEl : node) : M node :=
  r <- renderMarkdownView childPreview (set_container (Some embedEl) options) ;;
  match snd r with
  | Some embedEl' => ret (updateAt place (fun _ => embedEl') nodeEl)
  | None => ret nodeEl
  end.

Definition linkFrame (url : string) : node :=
  Elem "iframe"
       [("src", url); ("class", "canvas-link");
        ("title", ("Canvas card with embedded webpage: " ++ url)%string)]
       [("border", "none"); ("width", "100%"); ("height", "100%")] None [].

(** The body of the loop over the nodes (lines 661-718): the node element
    as it is appended to the canvas. *)
Definition renderCanvasNode (allExportedPaths : list string)
           (options : MarkdownRendererOptions) (cn : CanvasNode) : M node :=
  let nodeEl := nNodeEl cn in
  match firstMatch isEmbedContent nodeEl with
  | Some (parent, i) =>
      (* embedEl.innerHTML = "" *)
      let place := parent ++ [i] in
      let nodeEl := updateAt place (setKids []) nodeEl in
      let embedEl := match nodeAt place nodeEl with
                     | Some e => e
                     | None => Text ""
                     end in
      nodeEl <-
        match nFile cn with
        | Some nodeFile =>
            match (inlineHTML options
                   || negb (contains allExportedPaths (path nodeFile))),
                  nChildPreview cn with
            | true, Some childPreview =>
                inlineEmbed childPreview place embedEl options nodeEl
            | _, _ => ret (referencePlaceholder nodeFile parent i nodeEl)
            end
        | None =>
            match nChildPreview cn with
            | Some childPreview =>
                inlineEmbed childPreview place embedEl options nodeEl
            | None => ret nodeEl
            end
        end ;;
      ret (match nUrl cn with
           | Some url =>
               if String.eqb url "" then nodeEl
               else updateAt (nContentAt cn) (appendChild (linkFrame url)) nodeEl
           | None => nodeEl
           end)
  | None =>
      ret (match nUrl cn with
           | Some url =>
               if String.eqb url "" then nodeEl
               else updateAt (nContentAt cn) (appendChild (linkFrame url)) nodeEl
           | None => nodeEl
           end)
  end.

Fixpoint renderCanvasNodes (allExportedPaths : list string)
         (options : MarkdownRendererOptions) (nodes : list CanvasNode)
  : M (list node) :=
  match nodes with
  | [] => ret []
  | cn :: rest =>
      el <- renderCanvasNode allExportedPaths options cn ;;
      els <- renderCanvasNodes allExportedPaths options rest ;;
      ret (el :: els)
  end.

Definition renderCanvas (view : View) (options : MarkdownRendererOptions)
  : M (option node * option node) :=
  c <- call (checkCancelled host) ;;
  if c : bool then ret (None, container options)
  else
    let allExportedPaths := getAllFilesFromPaths host (filesToExport options) in
    let nodes := vNodes view in
    let edges := vEdges view in
    delay host 500 ;;;
    fold_right (fun _ k => yield ;;; k) (ret tt) nodes ;;;
    fold_right (fun _ k => yield ;;; k) (ret tt) edges ;;;
    delay host 500 ;;;
    let contentEl := vContentEl view in
    match firstMatch (hasClass "canvas") contentEl with
    | None => fun w => (Thrown "TypeError: canvasEl is null", w)
    | Some (parent, i) =>
        let canvasEl := match nodeAt (parent ++ [i]) contentEl with
                        | Some e => e
                        | None => Text ""
                        end in
        nodeEls <- renderCanvasNodes allExportedPaths options nodes ;;
        let edgeContainer :=
          Elem "svg" [("class", "canvas-edges")] [] None (map eLineGroupEl edges) in
        let edgeHeadContainer :=
          Elem "svg" [("class", "canvas-edges")] [] None (map eLineEndGroupEl edges) in
        let labels :=
          flat_map (fun e => match eLabel e with Some l => [l] | None => [] end)
                   edges in
        let canvasEl :=
          setKids ([edgeContainer; edgeHeadContainer] ++ nodeEls ++ labels) canvasEl in
        c <- call (checkCancelled host) ;;
        if c : bool then ret (None, container options)
        else
          let contentEl :=
            if createDocumentContainer options
            then updateAt (parent ++ [i]) (fun _ => canvasEl) contentEl
            else canvasEl in
          ret (Some contentEl, intoContainer options contentEl)
    end.

(** *** [renderFile] (lines 265-323) *)

(** [() => renderLeaf != undefined || checkCancelled()]. *)
Definition leafOrCancelled (w : World) : bool * World :=
  match renderLeaf w with
  | Some _ => (true, w)
  | None => checkCancelled host w
  end.

(** The first component of the result is [{contentEl, viewType}], or [None]
    for [undefined]; the second is the container afterwards. *)
Definition renderFile (file : TFile) (options : MarkdownRendererOptions)
  : M (option (node * string) * option node) :=
  if contains viewableMediaExtensions (extension file)
  then
    let '(contentEl, c) := createMediaPage file options in
    ret (Some (contentEl, "attachment"), c)
  else
    loneFile <- call (fun w => (negb (batchStarted w), w)) ;;
    (if loneFile : bool
     then act (ExportLog_log host "Exporting single file, starting batch" "") ;;;
          beginBatch host options ;;;
          yield
     else ret tt) ;;;
    success <- awaitUntil host leafOrCancelled 2000 1 ;;
    leaf <- call (fun w => (renderLeaf w, w)) ;;
    match success, leaf with
    | true, Some _ =>
        yield ;;;                     (* await renderLeaf.openFile(file) *)
        match openFileError host file with
        | Some e =>
            act (failRender host (Some file) e) ;;; ret (None, container options)
        | None =>
            leaf <- call (fun w => (renderLeaf w, w)) ;;
            match leaf with
            | None => fun w => (Thrown "TypeError: renderLeaf is undefined", w)
            | Some _ =>
                let view := viewOf host file in
                let viewType := vType view in
                r <- (if String.eqb viewType "markdown"
                      then renderMarkdownView (vPreviewMode view) options
                      else if String.eqb viewType "kanban"
                      then renderGeneric view options
                      else if String.eqb viewType "excalidraw"
                      then renderExcalidraw view options
                      else if String.eqb viewType "canvas"
                      then renderCanvas view options
                      else renderGeneric view options) ;;
                c <- call (checkCancelled host) ;;
                if c : bool then ret (None, snd r)
                else
                  match fst r with
                  | None =>
                      act (failRender host (Some file) "Failed to render file!") ;;;
                      ret (None, snd r)
                  | Some html =>
                      (if loneFile : bool then act (endBatch host) else ret tt) ;;;
                      ret (Some (html, viewType), snd r)
                  end
            end
        end
    | _, _ =>
        act (failRender host (Some file) "Failed to get leaf for rendering!") ;;;
        ret (None, container options)
    end.

(** *** [renderMarkdown] (lines 325-363) *)
Definition renderMarkdown (markdown : string) (options : MarkdownRendererOptions)
  : M (option node * option node) :=
  loneFile <- call (fun w => (negb (batchStarted w), w)) ;;
  (if loneFile : bool
   then act (ExportLog_log host "Exporting single file, starting batch" "") ;;;
        beginBatch host options ;;;
        yield
   else ret tt) ;;;
  success <- awaitUntil host leafOrCancelled 2000 1 ;;
  leaf <- call (fun w => (renderLeaf w, w)) ;;
  match success, leaf with
  | true, Some l =>
      act (fun w => match markdownView w with
                    | Some _ => w
                    | None => set_markdownView (Some (leafId l)) w
                    end) ;;;
      match setViewDataError host markdown with
      | Some e => act (failRender host None e) ;;; ret (None, container options)
      | None =>
          r <- renderMarkdownView (previewOfMarkdown host markdown) options ;;
          c <- call (checkCancelled host) ;;
          if c : bool then ret (None, snd r)
          else
            match fst r with
            | None =>
                act (failRender host None "Failed to render file!") ;;;
                ret (None, snd r)
            | Some html =>
                (if loneFile : bool then act (endBatch host) else ret tt) ;;;
                ret (Some html, snd r)
            end
      end
  | _, _ =>
      act (failRender host None "Failed to get leaf for rendering!") ;;;
      ret (None, container options)
  end.

End Renderers.

(** ** The heading tree builder: [makeHeadingsTrees] (lines 26-112) *)

(** [_MarkdownRendererInternal.arrowHTML], parsed. *)
Definition arrowHTML : node :=
  Elem "svg"
       [("xmlns", "http://www.w3.org/2000/svg"); ("width", "24"); ("height", "24");
        ("viewBox", "0 0 24 24"); ("fill", "none"); ("stroke", "currentColor");
        ("stroke-width", "2"); ("stroke-linecap", "round");
        ("stroke-linejoin", "round"); ("class", "svg-icon right-triangle")]
       [] None
       [Elem "path" [("d", "M3 8L12 17L21 8")] [] None []].

(** *** Trees whose elements have an identity

    The callbacks of [forEach] hold on to elements while the tree changes
    around them.  Inside the builder every element therefore carries a
    number, given in document order when the builder starts and to every
    element it creates. *)
Inductive lnode : Type :=
| LText (s : string)
| LElem (id : nat) (tag : string) (attrs : list (string * string))
        (style : list (string * string)) (value : option string)
        (kids : list lnode).

Fixpoint label (n : node) (next : nat) : lnode * nat :=
  match n with
  | Text s => (LText s, next)
  | Elem t a s v kids =>
      let '(kids', next') :=
        (fix all (ks : list node) (nx : nat) : list lnode * nat :=
           match ks with
           | [] => ([], nx)
           | k :: rest =>
               let '(k', n1) := label k nx in
               let '(rest', n2) := all rest n1 in
               (k' :: rest', n2)
           end) kids (S next) in
      (LElem next t a s v kids', next')
  end.

Fixpoint forget (x : lnode) : node :=
  match x with
  | LText s => Text s
  | LElem _ t a s v kids => Elem t a s v (map forget kids)
  end.

Definition idOf (x : lnode) : option nat :=
  match x with LElem id _ _ _ _ _ => Some id | LText _ => None end.

Definition hasId (id : nat) (x : lnode) : bool :=
  match x with LElem i _ _ _ _ _ => Nat.eqb i id | LText _ => false end.

Definition lkids (x : lnode) : list lnode :=
  match x with LElem _ _ _ _ _ kids => kids | LText _ => [] end.

Definition lisElement (x : lnode) : bool :=
  match x with LElem _ _ _ _ _ _ => true | LText _ => false end.

(** The element without its children, for selectors that look at the tag
    and the attributes only. *)
Definition shell (x : lnode) : node :=
  match x with
  | LText s => Text s
  | LElem _ t a s v _ => Elem t a s v []
  end.

(** A change of the tag's attributes, style or value carried over to an
    element with identity. *)
Definition lift (f : node -> node) (x : lnode) : lnode :=
  match x with
  | LText _ => x
  | LElem id t a s v kids =>
      match f (Elem t a s v []) with
      | Elem t' a' s' v' _ => LElem id t' a' s' v' kids
      | Text _ => x
      end
  end.

Definition lsetKids (kids : list lnode) (x : lnode) : lnode :=
  match x with
  | LElem id t a s v _ => LElem id t a s v kids
  | LText _ => x
  end.

(** The identities of the descendants of [x] that satisfy [p], in document
    order; [p] sees the candidate with its subtree and the ancestors
    (nearest first, [x] included) without theirs. *)
Fixpoint lmatches (p : list node -> node -> bool) (anc : list node) (x : lnode)
  : list nat :=
  match x with
  | LText _ => []
  | LElem _ _ _ _ _ kids =>
      flat_map (fun k =>
                  (match idOf k with
                   | Some id => if p (shell x :: anc) (forget k) then [id] else []
                   | None => []
                   end) ++ lmatches p (shell x :: anc) k) kids
  end.

(** The element with the given identity replaced by its image under [f],
    wherever it is below [x]. *)
Fixpoint updateById (id : nat) (f : lnode -> lnode) (x : lnode) : lnode :=
  match x with
  | LText _ => x
  | LElem i t a s v kids =>
      LElem i t a s v
            (map (fun k => if hasId id k then f k else updateById id f k) kids)
  end.

(** The children of a parent split at the child with the given identity. *)
Fixpoint splitAtId (id : nat) (ks : list lnode)
  : option (list lnode * lnode * list lnode) :=
  match ks with
  | [] => None
  | k :: rest =>
      if hasId id k then Some ([], k, rest)
      else match splitAtId id rest with
           | Some (before, x, after) => Some (k :: before, x, after)
           | None => None
           end
  end.

(** The children of the parent of the element with the given identity
    rewritten by [g], which is given the siblings before the element, the
    element, and the siblings after it. *)
Fixpoint atParentOf (id : nat)
         (g : list lnode -> lnode -> list lnode -> list lnode) (x : lnode) : lnode :=
  match x with
  | LText _ => x
  | LElem i t a s v kids =>
      match splitAtId id kids with
      | Some (before, e, after) => LElem i t a s v (g before e after)
      | None => LElem i t a s v (map (atParentOf id g) kids)
      end
  end.

(** The first descendant that satisfies [p] taken out of the tree. *)
Fixpoint lremoveFirst (p : node -> bool) (x : lnode) : option lnode :=
  match x with
  | LText _ => None
  | LElem i t a s v kids =>
      match (fix go (ks : list lnode) : option (list lnode) :=
               match ks with
               | [] => None
               | k :: rest =>
                   if lisElement k && p (shell k) then Some rest
                   else match lremoveFirst p k with
                        | Some k' => Some (k' :: rest)
                        | None =>
                            match go rest with
                            | Some rest' => Some (k :: rest')
                            | None => None
                            end
                        end
               end) kids with
      | Some kids' => Some (LElem i t a s v kids')
      | None => None
      end
  end.

(** *** [getHeaderEl] (lines 38-43) *)

(** [/[Hh][1-6]/.test(s)]. *)
Fixpoint testHeaderRegex (s : string) : bool :=
  match s with
  | String c rest =>
      match rest with
      | String d _ =>
          ((Ascii.eqb c "H" || Ascii.eqb c "h")
           && (49 <=? nat_of_ascii d)%nat && (nat_of_ascii d <=? 54)%nat)
          || testHeaderRegex rest
      | EmptyString => false
      end
  | EmptyString => false
  end.

Definition upperAscii (c : ascii) : ascii :=
  let n := nat_of_ascii c in
  if ((97 <=? n) && (n <=? 122))%nat then ascii_of_nat (n - 32) else c.

(** [el.tagName] of an HTML element: the tag in upper case. *)
Fixpoint tagName (t : string) : string :=
  match t with
  | EmptyString => EmptyString
  | String c rest => String (upperAscii c) (tagName rest)
  end.

(** [a <= b] on JavaScript strings: the order of the code units. *)
Fixpoint stringLeb (a b : string) : bool :=
  match a, b with
  | EmptyString, _ => true
  | String _ _, EmptyString => false
  | String x a', String y b' =>
      if (nat_of_ascii x <? nat_of_ascii y)%nat then true
      else if (nat_of_ascii y <? nat_of_ascii x)%nat then false
      else stringLeb a' b'
  end.

Definition firstElementChild (x : lnode) : option lnode :=
  find lisElement (lkids x).

Definition getHeaderEl (headingContainer : lnode) : option lnode :=
  match firstElementChild headingContainer with
  | Some first =>
      if testHeaderRegex (tagName (tagOf (shell first))) then Some first else None
  | None => None
  end.

(** *** [makeHeaderTree] (lines 45-76) *)

(** [possibleChildHeader.querySelector(":has(section.footnotes)")
    || possibleChildHeader.classList.contains("mod-footer")]. *)
Definition marksFooter (header : lnode) : bool :=
  hasDescendant
    (hasDescendant (fun k => isTag "section" k && hasClass "footnotes" k))
    (forget header)
  || hasClass "mod-footer" (shell header).

(** The walk stops at [possibleChild]: it wraps a header whose tag name is
    not greater than that of [headerEl], or one that marks the footer. *)
Definition stopsAt (headerEl possibleChild : lnode) : bool :=
  match getHeaderEl possibleChild with
  | Some possibleChildHeader =>
      stringLeb (tagName (tagOf (shell possibleChildHeader)))
                (tagName (tagOf (shell headerEl)))
      || marksFooter possibleChildHeader
  | None => false
  end.

(** The walk over the siblings after the header's wrapper: the elements
    moved into the children container, and what stays with the parent (the
    text nodes passed on the way, the element the walk stopped at and all
    that follows it). *)
Fixpoint walkSiblings (headerEl : lnode) (after : list lnode)
  : list lnode * list lnode :=
  match after with
  | [] => ([], [])
  | possibleChild :: rest =>
      if lisElement possibleChild then
        if stopsAt headerEl possibleChild then ([], after)
        else let '(moved, stay) := walkSiblings headerEl rest in
             (possibleChild :: moved, stay)
      else let '(moved, stay) := walkSiblings headerEl rest in
           (moved, possibleChild :: stay)
  end.

(** *** The callback of the loop over the heading wrappers (lines 80-98) *)

Definition collapseIndicator : node :=
  Elem "div"
       [("class", "heading-collapse-indicator collapse-indicator collapse-icon")]
       [] None [arrowHTML].

(** [header] is the wrapper, [after] its later siblings, [next] the first
    free number: the wrapper and the siblings afterwards. *)
Definition wrapHeading (next : nat) (header : lnode) (after : list lnode)
  : list lnode * nat :=
  let header := lift (classListAdd "heading-wrapper") header in
  match getHeaderEl header with
  | None => (header :: after, next)
  | Some hEl =>
      if hasClass "heading" (shell hEl) then (header :: after, next)
      else
        let hEl1 := lift (classListAdd "heading") hEl in
        let '(hEl2, next) :=
          if hasDescendant (hasClass "heading-collapse-indicator") (forget hEl1)
          then (hEl1, next)
          else let '(icon, next') := label collapseIndicator next in
               (lsetKids (icon :: lkids hEl1) hEl1, next') in
        (* the header element is the first element child of the wrapper *)
        let kids :=
          (fix put (ks : list lnode) : list lnode :=
             match ks with
             | [] => []
             | k :: rest => if lisElement k then hEl2 :: rest else k :: put rest
             end) (lkids header) in
        let '(moved, stay) := walkSiblings hEl2 after in
        let children :=
          LElem next "div" [("class", "heading-children")] [] None moved in
        (lsetKids (kids ++ [children]) header :: stay, S next)
  end.

(** The selector of the heading wrappers (line 78): a [div] that is not
    [.markdown-sizer] and has a child [h1] ... [h6] that is not below an
    element whose class attribute starts with "block-language-".  The
    element handed to the builder is taken to have no ancestors. *)
Definition isHeadingWrapper (anc : list node) (e : node) : bool :=
  isTag "div" e
  && negb (hasClass "markdown-sizer" e)
  && existsb isHeading (kidsOf e)
  && negb (existsb (classStartsWith "block-language-") (e :: anc)).

(** [div h1, div .inline-title]. *)
Definition isTitleInDiv (anc : list node) (e : node) : bool :=
  (isTag "h1" e || hasClass "inline-title" e) && existsb (isTag "div") anc.

(** Every newline taken out of a string. *)
Fixpoint stripNewlines (s : string) : string :=
  match s with
  | EmptyString => EmptyString
  | String c rest =>
      if (nat_of_ascii c =? 10)%nat then stripNewlines rest
      else String c (stripNewlines rest)
  end.

(** [el.innerHTML.replaceAll("\n", "")] parsed again: the newlines leave the
    text and the attribute values of everything inside, a text node left
    empty is gone, text nodes that follow one another are one, and the live
    values of the form controls are lost.  (The markup is taken to be one
    that the parser reads back as it is written: it holds no element that
    the parser would close early or move, such as a block inside a
    paragraph.) *)
Fixpoint withoutNewlines (n : node) : list node :=
  match n with
  | Text s => if String.eqb (stripNewlines s) "" then [] else [Text (stripNewlines s)]
  | Elem t a s v kids =>
      let clean kv := (fst kv, stripNewlines (snd kv)) in
      [Elem t (map clean a) (map clean s) None
            (mergeText (flat_map withoutNewlines kids))]
  end.

Definition makeHeadingsTrees (html : node) : node :=
  let '(tree, next) := label html 0 in
  (* the loop over the heading wrappers *)
  let '(tree, next) :=
    fold_left
      (fun '(tree, next) id =>
         (* the callback changes the children of the wrapper's parent; it
            creates four elements at most *)
         (atParentOf id
            (fun before header after =>
               before ++ fst (wrapHeading next header after)) tree,
          (next + 4)%nat))
      (lmatches isHeadingWrapper [] tree) (tree, next) in
  (* add "heading" class to all headers that don't have it *)
  let tree :=
    fold_left
      (fun tree id => updateById id (lift (classListAdd "heading")) tree)
      (lmatches (fun _ e => isHeading e && negb (hasClass "heading" e)) [] tree)
      tree in
  (* remove collapsible arrows from h1 and inline titles *)
  let tree :=
    fold_left
      (fun tree id =>
         updateById id
           (fun element =>
              match lremoveFirst (hasClass "heading-collapse-indicator") element with
              | Some element' => element'
              | None => element
              end) tree)
      (lmatches isTitleInDiv [] tree) tree in
  (* remove all new lines from header elements *)
  rewriteMatch (fun _ e => isHeading e)
               (fun el => [setKids (mergeText (flat_map withoutNewlines (kidsOf el)))
                                   el])
               [] (forget tree).

(** ** The post-processor: [postProcessHTML] (lines 771-904) *)

(** More operations on elements with identity, for the steps that move or
    remove elements they hold on to. *)
Fixpoint findById (id : nat) (x : lnode) : option lnode :=
  match x with
  | LText _ => None
  | LElem i _ _ _ _ kids =>
      if Nat.eqb i id then Some x
      else (fix go (ks : list lnode) : option lnode :=
              match ks with
              | [] => None
              | k :: rest =>
                  match findById id k with
                  | Some r => Some r
                  | None => go rest
                  end
              end) kids
  end.

(** The element with the given identity taken out, wherever it is below [x]. *)
Fixpoint removeById (id : nat) (x : lnode) : lnode :=
  match x with
  | LText _ => x
  | LElem i t a s v kids =>
      LElem i t a s v
            (flat_map (fun k => if hasId id k then [] else [removeById id k]) kids)
  end.

(** The identity of the parent of the element with the given identity. *)
Fixpoint parentIdOf (id : nat) (x : lnode) : option nat :=
  match x with
  | LText _ => None
  | LElem i _ _ _ _ kids =>
      if existsb (hasId id) kids then Some i
      else (fix go (ks : list lnode) : option nat :=
              match ks with
              | [] => None
              | k :: rest =>
                  match parentIdOf id k with
                  | Some r => Some r
                  | None => go rest
                  end
              end) kids
  end.

(** *** The steps of the pipeline *)

(** Lines 773-783: the element that gets the class [obsidian-document];
    [None] when there is no view container. *)
Definition isViewContainer (k : node) : bool :=
  hasClass "view-content" k || hasClass "markdown-preview-view" k.

Definition markDocumentRoot (html : node) : option node :=
  if hasClass "obsidian-document" html then Some html
  else if isViewContainer html then Some (classListAdd "obsidian-document" html)
  else match firstMatch isViewContainer html with
       | Some (parent, i) =>
           Some (updateAt (parent ++ [i]) (classListAdd "obsidian-document") html)
       | None => None
       end.

(** Lines 786-789. *)
Definition removeDecorations : node -> node :=
  rewriteMatch (fun _ k => hasClass "mod-header" k || hasClass "mod-footer" k)
               (fun _ => []) [].

(** Lines 804-810: [element.value] of an input is the live value when one
    was set, the [value] attribute otherwise. *)
Definition inputValue (e : node) : string :=
  match e with
  | Elem _ _ _ (Some v) _ => v
  | Elem _ a _ None _ => match lookup "value" a with Some v => v | None => "" end
  | Text _ => ""
  end.

Definition serializeInput (element : node) : node :=
  match setAttribute "value" (inputValue element) element with
  | Elem t a s _ kids => Elem t a s (Some "") kids
  | Text s => Text s
  end.

Definition isTextInput (_ : list node) (k : node) : bool :=
  isTag "input" k
  && match getAttribute "type" k with
     | Some ty => String.eqb ty "text"
     | None => false
     end.

Definition serializeInputs : node -> node :=
  forEachMatch isTextInput serializeInput [].

(** Lines 813-817: [element.value] of a text area is the live value when one
    was set, its text content otherwise. *)
Definition textareaValue (e : node) : string :=
  match e with
  | Elem _ _ _ (Some v) _ => v
  | _ => textContent e
  end.

Definition setTextContent (text : string) (e : node) : node :=
  setKids (if String.eqb text "" then [] else [Text text]) e.

Definition serializeTextareas : node -> node :=
  rewriteMatch (fun _ k => isTag "textarea" k)
               (fun element => [setTextContent (textareaValue element) element]) [].

(** [s.split("#")]. *)
Fixpoint splitHash (s cur : string) : list string :=
  match s with
  | EmptyString => [cur]
  | String c rest =>
      if Ascii.eqb c "#" then cur :: splitHash rest ""
      else splitHash rest (cur ++ String c "")
  end.

(** [s.substring(1)]. *)
Definition dropFirst (s : string) : string :=
  match s with String _ rest => rest | EmptyString => EmptyString end.

(** *** The pipeline *)

Section PostProcessor.
Variable host : Host.

(** Lines 792-801: a paragraph with a [div] inside becomes a [span] that
    holds what the browser reads back from the markup of the paragraph. *)
Definition paragraphSpan (element : node) : node :=
  Elem "span" []
       [("display", "block"); ("margin-block-start", "var(--p-spacing)");
        ("margin-block-end", "var(--p-spacing)")]
       None (reparsed host (kidsOf element)).

Definition fixParagraphs : node -> node :=
  rewriteMatch (fun _ k => isTag "p" k && hasDescendant (isTag "div") k)
               (fun element => [paragraphSpan element]) [].

(** Lines 820-826: the href of a tag link becomes a search query. *)
Definition hrefProperty (element : node) : string :=
  match getAttribute "href" element with
  | Some h => resolveHref host h
  | None => ""
  end.

Definition tagOfHref (href : string) : string :=
  match splitHash href "" with
  | _ :: second :: _ => second
  | _ => dropFirst href
  end.

Definition rewriteTagLink (element : node) : node :=
  let tag := tagOfHref (hrefProperty element) in
  let element :=
    setAttribute "data-href"
                 (match getAttribute "href" element with
                  | Some h => h
                  | None => ""
                  end) element in
  setAttribute "href" ("?query=tag:" ++ tag)%string element.

Definition rewriteTagLinks : node -> node :=
  forEachMatch (fun _ k => isTag "a" k && hasClass "tag" k) rewriteTagLink [].

(** Lines 829-838: hard coded widths become maximal widths.  Every value
    handed to [style.width] is taken as written. *)
Definition isMedia (_ : list node) (k : node) : bool :=
  isTag "img" k || isTag "video" k
  || (hasClass "media-embed" k
      && hasChild (fun c => isTag "img" c || isTag "video" c) k).

Fixpoint isBlank (s : string) : bool :=
  match s with
  | EmptyString => true
  | String c rest => (isSpace c || (nat_of_ascii c =? 11)%nat) && isBlank rest
  end.

Definition convertWidth (element : node) : node :=
  match getAttribute "width" element with
  | Some width =>
      if String.eqb width "" then element
      else
        let element := removeAttribute "width" element in
        let element :=
          setStyle "width" (if isBlank width then "" else (width ++ "px")%string)
                   element in
        setStyle "max-width" "100%" element
  | None => element
  end.

Definition convertWidths : node -> node := forEachMatch isMedia convertWidth [].

(** Lines 841-854: the viewer of an embedded PDF gives way to a plain
    [embed].  The container is the parent of the parent of the viewer; a
    viewer whose parent is the root has none in the tree. *)
Definition isPdfEmbed (_ : list node) (k : node) : bool :=
  isTag "span" k && hasClass "internal-embed" k && hasClass "pdf-embed" k.

Definition pdfReplacement (pdf : node) : node :=
  let embed :=
    Elem "embed"
         [("src", match getAttribute "src" pdf with Some v => v | None => "" end)]
         [] None [] in
  let embed := setStyle "width" (if String.eqb (getStyle "width" pdf) "" then "100%"
                                 else getStyle "width" pdf) embed in
  let embed := setStyle "max-width" "100%" embed in
  setStyle "height" (if String.eqb (getStyle "height" pdf) "" then "800px"
                     else getStyle "height" pdf) embed.

(** The element that has a child with a child of the given identity gets
    its children from [g]. *)
Fixpoint atGrandparentOf (id : nat) (g : list lnode -> list lnode) (x : lnode)
  : lnode :=
  match x with
  | LText _ => x
  | LElem i t a s v kids =>
      if existsb (fun c => existsb (hasId id) (lkids c)) kids
      then LElem i t a s v (g kids)
      else LElem i t a s v (map (atGrandparentOf id g) kids)
  end.

Definition replacePdfEmbeds (html : node) : node :=
  let '(tree, next) := label html 0 in
  forget
    (fst
       (fold_left
          (fun '(tree, next) id =>
             match findById id tree with
             | Some pdf =>
                 let embed := fst (label (pdfReplacement (shell pdf)) next) in
                 (atGrandparentOf id
                    (fun kids =>
                       (* every element below the container is removed *)
                       filter (fun k => negb (lisElement k)) kids ++ [embed])
                    tree,
                  S next)
             | None => (tree, next)
             end)
          (lmatches isPdfEmbed [] tree) (tree, next))).

(** Lines 857-860. *)
Definition removeMakeMd : node -> node :=
  rewriteMatch (fun _ k => isTag "div" k && classStartsWith "mk-" k)
               (fun _ => []) [].

(** Lines 863-873: the front matter moves before the sizer, and what was its
    parent is removed.  [sizer.before(frontmatter)] throws (a
    HierarchyRequestError) when the sizer is below the front matter: the
    tree is as it was then, and what follows line 870 does not run.  When
    one element is the front matter and the sizer, nothing moves. *)
Definition sizerInFrontmatter (html : node) : bool :=
  let tree := fst (label html 0) in
  match lmatches (fun _ k => hasClass "frontmatter" k) [] tree,
        lmatches (fun _ k => hasClass "markdown-sizer" k) [] tree with
  | fid :: _, sid :: _ =>
      negb (Nat.eqb sid fid)
      && match findById fid tree with
         | Some frontmatter =>
             match findById sid frontmatter with
             | Some _ => true
             | None => false
             end
         | None => false
         end
  | _, _ => false
  end.

Definition moveFrontmatter (html : node) : node :=
  let tree := fst (label html 0) in
  match lmatches (fun _ k => hasClass "frontmatter" k) [] tree with
  | [] => html
  | fid :: _ =>
      if sizerInFrontmatter html then html
      else
        let frontmatterParent := parentIdOf fid tree in
        let tree :=
          match lmatches (fun _ k => hasClass "markdown-sizer" k) [] tree,
                findById fid tree with
          | sid :: _, Some frontmatter =>
              match findById sid frontmatter with
              | Some _ => tree
              | None =>
                  atParentOf sid
                    (fun before sizer after => before ++ frontmatter :: sizer :: after)
                    (removeById fid tree)
              end
          | _, _ => tree
          end in
        forget (match frontmatterParent with
                | Some pid => removeById pid tree
                | None => tree
                end)
  end.

(** Lines 876-879. *)
Definition lazyFrames : node -> node :=
  forEachMatch (fun _ k => isTag "iframe" k) (setAttribute "loading" "lazy") [].

(** Lines 882-892: a collapse indicator for every list item that holds a
    list and no [.collapse-icon] yet. *)
Definition listIndicator : node :=
  Elem "div"
       [("class", "list-collapse-indicator collapse-indicator collapse-icon")]
       [] None [arrowHTML].

Definition isCollapsable (k : node) : bool :=
  isTag "li" k && (hasDescendant (isTag "ul") k || hasDescendant (isTag "ol") k).

Fixpoint addListIndicators (n : node) : node :=
  match n with
  | Text _ => n
  | Elem t a s v kids =>
      Elem t a s v
           (map (fun item =>
                   let item' := addListIndicators item in
                   if isCollapsable item
                      && negb (hasDescendant (hasClass "collapse-icon") item)
                   then prependChild listIndicator item'
                   else item') kids)
  end.

(** Lines 896-903: the labels of a dynamic table of contents. *)
Definition isTocLink (anc : list node) (k : node) : bool :=
  isTag "a" k
  && match anc with
     | parent :: above =>
         isTag "li" parent
         && existsb (fun x => hasClass "block-language-toc" x
                              && hasClass "dynamic-toc" x) above
     | [] => false
     end.

Definition renderTocLabels : node -> node :=
  rewriteMatch isTocLink
               (fun element =>
                  [setTextContent (simpleMarkdownText host (textContent element))
                                  element]) [].

(** How a run of [postProcessHTML] ends, with the tree it leaves: at its
    last line, at line 779 when no view container is found, or at line 870
    when [sizer.before] throws. *)
Inductive Processed : Type :=
| Done (html : node)
| NoContainer
| Stopped (html : node).

Definition runPostProcess (options : MarkdownRendererOptions) (html : node)
  : Processed :=
  match markDocumentRoot html with
  | None => NoContainer
  | Some html =>
      let html := if createDocumentContainer options then html
                  else removeDecorations html in
      let html := fixParagraphs html in
      let html := serializeInputs html in
      let html := serializeTextareas html in
      let html := rewriteTagLinks html in
      let html := convertWidths html in
      let html := replacePdfEmbeds html in
      let html := removeMakeMd html in
      if sizerInFrontmatter html then Stopped html
      else
        let html := moveFrontmatter html in
        let html := lazyFrames html in
        let html := addListIndicators html in
        Done (renderTocLabels html)
  end.

(** The tree after [postProcessHTML]; [None] when no view container is found
    (the tree is then left as it is). *)
Definition postProcessTree (options : MarkdownRendererOptions) (html : node)
  : option node :=
  match runPostProcess options html with
  | Done html' => Some html'
  | Stopped html' => Some html'
  | NoContainer => None
  end.

(** [postProcessHTML(html, options)]: the tree afterwards, and the world. *)
Definition postProcessHTML (html : node) (options : MarkdownRendererOptions)
           (w : World) : node * World :=
  match postProcessTree options html with
  | Some html' => (html', w)
  | None =>
      (html, ExportLog_error host "Failed to find view container in rendered HTML!"
                             "" false w)
  end.

(** [await postProcessHTML(html, options)]: the call is rejected when
    [sizer.before] throws. *)
Definition awaitPostProcessHTML (html : node) (options : MarkdownRendererOptions)
  : M node :=
  fun w =>
    match runPostProcess options html with
    | Stopped _ =>
        (Thrown "Failed to execute 'before' on 'Element': The new child element contains the parent.",
         w)
    | _ => let '(html', w') := postProcessHTML html options w in (Returned html', w')
    end.

End PostProcessor.

(** ** The table of the debug information: [humanReadableJSON]
    (lines 1210-1227)

    Strings are taken as sequences of code units below 256. *)

(** The white space that [trim] removes. *)
Definition isWhiteSpace (c : ascii) : bool :=
  let n := nat_of_ascii c in
  (n =? 9)%nat || (n =? 10)%nat || (n =? 11)%nat || (n =? 12)%nat
  || (n =? 13)%nat || (n =? 32)%nat || (n =? 160)%nat.

Fixpoint trimStart (s : string) : string :=
  match s with
  | EmptyString => EmptyString
  | String c rest => if isWhiteSpace c then trimStart rest else s
  end.

Fixpoint trimEnd (s : string) : string :=
  match s with
  | EmptyString => EmptyString
  | String c rest =>
      match trimEnd rest with
      | EmptyString => if isWhiteSpace c then EmptyString else String c EmptyString
      | r => String c r
      end
  end.

Definition trim (s : string) : string := trimEnd (trimStart s).

(** [s.split(sep)] for a separator of one character: never empty. *)
Fixpoint split (sep : ascii) (s : string) : list string :=
  match s with
  | EmptyString => [EmptyString]
  | String c rest =>
      if Ascii.eqb c sep then EmptyString :: split sep rest
      else match split sep rest with
           | piece :: pieces => String c piece :: pieces
           | [] => [String c EmptyString]
           end
  end.

(** [l.join(sep)]. *)
Definition join (sep : string) (l : list string) : string := String.concat sep l.

(** [s.contains(c)] for one character. *)
Fixpoint includesChar (c : ascii) (s : string) : bool :=
  match s with
  | EmptyString => false
  | String x rest => Ascii.eqb x c || includesChar c rest
  end.

(** [s.replaceAll(re, "")] for a class of characters. *)
Fixpoint removeChars (drop : ascii -> bool) (s : string) : string :=
  match s with
  | EmptyString => EmptyString
  | String c rest =>
      if drop c then removeChars drop rest else String c (removeChars drop rest)
  end.

Fixpoint fill (n : nat) (pad : ascii) : string :=
  match n with
  | O => EmptyString
  | S n' => String pad (fill n' pad)
  end.

(** [s.padEnd(targetLength, pad)] for a pad of one character. *)
Definition padEnd (s : string) (targetLength : nat) (pad : ascii) : string :=
  (s ++ fill (targetLength - String.length s) pad)%string.

(** The characters the regular expression of line 1212 matches: the double
    quote, the braces and the comma. *)
Definition jsonPunctuation (c : ascii) : bool :=
  (nat_of_ascii c =? 34)%nat || Ascii.eqb c "{" || Ascii.eqb c "}"
  || Ascii.eqb c ",".

(** The lines of the table: those with a colon. *)
Definition tableLines (json : string) : list string :=
  let string :=
    join (LF ++ TAB)
         (map trim (split (ascii_of_nat 10) (removeChars jsonPunctuation json))) in
  filter (includesChar ":") (split (ascii_of_nat 10) string).

Definition propertyName (line : string) : string :=
  (hd "" (split ":" line) ++ " ")%string.

Definition propertyValue (line : string) : string :=
  join ":" (tl (split ":" line)).

(** The loop of lines 1220-1224, from index [i] on. *)
Fixpoint tableRows (i maxLength : nat) (names values : list string) : string :=
  match names, values with
  | name :: names', value :: values' =>
      (padEnd name maxLength (if Nat.even i then "-" else " ")
         ++ value ++ LF ++ tableRows (S i) maxLength names' values')%string
  | _, _ => EmptyString
  end.

(** [humanReadableJSON(object)], given [JSON.stringify(object, null, 2)]. *)
Definition humanReadableJSON (json : string) : string :=
  let lines := tableLines json in
  let names := map propertyName lines in
  let values := map propertyValue lines in
  let maxLength := (list_max (map String.length names) + 3)%nat in
  tableRows 0 maxLength names values.

(** ** The public interface: [MarkdownRendererAPI] (lines 12-195)

    The functions below take the options complete, as
    [Object.assign(new MarkdownRendererOptions(), options)] leaves them. *)

Module MarkdownRendererAPI.

Definition convertableExtensions : list string :=
  ["md"; "canvas"; "drawing"; "excalidraw"] ++ viewableMediaExtensions.

(** [isConvertable] (lines 173-177). *)
Definition isConvertable (extention : string) : bool :=
  let extention := if String.prefix "." extention then dropFirst extention
                   else extention in
  contains convertableExtensions extention.

Section PublicInterface.
Variable host : Host.

Local Notation "x <- m ;; k" := (bind m (fun x => k))
  (at level 61, m at next level, right associativity).

(** What every public renderer does to the element the internal renderer
    returned (lines 119-120, 131-132, 143-144). *)
Definition finish (options : MarkdownRendererOptions) (html : node) : M node :=
  html <- (if postProcess options then awaitPostProcessHTML host html options
           else ret html) ;;
  ret (if makeHeadersTrees options then makeHeadingsTrees html else html).

(** [renderMarkdownToElement] (lines 126-134). *)
Definition renderMarkdownToElement (markdown : string)
           (options : MarkdownRendererOptions) : M (option node) :=
  r <- renderMarkdown host markdown options ;;
  match fst r with
  | None => ret None
  | Some html =>
      html <- finish options html ;;
      ret (Some html)
  end.

(** [renderFile] (lines 136-147): [{contentEl, viewType}], or [None] for
    [undefined]. *)
Definition renderFile (file : TFile) (options : MarkdownRendererOptions)
  : M (option (node * string)) :=
  r <- renderFile host file options ;;
  match fst r with
  | None => ret None
  | Some (contentEl, viewType) =>
      contentEl <- finish options contentEl ;;
      ret (Some (contentEl, viewType))
  end.

End PublicInterface.

End MarkdownRendererAPI.

(** ** Lines of the cumulative log *)

(** What [ExportLog.log], [warning] and [error] append to [fullLog]. *)
Definition infoLine (message : Message) (title : string) : string :=
  logToString message ("[INFO] " ++ title).

Definition warningLine (message : Message) (title : string) : string :=
  logToString message ("[WARNING] " ++ title).

Definition errorLine (message : Message) (title : string) : string :=
  logToString message ("[ERROR] " ++ title).

Definition flatten (lines : list string) : string :=
  fold_right String.append "" lines.

Definition fatalLine (message : Message) (title : string) : string :=
  logToString message ("[FATAL ERROR] " ++ title).

(** The line that an entry of the queue of [Path] leaves in the log. *)
Definition pathLine (entry : PathLog) : string :=
  match plType entry with
  | PInfo => infoLine (plMessage entry) (plTitle entry)
  | PWarn => warningLine (plMessage entry) (plTitle entry)
  | PError => errorLine (plMessage entry) (plTitle entry)
  | PFatal => fatalLine (plMessage entry) (plTitle entry)
  end.

(** [failRender]'s title for a file. *)
Definition failureTitle (file : TFile) : string :=
  ("Rendering " ++ path file ++ " failed: ")%string.

Definition transclusionWarning (file : TFile) : string :=
  warningLine ("Transclusions were not rendered correctly in file "
                 ++ name file ++ "!")%string "".

(** The delays of a section against the 2000 ms budget of the waits. *)
Definition timely (sec : MdSection) : Prop :=
  exists d1 d2, sRenderDelay sec = Some d1 /\ d1 <= 2000
                /\ sComputeDelay sec = Some d2 /\ d2 <= 2000.



(** ** What a document that renders in time comes to *)


Section SectionOutcome.
Variable host : Host.
Variable file : TFile.









End SectionOutcome.



(** The document [renderMarkdownView] builds from the elements of the
    sections. *)
Definition documentFrom (preview : Preview) (options : MarkdownRendererOptions)
           (els : list node) : node :=
  let sizer :=
    Elem "div" [("class", "markdown-sizer")] [] None
         ((if createPusherElement options then [pusherElement] else []) ++ els) in
  Elem "div" [("class", ("obsidian-document " ++ pClassName preview)%string)]
       [] None
       match extractFirst (hasClass "obsidian-banner-wrapper") sizer with
       | Some (banner, sizer') => [banner; sizer']
       | None => [sizer]
       end.

(** ** Runs of the session *)

(** What can happen to a session between two calls of [beginBatch]: the
    synchronous operations of the module, a millisecond of host time, a
    microtask checkpoint. *)
Inductive SessionOp : Type :=
| OpCheckCancelled
| OpEndBatch
| OpFailRender (file : option TFile) (message : Message)
| OpLog (message : Message) (title : string)
| OpWarning (message : Message) (title : string)
| OpError (message : Message) (title : string) (fatal : bool)
| OpReportProgress (fraction : Z) (message subMessage color : string)
| OpTick
| OpMicrotasks.

Definition runOp (host : Host) (op : SessionOp) (w : World) : World :=
  match op with
  | OpCheckCancelled => snd (checkCancelled host w)
  | OpEndBatch => endBatch host w
  | OpFailRender file message => failRender host file message w
  | OpLog m t => ExportLog_log host m t w
  | OpWarning m t => ExportLog_warning host m t w
  | OpError m t f => ExportLog_error host m t f w
  | OpReportProgress f m s c => _reportProgress host f m s c w
  | OpTick => tick host w
  | OpMicrotasks => microtasks w
  end.

Definition runOps (host : Host) (ops : list SessionOp) (w : World) : World :=
  fold_left (fun w op => runOp host op w) ops w.

(** The number of times a render surface was released. *)
Definition detachCount (es : list Event) : nat :=
  List.length (filter (fun e => match e with Detached _ => true | _ => false end) es).

(** ** Sample documents and hosts *)

(** What the sample hosts read back from markup: the same tree, without
    the live values of the form controls, without empty text nodes, and with
    the text nodes that follow one another made one. *)
Fixpoint reparse (n : node) : list node :=
  match n with
  | Text s => if String.eqb s "" then [] else [Text s]
  | Elem t a s _ kids => [Elem t a s None (mergeText (flat_map reparse kids))]
  end.

Definition noteFile : TFile := mkFile "note.md" "note.md" "md".

(** A section that is rendered 5 ms after [render()] and measured 3 ms after
    [measureSection], holding one paragraph. *)
Definition plainSection : MdSection :=
  mkSection (Some 5) (Some 3)
            (fun _ => Elem "div" [] [] None [Elem "p" [] [] None [Text "hello"]]).

(** A section whose [rendered] flag never turns true. *)
Definition stuckSection : MdSection :=
  mkSection None (Some 3) (fun _ => Elem "div" [] [] None []).

(** A section with a transclusion that is never filled in. *)
Definition hollowSection : MdSection :=
  mkSection (Some 5) (Some 3)
            (fun _ => Elem "div" [] [] None
                           [Elem "div" [("class", "markdown-sizer")] [] None []]).





Definition previewOf (sections : list MdSection) : Preview :=
  mkPreview noteFile "markdown-preview-view" sections None.

Definition markdownViewOf (sections : list MdSection) : View :=
  mkView "markdown" noteFile (previewOf sections) (Text "") (Text "") [] []
         (Text "").

(** A host with every setting at "log everything", whose tabs attach after
    [attach] milliseconds (never, for [None]), whose [openFile] throws
    [openError], and which shows every file as the markdown document made of
    [sections]. *)
Definition sampleHost (attach : option Z) (openError : option Message)
           (sections : list MdSection) : Host :=
  mkHost (fun _ => attach) (fun _ => true) (fun _ => None) true "all"
         (fun _ => openError) (fun _ => markdownViewOf sections)
         (fun _ => "") (fun l => l) (fun p => [Text ("include " ++ p)%string])
         (fun _ => None) (fun _ => previewOf sections)
         (fun href => ("app://obsidian.md/index.html" ++ href)%string)
         (fun _ => "") (fun _ => "<canvas></canvas>")
         (fun kids => mergeText (flat_map reparse kids)).

Definition defaultOptions : MarkdownRendererOptions :=
  mkOptions None true false true false true false [].

(** A host whose tabs attach after 3 ms and whose files open. *)
Definition readyHost : Host := sampleHost (Some 3) None [plainSection].

(** A host whose tabs never attach. *)
Definition detachedHost : Host := sampleHost None None [plainSection].

(** A host on which [openFile] throws. *)
Definition brokenHost : Host :=
  sampleHost (Some 3) (Some (Obj "{}" "Error: ENOENT: no such file or directory"))
             [plainSection].

(** A host whose notes hold a section that is never rendered. *)
Definition stuckHost : Host := sampleHost (Some 3) None [stuckSection].

(** The same host with another log level, without a window behind its tabs,
    or with windows that close at a given time. *)
Definition withLogLevel (level : string) (h : Host) : Host :=
  mkHost (attachDelay h) (hasWindow h) (closeAt h) (settingsLoaded h) level
         (openFileError h) (viewOf h) (toDataURL h) (getAllFilesFromPaths h)
         (includeGenerate h) (setViewDataError h) (previewOfMarkdown h)
         (resolveHref h) (simpleMarkdownText h) (outerHTML h) (reparsed h).

Definition withoutWindow (h : Host) : Host :=
  mkHost (attachDelay h) (fun _ => false) (closeAt h) (settingsLoaded h)
         (logLevel h) (openFileError h) (viewOf h) (toDataURL h)
         (getAllFilesFromPaths h) (includeGenerate h) (setViewDataError h)
         (previewOfMarkdown h) (resolveHref h) (simpleMarkdownText h)
         (outerHTML h) (reparsed h).

Definition closingAt (t : Z) (h : Host) : Host :=
  mkHost (attachDelay h) (hasWindow h) (fun _ => Some t) (settingsLoaded h)
         (logLevel h) (openFileError h) (viewOf h) (toDataURL h)
         (getAllFilesFromPaths h) (includeGenerate h) (setViewDataError h)
         (previewOfMarkdown h) (resolveHref h) (simpleMarkdownText h)
         (outerHTML h) (reparsed h).

(** A host that shows nothing of the log. *)
Definition silentHost : Host := withLogLevel "none" readyHost.

(** A host on which [setViewData] throws. *)
Definition lockedHost : Host :=
  mkHost (attachDelay readyHost) (hasWindow readyHost) (closeAt readyHost)
         (settingsLoaded readyHost) (logLevel readyHost)
         (openFileError readyHost) (viewOf readyHost) (toDataURL readyHost)
         (getAllFilesFromPaths readyHost) (includeGenerate readyHost)
         (fun _ => Some (Obj "{}" "Error: the view cannot be written"))
         (previewOfMarkdown readyHost) (resolveHref readyHost)
         (simpleMarkdownText readyHost) (outerHTML readyHost)
         (reparsed readyHost).

(** The session once [beginBatch] has succeeded on [readyHost]. *)
Definition activeWorld : World :=
  snd (beginBatch readyHost defaultOptions (initialWorld 0)).

(** The same session after a non-fatal error was logged. *)
Definition erredWorld : World :=
  ExportLog_error readyHost "link not found" "Broken link" false activeWorld.

(** The same session after a fatal error was logged and the rest of
    [_reportError] has run. *)
Definition failedWorld : World :=
  microtasks (ExportLog_error readyHost "disk failure" "Vault" true activeWorld).

(** A canvas node that embeds the note [nested.md]. *)
Definition nestedFile : TFile := mkFile "nested.md" "nested.md" "md".

Definition nestedPreview : Preview :=
  mkPreview nestedFile "markdown-preview-view" [plainSection] None.

Definition embedNodeEl : node :=
  Elem "div" [("class", "canvas-node")] [] None
       [Elem "div" [("class", "canvas-node-container")] [] None
             [Elem "div" [("class", "canvas-node-content markdown-embed")] [] None
                   [Elem "div" [("class", "markdown-embed-content node-insert-event")]
                         [] None [Text "stale"]]]].

Definition embedNode : CanvasNode :=
  mkCanvasNode (Some nestedFile) embedNodeEl (Some nestedPreview) None [0; 0]%nat.

(** A predicate over a world that is a bare clock: true from time [t] on. *)
Definition trueFrom (t : Z) : @Condition Z :=
  fun w => (if t <=? w then Truthy else Falsy, w).

(** A predicate that is never true. *)
Definition neverTrue : @Condition Z := fun w => (Falsy, w).

(** The flat sequence [h1, p, h2, p, h3, p, h2, p]: every heading and every
    paragraph in a [div] of its own, as the sections of a rendered note. *)
Definition block (n : node) : node := Elem "div" [] [] None [n].

Definition headingBlock (tag text : string) : node :=
  block (Elem tag [] [] None [Text text]).

Definition paragraphBlock (text : string) : node :=
  block (Elem "p" [] [] None [Text text]).

Definition documentOf (sections : list node) : node :=
  Elem "div" [("class", "obsidian-document")] [] None
       [Elem "div" [("class", "markdown-sizer")] [] None sections].

Definition flatDocument : node :=
  documentOf
    [headingBlock "h1" "A"; paragraphBlock "a";
     headingBlock "h2" "B"; paragraphBlock "b";
     headingBlock "h3" "C"; paragraphBlock "c";
     headingBlock "h2" "D"; paragraphBlock "d"].

(** A heading wrapper as the builder leaves it: the heading (with its
    collapse indicator unless it is an [h1]) and the children container. *)
Definition headingTree (tag text : string) (children : list node) : node :=
  Elem "div" [("class", "heading-wrapper")] [] None
       [Elem tag [("class", "heading")] [] None
             ((if String.eqb tag "h1" then [] else [collapseIndicator])
                ++ [Text text]);
        Elem "div" [("class", "heading-children")] [] None children].

Definition nestedDocument : node :=
  documentOf
    [headingTree "h1" "A"
       [paragraphBlock "a";
        headingTree "h2" "B"
          [paragraphBlock "b";
           headingTree "h3" "C" [paragraphBlock "c"]];
        headingTree "h2" "D" [paragraphBlock "d"]]].

(** The footer of a note and its footnotes, as siblings of the sections. *)
Definition footerBlock : node :=
  Elem "div" [("class", "mod-footer")] [] None [Text "links"].

Definition footnotesBlock : node :=
  Elem "div" [] [] None
       [Elem "section" [("class", "footnotes")] [] None [Text "1. note"]].

Definition footerDocument : node :=
  documentOf [headingBlock "h2" "A"; paragraphBlock "a"; footerBlock;
              footnotesBlock].

(** What the builder makes of it: the footer and the footnotes are below
    the heading. *)
Definition footerNested : node :=
  documentOf [headingTree "h2" "A" [paragraphBlock "a"; footerBlock;
                                    footnotesBlock]].

(** A heading with its number, and wrappers of headings that carry the
    marks the walk looks for. *)
Definition numbered (n : node) : lnode := fst (label n 0).

Definition footerHeadingBlock : node :=
  block (Elem "h3" [("class", "mod-footer")] [] None [Text "F"]).

Definition footnotesHeadingBlock : node :=
  block (Elem "h3" [] [] None
              [Elem "span" [] [] None
                    [Elem "section" [("class", "footnotes")] [] None []];
               Text "F"]).

(** The tag [h1] ... [h6] of a heading level. *)
Definition headingTag (level : nat) : string :=
  String "h" (String (ascii_of_nat (48 + level)) "").

(** A rendered note with a text input somebody typed into, a tag link and
    an image of a set width. *)
Definition exportedNote : node :=
  Elem "div" [("class", "markdown-preview-view")] [] None
       [Elem "input" [("type", "text")] [] (Some "draft") [];
        Elem "a" [("class", "tag"); ("href", "#todo")] [] None [Text "#todo"];
        Elem "img" [("src", "a.png"); ("width", "300")] [] None []].

(** The note after one run of the post-processor, *)
Definition processedOnce : node :=
  Elem "div" [("class", "markdown-preview-view obsidian-document")] [] None
       [Elem "input" [("type", "text"); ("value", "draft")] [] (Some "") [];
        Elem "a" [("class", "tag"); ("href", "?query=tag:todo");
                  ("data-href", "#todo")] [] None [Text "#todo"];
        Elem "img" [("src", "a.png")]
             [("width", "300px"); ("max-width", "100%")] None []].

(** and after a second run on that. *)
Definition processedTwice : node :=
  Elem "div" [("class", "markdown-preview-view obsidian-document")] [] None
       [Elem "input" [("type", "text"); ("value", "")] [] (Some "") [];
        Elem "a" [("class", "tag");
                  ("href", "?query=tag:pp://obsidian.md/index.html?query=tag:todo");
                  ("data-href", "?query=tag:todo")] [] None [Text "#todo"];
        Elem "img" [("src", "a.png")]
             [("width", "300px"); ("max-width", "100%")] None []].

(* ===================================================================== *)
(** * Part II. Properties *)
(* ===================================================================== *)

(** ** The polling waiter *)

Section WaitUntilFacts.
Context {W : Type}.
Variable tick : W -> W.
Variable condition : @Condition W.
Variables timeout interval : Z.

Lemma intervalLoop_true :
  forall k fuel timer n w,
    (forall j, (j < k)%nat ->
       fst (nthPoll tick condition interval (S j) w) = Falsy) ->
    fst (nthPoll tick condition interval (S k) w) = Truthy ->
    timer + Z.of_nat k * interval < timeout ->
    0 <= interval ->
    (k < fuel)%nat ->
    intervalLoop tick fuel condition timeout interval timer n
                 (snd (nthPoll tick condition interval 0 w))
    = (mkWaitReport (Resolved true) true (S (n + k))
                    (timer + Z.of_nat k * interval),
       snd (nthPoll tick condition interval (S k) w)).
Proof.
  intros k fuel timer n w Hfalse Htrue Hlt Hint Hfuel.
  (* generalise over the poll already reached *)
  assert (G : forall m fuel timer n,
    (m <= k)%nat ->
    timer + Z.of_nat m * interval < timeout ->
    (m < fuel)%nat ->
    intervalLoop tick fuel condition timeout interval timer n
                 (snd (nthPoll tick condition interval (k - m) w))
    = (mkWaitReport (Resolved true) true (S (n + m))
                    (timer + Z.of_nat m * interval),
       snd (nthPoll tick condition interval (S k) w))).
  { induction m as [|m IH]; intros fuel0 timer0 n0 Hm Ht Hf.
    - destruct fuel0 as [|f]; [lia|]. cbn [intervalLoop].
      replace (k - 0)%nat with k by lia.
      change (condition (elapse tick interval
                (snd (nthPoll tick condition interval k w))))
        with (nthPoll tick condition interval (S k) w).
      destruct (nthPoll tick condition interval (S k) w) as [v w2] eqn:E.
      cbn in Htrue. subst v. cbn.
      f_equal. f_equal; lia.
    - destruct fuel0 as [|f]; [lia|]. cbn [intervalLoop].
      change (condition (elapse tick interval
                (snd (nthPoll tick condition interval (k - S m) w))))
        with (nthPoll tick condition interval (S (k - S m)) w).
      assert (Hf' : fst (nthPoll tick condition interval (S (k - S m)) w) = Falsy)
        by (apply Hfalse; lia).
      destruct (nthPoll tick condition interval (S (k - S m)) w) as [v w2] eqn:E.
      cbn in Hf'. subst v.
      assert (Hto : (timeout <=? timer0 + interval) = false).
      { apply Z.leb_gt. nia. }
      rewrite Hto.
      replace w2 with (snd (nthPoll tick condition interval (k - m) w)).
      2:{ replace (k - m)%nat with (S (k - S m)) by lia. rewrite E. reflexivity. }
      rewrite IH by (try lia; rewrite Nat2Z.inj_succ in Ht; lia).
      rewrite Nat2Z.inj_succ.
      f_equal. f_equal; lia. }
  specialize (G k fuel timer n (le_n k) Hlt Hfuel).
  replace (k - k)%nat with 0%nat in G by lia. exact G.
Qed.

Lemma intervalLoop_false :
  forall m fuel timer n w0,
    (forall j, (j < m)%nat ->
       fst (nthPoll tick condition interval j (elapse tick interval w0)) = Falsy) ->
    (forall j, (0 < j < m)%nat -> timer + Z.of_nat j * interval < timeout) ->
    timeout <= timer + Z.of_nat m * interval ->
    (0 < m)%nat ->
    (m <= fuel)%nat ->
    intervalLoop tick fuel condition timeout interval timer n w0
    = (mkWaitReport (Resolved false) true (n + m)
                    (timer + Z.of_nat m * interval),
       snd (nthPoll tick condition interval (m - 1)
                    (elapse tick interval w0))).
Proof.
  induction m as [|m IH]; intros fuel timer n w0 Hfalse Hshort Hreach Hpos Hfuel;
    [lia|].
  destruct fuel as [|f]; [lia|]. cbn [intervalLoop].
  pose proof (Hfalse 0%nat ltac:(lia)) as H0. cbn [nthPoll] in H0.
  destruct (condition (elapse tick interval w0)) as [v w2] eqn:E.
  cbn in H0. subst v.
  destruct m as [|m'].
  - (* the first callback already reaches the timeout *)
    assert (Hto : (timeout <=? timer + interval) = true)
      by (apply Z.leb_le; lia).
    rewrite Hto. cbn [nthPoll Nat.sub]. rewrite E. cbn [snd].
    f_equal. f_equal; lia.
  - assert (Hto : (timeout <=? timer + interval) = false).
    { apply Z.leb_gt. specialize (Hshort 1%nat ltac:(lia)). lia. }
    rewrite Hto.
    assert (Shift : forall j,
      nthPoll tick condition interval j (elapse tick interval w2)
      = nthPoll tick condition interval (S j) (elapse tick interval w0)).
    { induction j as [|j IHj]; cbn [nthPoll].
      - rewrite E. reflexivity.
      - rewrite IHj. reflexivity. }
    rewrite (IH f (timer + interval) (S n) w2).
    + replace (S m' - 1)%nat with m' by lia.
      replace (S (S m') - 1)%nat with (S m') by lia.
      rewrite Shift. rewrite !Nat2Z.inj_succ.
      f_equal. f_equal; lia.
    + intros j Hj. rewrite Shift. apply Hfalse. lia.
    + intros j Hj. specialize (Hshort (S j) ltac:(lia)).
      rewrite Nat2Z.inj_succ in Hshort. lia.
    + rewrite !Nat2Z.inj_succ in Hreach. rewrite Nat2Z.inj_succ. lia.
    + lia.
    + lia.
Qed.

(** A predicate that never throws never rejects the wait. *)
Lemma intervalLoop_never_rejects :
  (forall w e, fst (condition w) <> Throws e) ->
  forall fuel timer n w e,
    outcome (fst (intervalLoop tick fuel condition timeout interval timer n w))
    <> Rejected e.
Proof.
  intros Hno. induction fuel as [|f IH]; intros timer n w e; cbn [intervalLoop].
  - cbn. discriminate.
  - destruct (condition (elapse tick interval w)) as [v w2] eqn:E.
    destruct v; cbn.
    + discriminate.
    + destruct (timeout <=? timer + interval); cbn; [discriminate|apply IH].
    + apply IH.
Qed.

(** With a positive interval and a predicate that never throws, the wait
    settles once the fuel covers the remaining budget. *)
Lemma intervalLoop_settles :
  (forall w e, fst (condition w) <> Throws e) ->
  0 < interval ->
  forall fuel timer n w,
    (0 < fuel)%nat ->
    timeout - timer <= Z.of_nat fuel * interval ->
    exists b,
      outcome (fst (intervalLoop tick fuel condition timeout interval timer n w))
      = Resolved b.
Proof.
  intros Hno Hint. induction fuel as [|f IH]; intros timer n w Hpos Hbudget;
    [lia|].
  cbn [intervalLoop].
  destruct (condition (elapse tick interval w)) as [v w2] eqn:E.
  destruct v as [| |e].
  - exists true. reflexivity.
  - destruct (timeout <=? timer + interval) eqn:Hto.
    + exists false. reflexivity.
    + apply Z.leb_gt in Hto. rewrite Nat2Z.inj_succ in Hbudget.
      apply IH; nia.
  - exfalso. apply (Hno (elapse tick interval w) e). rewrite E. reflexivity.
Qed.

Lemma giveUpAfter_spec :
  0 < interval ->
  let m := giveUpAfter timeout interval in
  (0 < m)%nat /\
  timeout <= Z.of_nat m * interval /\
  (forall j, (0 < j < m)%nat -> Z.of_nat j * interval < timeout).
Proof.
  intros Hint m. unfold m, giveUpAfter.
  set (q := (timeout + interval - 1) / interval).
  assert (Hq1 : interval * q <= timeout + interval - 1)
    by (apply Z.mul_div_le; lia).
  assert (Hq2 : timeout + interval - 1 < interval * (q + 1)).
  { pose proof (Z.mod_pos_bound (timeout + interval - 1) interval Hint).
    pose proof (Z.div_mod (timeout + interval - 1) interval ltac:(lia)).
    fold q in H0. lia. }
  rewrite Z2Nat.id by lia.
  repeat split.
  - lia.
  - nia.
  - intros j Hj. assert (Z.of_nat j < Z.max 1 q) by lia.
    assert (Z.of_nat j <= q - 1) by lia. nia.
Qed.

End WaitUntilFacts.

(** A wait whose predicate only reads a clock that every tick advances by
    one millisecond, polled every millisecond. *)
Section ClockedWait.
Context {W : Type}.
Variable tick : W -> W.
Variable clock : W -> Z.
Variable Inv : W -> Prop.
Variable P : Z -> bool.
Variable condition : @Condition W.
Variable timeout : Z.

Hypothesis tick_inv : forall w, Inv w -> Inv (tick w).
Hypothesis tick_clock : forall w, Inv w -> clock (tick w) = clock w + 1.
Hypothesis condition_reads :
  forall w, Inv w -> condition w = ((if P (clock w) then Truthy else Falsy), w).

Lemma iter_tick_inv :
  forall m w, Inv w ->
    Inv (Nat.iter m tick w) /\ clock (Nat.iter m tick w) = clock w + Z.of_nat m.
Proof.
  induction m as [|m IH]; intros w H.
  - cbn. split; [exact H|lia].
  - destruct (IH w H) as (I & C).
    change (Nat.iter (S m) tick w) with (tick (Nat.iter m tick w)). split.
    + apply tick_inv, I.
    + rewrite tick_clock by exact I. rewrite C. lia.
Qed.

Lemma iter_tick_shift :
  forall m w, Nat.iter m tick (tick w) = Nat.iter (S m) tick w.
Proof.
  induction m as [|m IH]; intros w; [reflexivity|].
  change (Nat.iter (S m) tick (tick w)) with (tick (Nat.iter m tick (tick w))).
  rewrite IH. reflexivity.
Qed.

Lemma intervalLoop_clocked :
  forall fuel timer n w,
    Inv w ->
    timeout - timer <= Z.of_nat fuel ->
    (0 < fuel)%nat ->
    exists (m : nat) (b : bool) (r : WaitReport),
      intervalLoop tick fuel condition timeout 1 timer n w
      = (r, Nat.iter m tick w)
      /\ outcome r = Resolved b
      /\ (0 < m)%nat /\ Z.of_nat m <= Z.max 1 (timeout - timer)
      /\ (b = true ->
          P (clock w + Z.of_nat m) = true)
      /\ (b = false ->
          Z.of_nat m = Z.max 1 (timeout - timer)
          /\ forall j, 1 <= j <= Z.of_nat m -> P (clock w + j) = false).
Proof.
  induction fuel as [|f IH]; intros timer n w H Hfuel Hpos; [lia|].
  cbn [intervalLoop].
  change (elapse tick 1 w) with (tick w).
  pose proof (tick_inv w H) as I1. pose proof (tick_clock w H) as C1.
  rewrite (condition_reads (tick w) I1).
  destruct (P (clock (tick w))) eqn:E; rewrite C1 in E.
  - exists 1%nat, true. eexists. split; [reflexivity|].
    split; [reflexivity|]. split; [lia|]. split; [lia|]. split.
    + intros _. replace (clock w + Z.of_nat 1) with (clock w + 1) by lia.
      exact E.
    + discriminate.
  - destruct (timeout <=? timer + 1) eqn:T.
    + apply Z.leb_le in T.
      exists 1%nat, false. eexists. split; [reflexivity|].
      split; [reflexivity|]. split; [lia|]. split; [lia|].
      split; [discriminate|].
      intros _. split; [lia|].
      intros j Hj. replace j with 1 by lia. exact E.
    + apply Z.leb_gt in T.
      destruct (IH (timer + 1) (S n) (tick w) I1)
        as (m & b & r & R & O & M & Mb & Ht & Hf); [lia|lia|].
      exists (S m), b, r. rewrite R, iter_tick_shift.
      split; [reflexivity|]. split; [exact O|]. split; [lia|].
      split; [lia|]. split.
      * intros B. specialize (Ht B). rewrite C1 in Ht.
        replace (clock w + Z.of_nat (S m)) with (clock w + 1 + Z.of_nat m) by lia.
        exact Ht.
      * intros B. destruct (Hf B) as (Hm & Hall). split; [lia|].
        intros j Hj. destruct (Z.eq_dec j 1) as [->|Hne].
        -- exact E.
        -- replace (clock w + j) with (clock (tick w) + (j - 1)) by lia.
           apply Hall. lia.
Qed.

Lemma waitUntil_clocked :
  forall w,
    Inv w ->
    1 <= timeout ->
    exists (m : nat) (b : bool) (r : WaitReport),
      waitUntil tick (giveUpAfter timeout 1) condition timeout 1 w
      = (r, Nat.iter m tick w)
      /\ outcome r = Resolved b
      /\ Z.of_nat m <= timeout
      /\ (b = true -> P (clock w + Z.of_nat m) = true)
      /\ (b = false ->
          Z.of_nat m = timeout
          /\ forall j, 0 <= j <= timeout -> P (clock w + j) = false).
Proof.
  intros w H Hto. unfold waitUntil. rewrite (condition_reads w H).
  destruct (P (clock w)) eqn:E.
  - exists 0%nat, true. eexists. split; [reflexivity|].
    split; [reflexivity|]. split; [lia|]. split; [|discriminate].
    intros _. rewrite <- E. f_equal. lia.
  - assert (G : Z.of_nat (giveUpAfter timeout 1) = timeout).
    { unfold giveUpAfter. rewrite Z.div_1_r. rewrite Z2Nat.id by lia. lia. }
    destruct (intervalLoop_clocked (giveUpAfter timeout 1) 0 0%nat w H)
      as (m & b & r & R & O & M & Mb & Ht & Hf); [lia|lia|].
    exists m, b, r. split; [exact R|]. split; [exact O|]. split; [lia|].
    split; [exact Ht|].
    intros B. destruct (Hf B) as (Hm & Hall). split; [lia|].
    intros j Hj. destruct (Z.eq_dec j 0) as [->|Hne].
    + rewrite Z.add_0_r. exact E.
    + apply Hall. lia.
Qed.

End ClockedWait.

(** C5. [waitUntil(condition, timeout, interval)]:
    (1) when the predicate is true at call time the promise resolves [true]
        at once and no interval timer is armed;
    (2) when the predicate first turns true at the [k]-th callback, before the
        accumulated [timer] has reached [timeout], the promise resolves
        [true] at that callback;
    (3) when the predicate never turns true the promise resolves [false] at
        the first callback whose accumulated [timer] reaches [timeout]: the
        accumulated time is at least [timeout], and one interval earlier it
        was still short of it (or this is the very first callback);
    (4) when the predicate never throws the promise is never rejected, and
        with a positive interval it always settles. *)
Theorem waitUntil_contract :
  forall (W : Type) (tick : W -> W) (condition : @Condition W)
         (timeout interval : Z) (w : W),
    (* 1 *)
    (fst (condition w) = Truthy ->
     forall fuel,
       waitUntil tick fuel condition timeout interval w
       = (mkWaitReport (Resolved true) false O 0, snd (condition w)))
    /\ (* 2 *)
    (forall k,
       0 <= interval ->
       (forall j, (j <= k)%nat -> fst (nthPoll tick condition interval j w) = Falsy) ->
       fst (nthPoll tick condition interval (S k) w) = Truthy ->
       Z.of_nat k * interval < timeout ->
       forall fuel, (k < fuel)%nat ->
         waitUntil tick fuel condition timeout interval w
         = (mkWaitReport (Resolved true) true (S k) (Z.of_nat k * interval),
            snd (nthPoll tick condition interval (S k) w)))
    /\ (* 3 *)
    (0 < interval ->
     let m := giveUpAfter timeout interval in
     (forall j, (j <= m)%nat -> fst (nthPoll tick condition interval j w) = Falsy) ->
     forall fuel, (m <= fuel)%nat ->
       waitUntil tick fuel condition timeout interval w
       = (mkWaitReport (Resolved false) true m (Z.of_nat m * interval),
          snd (nthPoll tick condition interval m w))
       /\ timeout <= Z.of_nat m * interval
       /\ (Z.of_nat m * interval - interval < timeout \/ m = 1%nat))
    /\ (* 4 *)
    ((forall w' e, fst (condition w') <> Throws e) ->
     (forall fuel e,
        outcome (fst (waitUntil tick fuel condition timeout interval w))
        <> Rejected e)
     /\ (0 < interval ->
         forall fuel, (giveUpAfter timeout interval <= fuel)%nat ->
           exists b,
             outcome (fst (waitUntil tick fuel condition timeout interval w))
             = Resolved b)).
Proof.
  intros W tick condition timeout interval w.
  split; [|split; [|split]].
  - intros H fuel. unfold waitUntil.
    destruct (condition w) as [v w1]. cbn in H. subst v. reflexivity.
  - intros k Hint Hfalse Htrue Hlt fuel Hfuel. unfold waitUntil.
    pose proof (Hfalse 0%nat ltac:(lia)) as H0. cbn [nthPoll] in H0.
    destruct (condition w) as [v w1] eqn:E. cbn in H0. subst v.
    pose proof (intervalLoop_true tick condition timeout interval
                  k fuel 0 0%nat w) as L.
    assert (E0 : snd (nthPoll tick condition interval 0 w) = w1)
      by (cbn [nthPoll]; rewrite E; reflexivity).
    rewrite E0 in L.
    rewrite L; try assumption; try lia.
    + reflexivity.
    + intros j Hj. apply Hfalse. lia.
  - intros Hint m Hfalse fuel Hfuel.
    destruct (giveUpAfter_spec timeout interval Hint) as (Hm & Hreach & Hshort).
    fold m in Hm, Hreach, Hshort.
    split; [|split; [exact Hreach|]].
    + unfold waitUntil.
      pose proof (Hfalse 0%nat ltac:(lia)) as H0. cbn [nthPoll] in H0.
      destruct (condition w) as [v w1] eqn:E. cbn in H0. subst v.
      assert (Shift : forall j,
        nthPoll tick condition interval j (elapse tick interval w1)
        = nthPoll tick condition interval (S j) w).
      { induction j as [|j IHj]; cbn [nthPoll].
        - rewrite E. reflexivity.
        - rewrite IHj. reflexivity. }
      rewrite (intervalLoop_false tick condition timeout interval m fuel 0 0%nat w1).
      * rewrite Shift. replace (S (m - 1)) with m by lia. reflexivity.
      * intros j Hj. rewrite Shift. apply Hfalse. lia.
      * intros j Hj. rewrite Z.add_0_l. apply Hshort. exact Hj.
      * lia.
      * exact Hm.
      * exact Hfuel.
    + destruct (Nat.eq_dec m 1) as [->|Hne]; [right; reflexivity|left].
      specialize (Hshort (m - 1)%nat ltac:(lia)).
      rewrite Nat2Z.inj_sub in Hshort by lia. cbn in Hshort. lia.
  - intros Hno. split.
    + intros fuel e. unfold waitUntil.
      destruct (condition w) as [v w1] eqn:E. destruct v as [| |e'].
      * cbn. discriminate.
      * apply intervalLoop_never_rejects. exact Hno.
      * exfalso. apply (Hno w e'). rewrite E. reflexivity.
    + intros Hint fuel Hfuel. unfold waitUntil.
      destruct (condition w) as [v w1] eqn:E. destruct v as [| |e'].
      * exists true. reflexivity.
      * destruct (giveUpAfter_spec timeout interval Hint) as (Hm & Hreach & _).
        apply intervalLoop_settles; try assumption; try lia.
        assert (Z.of_nat (giveUpAfter timeout interval) <= Z.of_nat fuel) by lia.
        nia.
      * exfalso. apply (Hno w e'). rewrite E. reflexivity.
Qed.

(** ** The batch session *)

Definition isConsole (e : Event) : Prop :=
  match e with Console _ _ _ => True | _ => False end.

Definition isDetached (e : Event) : bool :=
  match e with Detached _ => true | _ => false end.

Definition keepsSurface (es : list Event) : Prop :=
  Forall (fun e => isDetached e = false) es.

(** What a logger may do to the session: it leaves the session variables
    alone (but for raising [errorInBatch]), and tells the host nothing but
    console lines. *)
Record LogStep (w w' : World) : Prop := mkLogStep {
  ls_now : now w' = now w;
  ls_renderLeaf : renderLeaf w' = renderLeaf w;
  ls_electronWindow : electronWindow w' = electronWindow w;
  ls_cancelled : cancelled w' = cancelled w;
  ls_batchStarted : batchStarted w' = batchStarted w;
  ls_loadingContainer : loadingContainer w' = loadingContainer w;
  ls_progressWrappers : progressWrappers w' = progressWrappers w;
  ls_closeListeners : closeListeners w' = closeListeners w;
  ls_nextTab : nextTab w' = nextTab w;
  ls_errorInBatch : errorInBatch w = true -> errorInBatch w' = true;
  ls_quietError : batchStarted w = false -> errorInBatch w' = errorInBatch w;
  ls_trace : exists es, trace w' = trace w ++ es /\ Forall isConsole es
}.

Lemma LogStep_refl : forall w, LogStep w w.
Proof.
  intros w. constructor; try reflexivity; try (intros; assumption).
  exists []. rewrite app_nil_r. split; [reflexivity|constructor].
Qed.

Lemma LogStep_trans : forall w1 w2 w3, LogStep w1 w2 -> LogStep w2 w3 -> LogStep w1 w3.
Proof.
  intros w1 w2 w3 [] []. constructor; try congruence.
  - intros H. auto.
  - intros H. rewrite ls_quietError1 by congruence. auto.
  - destruct ls_trace0 as (es1 & E1 & F1), ls_trace1 as (es2 & E2 & F2).
    exists (es1 ++ es2). rewrite E2, E1, app_assoc. split; [reflexivity|].
    apply Forall_app. split; assumption.
Qed.

Section SessionFacts.
Variable host : Host.

Lemma spawnReport_step :
  forall sev title message fatal w,
    LogStep w (spawnReport host sev title message fatal w).
Proof.
  intros sev title message fatal w. unfold spawnReport.
  destruct (batchStarted w) eqn:B; cbn [negb]; [|apply LogStep_refl].
  constructor; cbn; try reflexivity.
  - destruct sev; reflexivity.
  - destruct sev; reflexivity.
  - destruct sev; reflexivity.
  - destruct sev; reflexivity.
  - destruct sev; reflexivity.
  - destruct sev; reflexivity.
  - destruct sev; reflexivity.
  - destruct sev; reflexivity.
  - destruct sev; reflexivity.
  - destruct sev; cbn; auto.
  - congruence.
  - exists []. rewrite app_nil_r. split; [|constructor].
    destruct sev; reflexivity.
Qed.

Lemma emit_console_step :
  forall sev t m w, LogStep w (emit (Console sev t m) w).
Proof.
  intros. constructor; cbn; try reflexivity; auto.
  eexists. split; [reflexivity|]. repeat constructor.
Qed.

Lemma set_fullLog_step : forall v w, LogStep w (set_fullLog v w).
Proof.
  intros. constructor; cbn; try reflexivity; auto.
  exists []. rewrite app_nil_r. split; [reflexivity|constructor].
Qed.

Lemma set_pathLogQueue_step : forall v w, LogStep w (set_pathLogQueue v w).
Proof.
  intros. constructor; cbn; try reflexivity; auto.
  exists []. rewrite app_nil_r. split; [reflexivity|constructor].
Qed.

Lemma logCore_step : forall m t w, LogStep w (logCore host m t w).
Proof.
  intros. unfold logCore.
  destruct (settingsLoaded host && negb (levelIn host ["all"])).
  - apply set_fullLog_step.
  - eapply LogStep_trans; [apply set_fullLog_step|].
    eapply LogStep_trans; [apply emit_console_step|].
    apply spawnReport_step.
Qed.

Lemma warningCore_step : forall m t w, LogStep w (warningCore host m t w).
Proof.
  intros. unfold warningCore.
  destruct (settingsLoaded host && negb (levelIn host ["warning"; "all"])).
  - apply set_fullLog_step.
  - eapply LogStep_trans; [apply set_fullLog_step|].
    eapply LogStep_trans; [apply emit_console_step|].
    apply spawnReport_step.
Qed.

Lemma errorCore_step : forall m t f w, LogStep w (errorCore host m t f w).
Proof.
  intros. unfold errorCore.
  destruct (settingsLoaded host && negb f
            && negb (levelIn host ["error"; "warning"; "all"])).
  - apply set_fullLog_step.
  - eapply LogStep_trans; [apply set_fullLog_step|].
    eapply LogStep_trans; [apply emit_console_step|].
    apply spawnReport_step.
Qed.

Lemma pullPathLogs_step : forall w, LogStep w (pullPathLogs host w).
Proof.
  intros w. unfold pullPathLogs.
  eapply LogStep_trans; [apply (set_pathLogQueue_step [])|].
  generalize (set_pathLogQueue [] w) as w0.
  induction (pathLogQueue w) as [|e q IH]; intros w0; cbn [fold_left].
  - apply LogStep_refl.
  - eapply LogStep_trans; [|apply IH].
    destruct (plType e);
      auto using logCore_step, warningCore_step, errorCore_step.
Qed.

Lemma ExportLog_log_step : forall m t w, LogStep w (ExportLog_log host m t w).
Proof.
  intros. unfold ExportLog_log.
  eapply LogStep_trans; [apply pullPathLogs_step|apply logCore_step].
Qed.

Lemma ExportLog_warning_step :
  forall m t w, LogStep w (ExportLog_warning host m t w).
Proof.
  intros. unfold ExportLog_warning.
  eapply LogStep_trans; [apply pullPathLogs_step|apply warningCore_step].
Qed.

Lemma ExportLog_error_step :
  forall m t f w, LogStep w (ExportLog_error host m t f w).
Proof.
  intros. unfold ExportLog_error.
  eapply LogStep_trans; [apply pullPathLogs_step|apply errorCore_step].
Qed.

End SessionFacts.

(** What any operation other than [beginBatch] guarantees: a batch that is
    not started stays so, a cancellation stays, an absent leaf stays absent,
    and outside a batch no surface is released. *)
Record EndedStep (w w' : World) : Prop := mkEndedStep {
  es_batch : batchStarted w = false -> batchStarted w' = false;
  es_cancel : cancelled w = true -> cancelled w' = true;
  es_leaf : renderLeaf w = None -> renderLeaf w' = None;
  es_trace : batchStarted w = false ->
             exists es, trace w' = trace w ++ es /\ keepsSurface es
}.

Lemma EndedStep_refl : forall w, EndedStep w w.
Proof.
  intros w. constructor; auto.
  intros _. exists []. rewrite app_nil_r. split; [reflexivity|constructor].
Qed.

Lemma EndedStep_trans :
  forall w1 w2 w3, EndedStep w1 w2 -> EndedStep w2 w3 -> EndedStep w1 w3.
Proof.
  intros w1 w2 w3 [] []. constructor; auto.
  intros B. destruct (es_trace0 B) as (e1 & E1 & F1).
  destruct (es_trace1 (es_batch0 B)) as (e2 & E2 & F2).
  exists (e1 ++ e2). rewrite E2, E1, app_assoc. split; [reflexivity|].
  apply Forall_app. split; assumption.
Qed.

Lemma LogStep_EndedStep : forall w w', LogStep w w' -> EndedStep w w'.
Proof.
  intros w w' []. constructor; try congruence.
  intros _. destruct ls_trace0 as (es & E & F). exists es. split; [exact E|].
  eapply Forall_impl; [|exact F]. intros [] H; cbn in *; tauto.
Qed.

Lemma fold_left_EndedStep :
  forall (A : Type) (f : World -> A -> World) (l : list A) (w : World),
    (forall w a, EndedStep w (f w a)) ->
    EndedStep w (fold_left f l w).
Proof.
  intros A f l. induction l as [|a l IH]; intros w H; cbn.
  - apply EndedStep_refl.
  - eapply EndedStep_trans; [apply H|apply IH; exact H].
Qed.

Section EndedFacts.
Variable host : Host.

Ltac fieldwise :=
  constructor; cbn; try (intros; assumption); try reflexivity.

Lemma emit_keeps :
  forall e w, isDetached e = false -> EndedStep w (emit e w).
Proof.
  intros e w H. fieldwise.
  intros _. exists [e]. split; [reflexivity|]. constructor; [exact H|constructor].
Qed.

Lemma same_trace_EndedStep :
  forall w w',
    batchStarted w' = batchStarted w ->
    (cancelled w = true -> cancelled w' = true) ->
    (renderLeaf w = None -> renderLeaf w' = None) ->
    trace w' = trace w ->
    EndedStep w w'.
Proof.
  intros w w' B C L T. constructor; auto; try congruence.
  intros _. exists []. rewrite app_nil_r. split; [exact T|constructor].
Qed.

Lemma reportProgress_trace :
  forall f m s c w,
    exists es, trace (_reportProgress host f m s c w) = trace w ++ es
               /\ keepsSurface es.
Proof.
  intros. unfold _reportProgress.
  assert (Nil : exists es, trace w = trace w ++ es /\ keepsSurface es)
    by (exists []; rewrite app_nil_r; split; [reflexivity|constructor]).
  destruct (batchStarted w); cbn [negb]; [|exact Nil].
  destruct (renderLeaf w) as [l|]; [|exact Nil].
  destruct (attached host l (now w)); cbn [negb]; [|exact Nil].
  destruct (existsb _ _); cbn [negb]; [|exact Nil].
  destruct (electronWindow _) eqn:E; cbn in E; rewrite ?E.
  - eexists. cbn. rewrite <- app_assoc. split; [reflexivity|].
    repeat constructor.
  - eexists. cbn. split; [reflexivity|]. repeat constructor.
Qed.

Lemma reportProgress_fields :
  forall f m s c w,
    let w' := _reportProgress host f m s c w in
    batchStarted w' = batchStarted w /\ cancelled w' = cancelled w
    /\ renderLeaf w' = renderLeaf w /\ errorInBatch w' = errorInBatch w.
Proof.
  intros. unfold w', _reportProgress.
  destruct (batchStarted w) eqn:B; cbn [negb]; [|rewrite B; auto].
  destruct (renderLeaf w) as [l|] eqn:L; [|rewrite B, L; auto].
  destruct (attached host l (now w)); cbn [negb]; [|rewrite B, L; auto].
  destruct (existsb _ _); cbn [negb]; [|rewrite B, L; auto].
  destruct (electronWindow _); cbn; rewrite ?B, ?L; auto.
Qed.

Lemma reportProgress_EndedStep :
  forall f m s c w, EndedStep w (_reportProgress host f m s c w).
Proof.
  intros. pose proof (reportProgress_fields f m s c w) as (B & C & L & _).
  constructor; try congruence.
  intros _. apply reportProgress_trace.
Qed.

Lemma endBatch_inactive :
  forall w, batchStarted w = false -> endBatch host w = w.
Proof. intros w B. unfold endBatch. rewrite B. reflexivity. Qed.

Lemma endBatch_clears :
  forall w,
    batchStarted w = true ->
    let w' := endBatch host w in
    batchStarted w' = false /\ renderLeaf w' = None
    /\ electronWindow w' = None /\ loadingContainer w' = None
    /\ fileListContainer w' = None.
Proof.
  intros w B. unfold endBatch. rewrite B. cbn. auto.
Qed.

Lemma endBatch_EndedStep : forall w, EndedStep w (endBatch host w).
Proof.
  intros w. destruct (batchStarted w) eqn:B.
  - pose proof (endBatch_clears w B) as (B' & L' & _).
    constructor; try congruence.
    unfold endBatch. rewrite B. cbn [negb].
    intros C. cbn.
    destruct (renderLeaf w) as [l|]; [|exact C].
    destruct (errorInBatch w); cbn [negb].
    + pose proof (reportProgress_fields 1 "Completed with errors"
                    "Please see the log for more details." errorColor
                    (ExportLog_warning host
                       "Error in batch, leaving render window open" "" w))
        as (_ & C' & _). cbn in C'. rewrite C'.
      rewrite (ls_cancelled _ _ (ExportLog_warning_step host _ _ w)). exact C.
    + cbn. rewrite (ls_cancelled _ _ (ExportLog_log_step host _ _ w)). exact C.
  - rewrite endBatch_inactive by exact B. apply EndedStep_refl.
Qed.

Lemma checkCancelled_EndedStep :
  forall w, EndedStep w (snd (checkCancelled host w)).
Proof.
  intros w. unfold checkCancelled.
  destruct (cancelled w || negb _); cbn [snd].
  - eapply EndedStep_trans; [|apply endBatch_EndedStep].
    apply LogStep_EndedStep, ExportLog_log_step.
  - apply EndedStep_refl.
Qed.

Lemma failRender_EndedStep :
  forall file message w, EndedStep w (failRender host file message w).
Proof.
  intros file message w. unfold failRender.
  pose proof (checkCancelled_EndedStep w) as H.
  destruct (checkCancelled host w) as [c w1]. cbn [snd] in H.
  destruct c; [exact H|].
  eapply EndedStep_trans; [exact H|].
  apply LogStep_EndedStep, ExportLog_error_step.
Qed.

Ltac direct :=
  constructor; cbn; auto; try congruence; intros _; rewrite <- ?app_assoc;
  first [ eexists; split; [reflexivity | repeat constructor]
        | exists []; rewrite app_nil_r; split; [reflexivity | constructor] ].

Lemma appendLogEl_EndedStep :
  forall sev t m w, EndedStep w (appendLogEl sev t m w).
Proof.
  intros sev t m w. unfold appendLogEl.
  cbn [logContainer set_logContainer renderLeaf].
  destruct (loadingContainer w) as [c|]; [destruct (renderLeaf w) as [l|] eqn:L|].
  - destruct (logShowing (set_logContainer (Some c) w)) eqn:S; direct.
  - direct.
  - direct.
Qed.

Lemma resumeReport_EndedStep :
  forall d found w, EndedStep w (resumeReport d found w).
Proof.
  intros d found w. unfold resumeReport.
  destruct found; cbn [negb]; [|apply EndedStep_refl].
  pose proof (appendLogEl_EndedStep (dSeverity d) (dTitle d) (dMessage d) w) as H.
  destruct (dFatal d); [|exact H].
  eapply EndedStep_trans; [exact H|].
  apply same_trace_EndedStep; cbn; auto.
Qed.

Lemma microtasks_EndedStep : forall w, EndedStep w (microtasks w).
Proof.
  intros w. unfold microtasks.
  eapply EndedStep_trans;
    [|apply fold_left_EndedStep; intros; apply resumeReport_EndedStep].
  apply same_trace_EndedStep; reflexivity || auto.
Qed.

Lemma windowClosed_EndedStep : forall w, EndedStep w (windowClosed host w).
Proof.
  intros w. unfold windowClosed.
  destruct (cancelled w) eqn:C; [apply EndedStep_refl|].
  eapply EndedStep_trans; [apply endBatch_EndedStep|].
  destruct (electronWindow _);
    apply same_trace_EndedStep; cbn; auto.
Qed.

Lemma pollDeferred_EndedStep : forall d w, EndedStep w (pollDeferred host d w).
Proof.
  intros d w. unfold pollDeferred.
  destruct (dDue d) as [t|].
  - destruct (t <=? now w); cbn [negb].
    + destruct (leafRooted host w); [apply resumeReport_EndedStep|].
      destruct (100 <=? dTimer d + 10); [apply resumeReport_EndedStep|].
      apply same_trace_EndedStep; reflexivity || auto.
    + apply same_trace_EndedStep; reflexivity || auto.
  - apply same_trace_EndedStep; reflexivity || auto.
Qed.

Lemma fireCloses_EndedStep : forall w, EndedStep w (fireCloses host w).
Proof.
  intros w. unfold fireCloses.
  apply fold_left_EndedStep. intros. apply windowClosed_EndedStep.
Qed.

Lemma fireTimers_EndedStep : forall w, EndedStep w (fireTimers host w).
Proof.
  intros w. unfold fireTimers.
  apply EndedStep_trans with (set_deferred [] w).
  - apply same_trace_EndedStep; reflexivity || auto.
  - apply fold_left_EndedStep. intros. apply pollDeferred_EndedStep.
Qed.

Lemma tick_EndedStep : forall w, EndedStep w (tick host w).
Proof.
  intros w. unfold tick.
  apply EndedStep_trans with (set_now (now w + 1) w).
  { apply same_trace_EndedStep; reflexivity || auto. }
  eapply EndedStep_trans; [apply fireCloses_EndedStep|].
  eapply EndedStep_trans; [apply fireTimers_EndedStep|].
  apply microtasks_EndedStep.
Qed.

Lemma runOp_EndedStep : forall op w, EndedStep w (runOp host op w).
Proof.
  intros [] w; cbn [runOp].
  - apply checkCancelled_EndedStep.
  - apply endBatch_EndedStep.
  - apply failRender_EndedStep.
  - apply LogStep_EndedStep, ExportLog_log_step.
  - apply LogStep_EndedStep, ExportLog_warning_step.
  - apply LogStep_EndedStep, ExportLog_error_step.
  - apply reportProgress_EndedStep.
  - apply tick_EndedStep.
  - apply microtasks_EndedStep.
Qed.

Lemma runOps_EndedStep : forall ops w, EndedStep w (runOps host ops w).
Proof.
  intros ops w. unfold runOps. apply fold_left_EndedStep.
  intros. apply runOp_EndedStep.
Qed.

End EndedFacts.

Lemma detachCount_app :
  forall a b, detachCount (a ++ b) = (detachCount a + detachCount b)%nat.
Proof.
  intros a b. unfold detachCount. rewrite filter_app, length_app. reflexivity.
Qed.

Lemma keepsSurface_count : forall es, keepsSurface es -> detachCount es = 0%nat.
Proof.
  intros es H. unfold detachCount. induction H as [|e es He _ IH]; [reflexivity|].
  cbn. destruct e; cbn in *; try exact IH; discriminate.
Qed.

Lemma console_keepsSurface : forall es, Forall isConsole es -> keepsSurface es.
Proof.
  intros es H. eapply Forall_impl; [|exact H]. intros [] C; cbn in *; tauto.
Qed.

Definition completedWithErrors (leaf : nat) : Event :=
  ProgressShown leaf 1 "Completed with errors"
                "Please see the log for more details." errorColor.

Section EndBatchFacts.
Variable host : Host.

(** Without an error the surface is released, after the log line. *)
Lemma endBatch_released :
  forall w l,
    batchStarted w = true -> renderLeaf w = Some l -> errorInBatch w = false ->
    exists es, trace (endBatch host w) = trace w ++ es ++ [Detached (leafId l)]
               /\ Forall isConsole es.
Proof.
  intros w l B L E. unfold endBatch. rewrite B, L, E. cbn.
  destruct (ls_trace _ _ (ExportLog_log_step host "Closing render window" "" w))
    as (es & T & F).
  exists es. rewrite T, app_assoc. split; [reflexivity|exact F].
Qed.

(** With an error the surface is kept and the terminal progress state is
    reported; it shows when the leaf is attached and holds the wrapper. *)
Lemma endBatch_kept :
  forall w l,
    batchStarted w = true -> renderLeaf w = Some l -> errorInBatch w = true ->
    exists es, trace (endBatch host w) = trace w ++ es
               /\ keepsSurface es
               /\ (attached host l (now w) = true ->
                   existsb (Nat.eqb (leafId l)) (progressWrappers w) = true ->
                   In (completedWithErrors (leafId l)) es).
Proof.
  intros w l B L E. unfold endBatch. rewrite B, L, E. cbn.
  set (w1 := ExportLog_warning host "Error in batch, leaving render window open" "" w).
  pose proof (ExportLog_warning_step host
                "Error in batch, leaving render window open" "" w) as S.
  fold w1 in S. destruct (ls_trace _ _ S) as (es & T & F).
  unfold _reportProgress.
  rewrite (ls_batchStarted _ _ S), B, (ls_renderLeaf _ _ S), L,
          (ls_now _ _ S), (ls_progressWrappers _ _ S). cbn [negb].
  destruct (attached host l (now w)) eqn:A; cbn [negb].
  - destruct (existsb (Nat.eqb (leafId l)) (progressWrappers w)) eqn:P; cbn [negb].
    + cbn [electronWindow emit set_trace trace].
      rewrite (ls_electronWindow _ _ S).
      destruct (electronWindow w) as [win|]; cbn; rewrite T.
      * exists (es ++ [completedWithErrors (leafId l); TaskbarProgress win 1]).
        rewrite <- !app_assoc. cbn. split; [reflexivity|]. split.
        -- apply Forall_app. split; [apply console_keepsSurface, F|].
           repeat constructor.
        -- intros _ _. apply in_or_app. right. left. reflexivity.
      * exists (es ++ [completedWithErrors (leafId l)]).
        rewrite <- !app_assoc. split; [reflexivity|]. split.
        -- apply Forall_app. split; [apply console_keepsSurface, F|].
           repeat constructor.
        -- intros _ _. apply in_or_app. right. left. reflexivity.
    + exists es. cbn. split; [exact T|]. split;
        [apply console_keepsSurface, F|discriminate].
  - exists es. cbn. split; [exact T|]. split;
      [apply console_keepsSurface, F|discriminate].
Qed.

(** Without a surface handle nothing is told to the host. *)
Lemma endBatch_absent :
  forall w,
    batchStarted w = true -> renderLeaf w = None ->
    trace (endBatch host w) = trace w.
Proof.
  intros w B L. unfold endBatch. rewrite B, L. reflexivity.
Qed.

Lemma endBatch_releases_once :
  forall w, exists es,
    trace (endBatch host w) = trace w ++ es /\ (detachCount es <= 1)%nat.
Proof.
  intros w. destruct (batchStarted w) eqn:B.
  - destruct (renderLeaf w) as [l|] eqn:L.
    + destruct (errorInBatch w) eqn:E.
      * destruct (endBatch_kept w l B L E) as (es & T & K & _).
        exists es. split; [exact T|]. rewrite keepsSurface_count by exact K. lia.
      * destruct (endBatch_released w l B L E) as (es & T & F).
        exists (es ++ [Detached (leafId l)]). split; [exact T|].
        rewrite detachCount_app, keepsSurface_count
          by (apply console_keepsSurface, F). cbn. lia.
    + exists []. rewrite app_nil_r. split; [apply endBatch_absent; assumption|].
      cbn. lia.
  - exists []. rewrite app_nil_r, endBatch_inactive by exact B.
    split; [reflexivity|cbn; lia].
Qed.

Lemma endBatch_ends : forall w, batchStarted (endBatch host w) = false.
Proof.
  intros w. destruct (batchStarted w) eqn:B.
  - apply (endBatch_clears host w B).
  - rewrite endBatch_inactive; assumption.
Qed.

Lemma checkCancelled_iff :
  forall w,
    fst (checkCancelled host w) = true
    <-> cancelled w = true \/ renderLeaf w = None.
Proof.
  intros w. unfold checkCancelled.
  destruct (cancelled w); cbn.
  - split; auto.
  - destruct (renderLeaf w); cbn; split; intros H; auto; try discriminate.
    destruct H; discriminate.
Qed.

End EndBatchFacts.

(** C4. [checkCancelled] returns [true] exactly when [cancelled] is set or
    the render leaf is absent.  When it returns [true] it has logged
    "cancelled" and ended the batch; when it returns [false] it has changed
    nothing.  After it has returned [true], whatever the module does next
    short of [beginBatch] (further checks, [endBatch], failures, log lines,
    time passing), the next check returns [true] again, and no surface is
    released any more: over the whole run at most one release is added to
    those that had happened before the first check. *)
Theorem checkCancelled_contract :
  forall (host : Host) (w : World),
    (fst (checkCancelled host w) = true
     <-> cancelled w = true \/ renderLeaf w = None)
    /\ (fst (checkCancelled host w) = true ->
        snd (checkCancelled host w)
        = endBatch host (ExportLog_log host "cancelled" "" w)
        /\ batchStarted (snd (checkCancelled host w)) = false)
    /\ (fst (checkCancelled host w) = false -> snd (checkCancelled host w) = w)
    /\ (fst (checkCancelled host w) = true ->
        forall ops : list SessionOp,
          let w1 := snd (checkCancelled host w) in
          let w2 := runOps host ops w1 in
          fst (checkCancelled host w2) = true
          /\ detachCount (trace w2) = detachCount (trace w1)
          /\ (detachCount (trace w2) <= detachCount (trace w) + 1)%nat).
Proof.
  intros host w.
  assert (Shape : fst (checkCancelled host w) = true ->
                  snd (checkCancelled host w)
                  = endBatch host (ExportLog_log host "cancelled" "" w)).
  { unfold checkCancelled. destruct (cancelled w || negb _); cbn;
      [reflexivity|discriminate]. }
  split; [apply checkCancelled_iff|].
  split; [|split].
  - intros H. split; [apply Shape, H|]. rewrite (Shape H). apply endBatch_ends.
  - unfold checkCancelled. destruct (cancelled w || negb _); cbn;
      [discriminate|reflexivity].
  - intros H ops w1 w2.
    assert (B1 : batchStarted w1 = false)
      by (unfold w1; rewrite (Shape H); apply endBatch_ends).
    assert (O1 : cancelled w1 = true \/ renderLeaf w1 = None).
    { pose proof (checkCancelled_EndedStep host w) as S. fold w1 in S.
      apply checkCancelled_iff in H. destruct H as [C|L].
      - left. apply (es_cancel _ _ S C).
      - right. apply (es_leaf _ _ S L). }
    pose proof (runOps_EndedStep host ops w1) as S2. fold w2 in S2.
    destruct (es_trace _ _ S2 B1) as (es & T & K).
    split; [|split].
    + apply checkCancelled_iff. destruct O1 as [C|L].
      * left. apply (es_cancel _ _ S2 C).
      * right. apply (es_leaf _ _ S2 L).
    + rewrite T, detachCount_app, (keepsSurface_count es K). lia.
    + rewrite T, detachCount_app, (keepsSurface_count es K).
      unfold w1. rewrite (Shape H).
      destruct (endBatch_releases_once host (ExportLog_log host "cancelled" "" w))
        as (e1 & T1 & C1).
      destruct (ls_trace _ _ (ExportLog_log_step host "cancelled" "" w))
        as (e0 & T0 & F0).
      rewrite T1, T0, !detachCount_app,
              (keepsSurface_count e0 (console_keepsSurface e0 F0)).
      lia.
Qed.

(** C7, as the code has it.  [endBatch] changes nothing when no batch is
    started.  Otherwise it clears the session ([batchStarted] false,
    [renderLeaf], [electronWindow], [loadingContainer] and
    [fileListContainer] absent), after this: when the render leaf is present
    and no error occurred it releases the leaf; when the render leaf is
    present and an error occurred it releases nothing and reports the
    progress state "Completed with errors", which shows when the leaf is
    attached and holds the progress wrapper; when the render leaf is absent
    it tells the host nothing. *)
Theorem endBatch_contract :
  forall (host : Host) (w : World),
    (batchStarted w = false -> endBatch host w = w)
    /\ (batchStarted w = true ->
        let w' := endBatch host w in
        (batchStarted w' = false /\ renderLeaf w' = None
         /\ electronWindow w' = None /\ loadingContainer w' = None
         /\ fileListContainer w' = None)
        /\ (forall l, renderLeaf w = Some l -> errorInBatch w = false ->
              exists es, trace w' = trace w ++ es ++ [Detached (leafId l)]
                         /\ Forall isConsole es)
        /\ (forall l, renderLeaf w = Some l -> errorInBatch w = true ->
              exists es, trace w' = trace w ++ es
                         /\ keepsSurface es
                         /\ (attached host l (now w) = true ->
                             existsb (Nat.eqb (leafId l)) (progressWrappers w) = true ->
                             In (completedWithErrors (leafId l)) es))
        /\ (renderLeaf w = None -> trace w' = trace w)).
Proof.
  intros host w. split.
  - apply endBatch_inactive.
  - intros B w'. split; [apply endBatch_clears, B|].
    split; [|split].
    + intros l L E. apply endBatch_released; assumption.
    + intros l L E. apply endBatch_kept; assumption.
    + intros L. apply endBatch_absent; assumption.
Qed.

(** ** Worlds in which nothing is pending *)

(** No report call is suspended and no window with a listener ever closes. *)
Definition calm (host : Host) (w : World) : Prop :=
  deferred w = [] /\
  Forall (fun win => closeAt host win = None) (closeListeners w).

Section CalmFacts.
Variable host : Host.

Lemma set_now_twice : forall a b w, set_now a (set_now b w) = set_now a w.
Proof. intros a b []. reflexivity. Qed.

Lemma set_now_same : forall w, set_now (now w) w = w.
Proof. intros []. reflexivity. Qed.

Lemma microtasks_idle : forall w, deferred w = [] -> microtasks w = w.
Proof.
  intros [] D. cbn in D. subst. reflexivity.
Qed.

Lemma fireCloses_calm : forall w, calm host w -> fireCloses host w = w.
Proof.
  intros w (_ & F). unfold fireCloses.
  replace (filter _ (closeListeners w)) with (@nil nat); [reflexivity|].
  induction F as [|win l H _ IH]; [reflexivity|].
  cbn. rewrite H. exact IH.
Qed.

Lemma fireTimers_idle : forall w, deferred w = [] -> fireTimers host w = w.
Proof.
  intros [] D. cbn in D. subst. reflexivity.
Qed.

Lemma calm_set_now : forall t w, calm host w -> calm host (set_now t w).
Proof. intros t w H. exact H. Qed.

Lemma tick_calm : forall w, calm host w -> tick host w = set_now (now w + 1) w.
Proof.
  intros w H. unfold tick.
  rewrite fireCloses_calm by (apply calm_set_now, H).
  rewrite fireTimers_idle by apply H.
  apply microtasks_idle, H.
Qed.

Lemma iter_tick_calm :
  forall m w, calm host w ->
    Nat.iter m (tick host) w = set_now (now w + Z.of_nat m) w.
Proof.
  induction m as [|m IH]; intros w H.
  - cbn. rewrite Z.add_0_r, set_now_same. reflexivity.
  - change (Nat.iter (S m) (tick host) w)
      with (tick host (Nat.iter m (tick host) w)).
    rewrite IH by exact H. rewrite tick_calm by (apply calm_set_now, H).
    rewrite set_now_twice. cbn [now set_now]. f_equal. lia.
Qed.

(** An awaited wait in a calm world whose predicate only reads the clock
    and calls [checkCancelled] in vain. *)
Lemma awaitUntil_calm :
  forall (P : Z -> bool) (condition : World -> bool * World) (timeout : Z)
         (w : World),
    calm host w ->
    (forall t, condition (set_now t w) = (P t, set_now t w)) ->
    1 <= timeout ->
    exists (m : nat) (b : bool),
      awaitUntil host condition timeout 1 w
      = (Returned b, set_now (now w + Z.of_nat m) w)
      /\ Z.of_nat m <= timeout
      /\ (b = true -> P (now w + Z.of_nat m) = true)
      /\ (b = false ->
          Z.of_nat m = timeout
          /\ forall j, 0 <= j <= timeout -> P (now w + j) = false).
Proof.
  intros P condition timeout w C R T. unfold awaitUntil.
  set (verdict := fun w0 : World =>
                    let '(b, w1) := condition w0 in
                    (if b then Truthy else Falsy, w1)).
  destruct (waitUntil_clocked (tick host) now
              (fun w' => exists t, w' = set_now t w) P verdict timeout)
    with (w := w) as (m & b & r & E & O & M & Ht & Hf).
  - intros w' (t & ->). exists (t + 1).
    rewrite tick_calm by (apply calm_set_now, C).
    rewrite set_now_twice. reflexivity.
  - intros w' (t & ->).
    rewrite tick_calm by (apply calm_set_now, C). reflexivity.
  - intros w' (t & ->). unfold verdict. rewrite R. cbn [now set_now].
    destruct (P t); reflexivity.
  - exists (now w). rewrite set_now_same. reflexivity.
  - exact T.
  - exists m, b. rewrite E, O, iter_tick_calm by exact C.
    rewrite microtasks_idle by apply C.
    split; [reflexivity|]. split; [exact M|]. split; assumption.
Qed.

End CalmFacts.

(** C3, as the code has it.  When [beginBatch] runs on an inactive session
    in which nothing is pending, and the tab it opens is not attached within
    the 2000 ms of the wait, it releases the tab, shows a notice, and throws
    "Failed to create leaf for rendering!" to its caller; nothing is written
    to the log. *)
Theorem beginBatch_never_attached :
  forall (host : Host) (options : MarkdownRendererOptions) (w : World),
    batchStarted w = false ->
    calm host w ->
    (forall d, attachDelay host (nextTab w) = Some d -> 2000 < d) ->
    exists w',
      beginBatch host options w
      = (Thrown "Failed to create leaf for rendering!", w')
      /\ trace w'
         = trace w ++ [TabOpened (nextTab w); Detached (nextTab w);
                       Noticed "Error: Failed to create leaf for rendering!"]
      /\ fullLog w' = fullLog w.
Proof.
  intros host options w B C A. unfold beginBatch. rewrite B.
  set (leaf := mkLeaf (nextTab w) (now w)).
  match goal with
  | |- context [bind (awaitUntil host ?c 2000 1) ?k ?x] =>
      set (cond := c); set (w1 := x)
  end.
  assert (C1 : calm host w1) by exact C.
  assert (Never : forall t, t <= now w + 2000 -> attached host leaf t = false).
  { intros t Ht. unfold attached. cbn [leafId openedAt leaf].
    destruct (attachDelay host (nextTab w)) as [d|] eqn:D; [|reflexivity].
    specialize (A d eq_refl). apply Z.leb_gt. lia. }
  destruct (awaitUntil_calm host (attached host leaf) cond 2000 w1 C1)
    as (m & b & E & M & Ht & Hf).
  - intros t.
    change (cond (set_now t w1))
      with (if attached host leaf t then (true, set_now t w1)
            else checkCancelled host (set_now t w1)).
    destruct (attached host leaf t); [reflexivity|].
    unfold checkCancelled.
    change (renderLeaf (set_now t w1)) with (Some leaf).
    change (cancelled (set_now t w1)) with false.
    reflexivity.
  - lia.
  - unfold bind. rewrite E.
    destruct b.
    + specialize (Ht eq_refl). rewrite Never in Ht; [discriminate|].
      change (now w1) with (now w). lia.
    + cbn [negb].
      change (renderLeaf (set_now (now w1 + Z.of_nat m) w1)) with (Some leaf).
      unfold checkCancelled.
      change (renderLeaf (emit (Detached (leafId leaf))
                               (set_now (now w1 + Z.of_nat m) w1)))
        with (Some leaf).
      change (cancelled (emit (Detached (leafId leaf))
                              (set_now (now w1 + Z.of_nat m) w1)))
        with false.
      cbn [orb negb].
      eexists. split; [reflexivity|]. split; [|reflexivity].
      cbn. rewrite <- !app_assoc. reflexivity.
Qed.

Lemma beginBatch_never_attached_witness :
  exists w',
    beginBatch detachedHost defaultOptions (initialWorld 0)
    = (Thrown "Failed to create leaf for rendering!", w')
    /\ trace w'
       = trace (initialWorld 0)
         ++ [TabOpened 0; Detached 0;
             Noticed "Error: Failed to create leaf for rendering!"]
    /\ fullLog w' = fullLog (initialWorld 0).
Proof.
  apply (beginBatch_never_attached detachedHost defaultOptions (initialWorld 0)).
  - reflexivity.
  - split; [reflexivity|constructor].
  - intros d H. discriminate H.
Defined.

(** C3 as stated fails: on a session where the tab never attaches,
    [beginBatch] throws to its caller, logs no fatal error, and leaves the
    session started with the leaf still held. *)
Lemma beginBatch_unattached_counterexample :
  fst (beginBatch detachedHost defaultOptions (initialWorld 0))
  = Thrown "Failed to create leaf for rendering!"
  /\ batchStarted (snd (beginBatch detachedHost defaultOptions (initialWorld 0)))
     = true
  /\ renderLeaf (snd (beginBatch detachedHost defaultOptions (initialWorld 0)))
     = Some (mkLeaf 0 0)
  /\ fullLog (snd (beginBatch detachedHost defaultOptions (initialWorld 0))) = "".
Proof. vm_compute. repeat split; reflexivity. Qed.

Lemma activeWorld_shape :
  batchStarted activeWorld = true
  /\ renderLeaf activeWorld = Some (mkLeaf 0 0)
  /\ errorInBatch activeWorld = false
  /\ attached readyHost (mkLeaf 0 0) (now activeWorld) = true
  /\ existsb (Nat.eqb 0) (progressWrappers activeWorld) = true.
Proof. vm_compute. repeat split; reflexivity. Qed.

(** C7 as stated fails: after a fatal error the batch is started, an error
    has occurred, and [endBatch] reports no "Completed with errors" state
    (it tells the host nothing), because the leaf handle is gone. *)
Lemma endBatch_after_fatal_counterexample :
  batchStarted failedWorld = true
  /\ errorInBatch failedWorld = true
  /\ renderLeaf failedWorld = None
  /\ trace (endBatch readyHost failedWorld) = trace failedWorld
  /\ existsb (fun e => match e with ProgressShown _ _ _ _ _ => true | _ => false end)
             (trace (endBatch readyHost failedWorld)) = false.
Proof. vm_compute. repeat split; reflexivity. Qed.

Lemma endBatch_contract_witness :
  endBatch readyHost (initialWorld 0) = initialWorld 0
  /\ (exists es, trace (endBatch readyHost activeWorld)
                 = trace activeWorld ++ es ++ [Detached 0]
                 /\ Forall isConsole es)
  /\ (exists es, trace (endBatch readyHost erredWorld) = trace erredWorld ++ es
                 /\ keepsSurface es
                 /\ In (completedWithErrors 0) es)
  /\ trace (endBatch readyHost failedWorld) = trace failedWorld.
Proof.
  split; [|split; [|split]].
  - apply (proj1 (endBatch_contract readyHost (initialWorld 0))). reflexivity.
  - destruct (endBatch_contract readyHost activeWorld) as (_ & H).
    destruct (H ltac:(vm_compute; reflexivity)) as (_ & R & _).
    apply (R (mkLeaf 0 0)); vm_compute; reflexivity.
  - destruct (endBatch_contract readyHost erredWorld) as (_ & H).
    destruct (H ltac:(vm_compute; reflexivity)) as (_ & _ & K & _).
    destruct (K (mkLeaf 0 0)) as (es & T & S & I);
      [vm_compute; reflexivity|vm_compute; reflexivity|].
    exists es. split; [exact T|]. split; [exact S|].
    apply I; vm_compute; reflexivity.
  - destruct (endBatch_contract readyHost failedWorld) as (_ & H).
    destruct (H ltac:(vm_compute; reflexivity)) as (_ & _ & _ & A).
    apply A. vm_compute. reflexivity.
Defined.

Lemma checkCancelled_contract_witness :
  fst (checkCancelled readyHost failedWorld) = true
  /\ batchStarted (snd (checkCancelled readyHost failedWorld)) = false
  /\ fst (checkCancelled readyHost
            (runOps readyHost [OpTick; OpCheckCancelled; OpEndBatch; OpCheckCancelled]
                    (snd (checkCancelled readyHost failedWorld)))) = true
  /\ snd (checkCancelled readyHost activeWorld) = activeWorld.
Proof.
  destruct (checkCancelled_contract readyHost failedWorld) as (I & E & _ & R).
  assert (T : fst (checkCancelled readyHost failedWorld) = true)
    by (apply I; right; vm_compute; reflexivity).
  split; [exact T|]. split; [apply (E T)|]. split.
  - apply (R T [OpTick; OpCheckCancelled; OpEndBatch; OpCheckCancelled]).
  - apply (proj1 (proj2 (proj2 (checkCancelled_contract readyHost activeWorld)))).
    vm_compute. reflexivity.
Defined.

(** C10. Every call of [_reportError] during a started batch, fatal or not,
    sets [errorInBatch].  Therefore, after a non-fatal error was reported
    in a batch whose leaf is present, [endBatch] does not release the leaf:
    it reports "Completed with errors" instead (shown when the leaf is
    attached and holds the progress wrapper). *)
Theorem reportError_marks_batch :
  forall (host : Host) (messageTitle : string) (message : Message) (fatal : bool) (w : World),
    batchStarted w = true ->
    errorInBatch (_reportError host messageTitle message fatal w) = true
    /\ (forall l,
          renderLeaf w = Some l ->
          let w1 := _reportError host messageTitle message false w in
          exists es,
            trace (endBatch host w1) = trace w1 ++ es
            /\ keepsSurface es
            /\ (attached host l (now w) = true ->
                existsb (Nat.eqb (leafId l)) (progressWrappers w) = true ->
                In (completedWithErrors (leafId l)) es)).
Proof.
  intros host messageTitle message fatal w B.
  assert (E : forall f, errorInBatch (_reportError host messageTitle message f w) = true).
  { intros f. unfold _reportError, spawnReport. rewrite B. reflexivity. }
  split; [apply E|].
  intros l L w1.
  pose proof (spawnReport_step host Error messageTitle message false w) as S.
  change (spawnReport host Error messageTitle message false w) with w1 in S.
  destruct (endBatch_kept host w1 l) as (es & T & K & P).
  - rewrite (ls_batchStarted _ _ S). exact B.
  - rewrite (ls_renderLeaf _ _ S). exact L.
  - apply E.
  - exists es. split; [exact T|]. split; [exact K|].
    rewrite (ls_now _ _ S), (ls_progressWrappers _ _ S) in P. exact P.
Qed.

Lemma reportError_marks_batch_witness :
  errorInBatch (_reportError readyHost "[ERROR] Broken link" "link not found"
                             false activeWorld) = true
  /\ exists es,
       trace (endBatch readyHost
                (_reportError readyHost "[ERROR] Broken link" "link not found"
                              false activeWorld))
       = trace (_reportError readyHost "[ERROR] Broken link" "link not found"
                             false activeWorld) ++ es
       /\ keepsSurface es
       /\ In (completedWithErrors 0) es.
Proof.
  destruct (reportError_marks_batch readyHost "[ERROR] Broken link"
              "link not found" false activeWorld) as (E & K).
  - vm_compute. reflexivity.
  - split; [exact E|].
    destruct (K (mkLeaf 0 0)) as (es & T & S & I); [vm_compute; reflexivity|].
    exists es. split; [exact T|]. split; [exact S|].
    apply I; vm_compute; reflexivity.
Defined.

(** C2 fails on the code: a lone [renderFile] whose [openFile] throws
    returns [undefined] with the batch it opened still started, the leaf
    still held and nothing released; so do a lone [renderFile] and a lone
    [renderMarkdown] on a note with a section that is never rendered.  On
    the path of success both close the batch they opened: the leaf is
    released once. *)
Theorem renderFile_failure_leaves_batch_open :
  batchStarted (initialWorld 0) = false
  /\ (let r := renderFile brokenHost noteFile defaultOptions (initialWorld 0) in
      fst r = Returned (None, None)
      /\ batchStarted (snd r) = true
      /\ renderLeaf (snd r) = Some (mkLeaf 0 0)
      /\ cancelled (snd r) = false
      /\ detachCount (trace (snd r)) = 0%nat)
  /\ (let r := renderFile stuckHost noteFile defaultOptions (initialWorld 0) in
      fst r = Returned (None, None)
      /\ batchStarted (snd r) = true
      /\ renderLeaf (snd r) = Some (mkLeaf 0 0)
      /\ cancelled (snd r) = false
      /\ detachCount (trace (snd r)) = 0%nat)
  /\ (let r := renderMarkdown stuckHost "text" defaultOptions (initialWorld 0) in
      fst r = Returned (None, None)
      /\ batchStarted (snd r) = true
      /\ renderLeaf (snd r) = Some (mkLeaf 0 0)
      /\ cancelled (snd r) = false
      /\ detachCount (trace (snd r)) = 0%nat)
  /\ (let r := renderFile readyHost noteFile defaultOptions (initialWorld 0) in
      (exists html, fst r = Returned (Some html, None))
      /\ batchStarted (snd r) = false
      /\ renderLeaf (snd r) = None
      /\ detachCount (trace (snd r)) = 1%nat)
  /\ (let r := renderMarkdown readyHost "text" defaultOptions (initialWorld 0) in
      (exists html, fst r = Returned (Some html, None))
      /\ batchStarted (snd r) = false
      /\ renderLeaf (snd r) = None
      /\ detachCount (trace (snd r)) = 1%nat).
Proof.
  split; [reflexivity|].
  split; [vm_compute; repeat split; reflexivity|].
  split; [vm_compute; repeat split; reflexivity|].
  split; [vm_compute; repeat split; reflexivity|].
  split.
  - vm_compute. split; [eexists; reflexivity|]. repeat split; reflexivity.
  - vm_compute. split; [eexists; reflexivity|]. repeat split; reflexivity.
Qed.

(** ** Quiet sessions: a batch that nobody cancels *)

Definition nonFatal (d : Deferred) : Prop := dFatal d = false.

(** The session is not cancelled, holds its leaf, no fatal report is
    suspended, [Path] has nothing queued, and no window with a listener
    closes. *)
Record quiet (host : Host) (w : World) : Prop := mkQuiet {
  q_cancelled : cancelled w = false;
  q_leaf : exists l, renderLeaf w = Some l;
  q_deferred : Forall nonFatal (deferred w);
  q_queue : pathLogQueue w = [];
  q_listeners : Forall (fun win => closeAt host win = None) (closeListeners w)
}.

(** What the event loop leaves alone while it only runs non-fatal reports. *)
Record Still (w w' : World) : Prop := mkStill {
  st_now : now w' = now w;
  st_cancelled : cancelled w' = cancelled w;
  st_renderLeaf : renderLeaf w' = renderLeaf w;
  st_pathLogQueue : pathLogQueue w' = pathLogQueue w;
  st_closeListeners : closeListeners w' = closeListeners w;
  st_fullLog : fullLog w' = fullLog w;
  st_errorInBatch : errorInBatch w' = errorInBatch w;
  st_batchStarted : batchStarted w' = batchStarted w
}.

Lemma Still_refl : forall w, Still w w.
Proof. intros w. constructor; reflexivity. Qed.

Lemma Still_trans : forall w1 w2 w3, Still w1 w2 -> Still w2 w3 -> Still w1 w3.
Proof. intros w1 w2 w3 [] []. constructor; congruence. Qed.

Section QuietFacts.
Variable host : Host.

Lemma appendLogEl_Still :
  forall sev t m w,
    Still w (appendLogEl sev t m w)
    /\ deferred (appendLogEl sev t m w) = deferred w.
Proof.
  intros sev t m w. unfold appendLogEl.
  cbn [logContainer set_logContainer renderLeaf].
  destruct (loadingContainer w); [destruct (renderLeaf w)|];
    try destruct (logShowing _); split; constructor; reflexivity.
Qed.

Lemma resumeReport_Still :
  forall d found w,
    nonFatal d ->
    Still w (resumeReport d found w)
    /\ deferred (resumeReport d found w) = deferred w.
Proof.
  intros d found w N. unfold resumeReport. rewrite N.
  destruct found; cbn [negb].
  - apply appendLogEl_Still.
  - split; [apply Still_refl|reflexivity].
Qed.

Lemma fold_resume_Still :
  forall ds w,
    Forall nonFatal ds ->
    Still w (fold_left (fun w d => resumeReport d true w) ds w)
    /\ deferred (fold_left (fun w d => resumeReport d true w) ds w) = deferred w.
Proof.
  induction ds as [|d ds IH]; intros w F; cbn [fold_left].
  - split; [apply Still_refl|reflexivity].
  - inversion F as [|? ? Hd Hds]; subst.
    destruct (resumeReport_Still d true w Hd) as (S1 & D1).
    destruct (IH (resumeReport d true w) Hds) as (S2 & D2).
    split; [eapply Still_trans; eassumption|congruence].
Qed.

Lemma Forall_filter :
  forall (A : Type) (P : A -> Prop) (f : A -> bool) (l : list A),
    Forall P l -> Forall P (filter f l).
Proof.
  intros A P f l F. induction F as [|a l Ha _ IH]; cbn; [constructor|].
  destruct (f a); [constructor; assumption|assumption].
Qed.

Lemma microtasks_Still :
  forall w,
    Forall nonFatal (deferred w) ->
    Still w (microtasks w) /\ Forall nonFatal (deferred (microtasks w)).
Proof.
  intros w F. unfold microtasks.
  match goal with
  | |- context [fold_left _ ?r (set_deferred ?q w)] =>
      destruct (fold_resume_Still r (set_deferred q w)) as (S & D);
      [apply Forall_filter, F|]
  end.
  split.
  - eapply Still_trans; [|exact S]. constructor; reflexivity.
  - rewrite D. cbn. apply Forall_filter, F.
Qed.

Lemma pollDeferred_Still :
  forall d w,
    nonFatal d ->
    Forall nonFatal (deferred w) ->
    Still w (pollDeferred host d w)
    /\ Forall nonFatal (deferred (pollDeferred host d w)).
Proof.
  intros d w N F. unfold pollDeferred.
  assert (Keep : Still w (set_deferred (deferred w ++ [d]) w)
                 /\ Forall nonFatal (deferred (set_deferred (deferred w ++ [d]) w))).
  { split; [constructor; reflexivity|]. cbn. apply Forall_app.
    split; [exact F|constructor; [exact N|constructor]]. }
  destruct (dDue d) as [t|]; [|exact Keep].
  destruct (t <=? now w); cbn [negb]; [|exact Keep].
  destruct (leafRooted host w).
  - destruct (resumeReport_Still d true w N) as (S & D).
    split; [exact S|rewrite D; exact F].
  - destruct (100 <=? dTimer d + 10).
    + destruct (resumeReport_Still d false w N) as (S & D).
      split; [exact S|rewrite D; exact F].
    + split; [constructor; reflexivity|]. cbn. apply Forall_app.
      split; [exact F|constructor; [exact N|constructor]].
Qed.

Lemma fireTimers_Still :
  forall w,
    Forall nonFatal (deferred w) ->
    Still w (fireTimers host w) /\ Forall nonFatal (deferred (fireTimers host w)).
Proof.
  intros w F. unfold fireTimers.
  assert (G : forall ds w0,
            Forall nonFatal ds -> Forall nonFatal (deferred w0) ->
            Still w0 (fold_left (fun w d => pollDeferred host d w) ds w0)
            /\ Forall nonFatal
                 (deferred (fold_left (fun w d => pollDeferred host d w) ds w0))).
  { induction ds as [|d ds IH]; intros w0 Fd F0; cbn [fold_left].
    - split; [apply Still_refl|exact F0].
    - inversion Fd as [|? ? Hd Hds]; subst.
      destruct (pollDeferred_Still d w0 Hd F0) as (S1 & F1).
      destruct (IH _ Hds F1) as (S2 & F2).
      split; [eapply Still_trans; eassumption|exact F2]. }
  destruct (G (deferred w) (set_deferred [] w) F) as (S & F'); [constructor|].
  split; [|exact F'].
  eapply Still_trans; [|exact S]. constructor; reflexivity.
Qed.

Lemma fireCloses_none :
  forall w,
    Forall (fun win => closeAt host win = None) (closeListeners w) ->
    fireCloses host w = w.
Proof.
  intros w F. unfold fireCloses.
  replace (filter _ (closeListeners w)) with (@nil nat); [reflexivity|].
  induction F as [|win l H _ IH]; [reflexivity|].
  cbn. rewrite H. exact IH.
Qed.

Lemma Still_quiet : forall w w',
    quiet host w -> Still w w' -> Forall nonFatal (deferred w') -> quiet host w'.
Proof.
  intros w w' [] [] F. constructor.
  - congruence.
  - destruct q_leaf0 as (l & L). exists l. congruence.
  - exact F.
  - congruence.
  - rewrite st_closeListeners0. exact q_listeners0.
Qed.

(** A tick of a quiet session moves the clock and nothing else the
    renderers look at. *)
Lemma tick_quiet :
  forall w,
    quiet host w ->
    quiet host (tick host w)
    /\ now (tick host w) = now w + 1
    /\ fullLog (tick host w) = fullLog w
    /\ errorInBatch (tick host w) = errorInBatch w
    /\ batchStarted (tick host w) = batchStarted w.
Proof.
  intros w Q. unfold tick.
  set (w1 := set_now (now w + 1) w).
  assert (Q1 : quiet host w1) by (destruct Q; constructor; assumption).
  rewrite (fireCloses_none w1) by apply Q1.
  destruct (fireTimers_Still w1 (q_deferred _ _ Q1)) as (S2 & F2).
  destruct (microtasks_Still _ F2) as (S3 & F3).
  pose proof (Still_trans _ _ _ S2 S3) as S.
  split; [exact (Still_quiet _ _ Q1 S F3)|].
  destruct S. repeat split.
  - rewrite st_now0. reflexivity.
  - rewrite st_fullLog0. reflexivity.
  - rewrite st_errorInBatch0. reflexivity.
  - rewrite st_batchStarted0. reflexivity.
Qed.

Lemma microtasks_quiet :
  forall w,
    quiet host w ->
    quiet host (microtasks w) /\ Still w (microtasks w).
Proof.
  intros w Q. destruct (microtasks_Still w (q_deferred _ _ Q)) as (S & F).
  split; [exact (Still_quiet _ _ Q S F)|exact S].
Qed.

Lemma checkCancelled_quiet :
  forall w, quiet host w -> checkCancelled host w = (false, w).
Proof.
  intros w []. destruct q_leaf0 as (l & L).
  unfold checkCancelled. rewrite q_cancelled0, L. reflexivity.
Qed.

End QuietFacts.

(** ** What a renderer does to a quiet session *)

Lemma append_assoc :
  forall a b c : string, ((a ++ b) ++ c)%string = (a ++ (b ++ c))%string.
Proof.
  induction a as [|x a IH]; intros b c; cbn; [reflexivity|].
  rewrite IH. reflexivity.
Qed.

Lemma append_nil_r : forall a : string, (a ++ "")%string = a.
Proof.
  induction a as [|x a IH]; cbn; [reflexivity|]. rewrite IH. reflexivity.
Qed.

Lemma flatten_app :
  forall l1 l2, flatten (l1 ++ l2) = (flatten l1 ++ flatten l2)%string.
Proof.
  induction l1 as [|x l1 IH]; intros l2; cbn; [reflexivity|].
  rewrite IH, append_assoc. reflexivity.
Qed.

(** A line that is neither an error nor a fatal error. *)
Definition benign (line : string) : Prop :=
  exists m t, line = infoLine m t \/ line = warningLine m t.

Lemma errorLine_not_benign : forall m t, ~ benign (errorLine m t).
Proof.
  intros m t (m' & t' & [H|H]); cbn in H; discriminate H.
Qed.

(** The session after a step of a renderer: still quiet, later, with the
    given lines appended to the log, and with [errorInBatch] as it was
    unless one of the lines is an error. *)
Record Advance (host : Host) (w w' : World) (lines : list string) : Prop :=
  mkAdvance {
  ad_quiet : quiet host w';
  ad_now : now w <= now w';
  ad_log : fullLog w' = (fullLog w ++ flatten lines)%string;
  ad_batch : batchStarted w' = batchStarted w;
  ad_error : Forall benign lines -> errorInBatch w' = errorInBatch w
}.

Section AdvanceFacts.
Variable host : Host.

Lemma Advance_refl : forall w, quiet host w -> Advance host w w [].
Proof.
  intros w Q. constructor.
  - exact Q.
  - lia.
  - cbn. rewrite append_nil_r. reflexivity.
  - reflexivity.
  - reflexivity.
Qed.

Lemma Advance_trans :
  forall w1 w2 w3 l1 l2,
    Advance host w1 w2 l1 -> Advance host w2 w3 l2 ->
    Advance host w1 w3 (l1 ++ l2).
Proof.
  intros w1 w2 w3 l1 l2 [] []. constructor.
  - assumption.
  - lia.
  - rewrite ad_log1, ad_log0, flatten_app, append_assoc. reflexivity.
  - congruence.
  - intros F. apply Forall_app in F. destruct F as (F1 & F2).
    rewrite ad_error1, ad_error0 by assumption. reflexivity.
Qed.

Lemma Still_Advance :
  forall w w',
    quiet host w -> Still w w' -> Forall nonFatal (deferred w') ->
    Advance host w w' [].
Proof.
  intros w w' Q S F. constructor.
  - exact (Still_quiet host _ _ Q S F).
  - rewrite (st_now _ _ S). lia.
  - rewrite (st_fullLog _ _ S). cbn. rewrite append_nil_r. reflexivity.
  - apply (st_batchStarted _ _ S).
  - intros _. apply (st_errorInBatch _ _ S).
Qed.

Lemma microtasks_Advance :
  forall w, quiet host w -> Advance host w (microtasks w) [].
Proof.
  intros w Q. destruct (microtasks_Still w (q_deferred _ _ Q)) as (S & F).
  apply Still_Advance; assumption.
Qed.

Lemma tick_Advance :
  forall w, quiet host w -> Advance host w (tick host w) [].
Proof.
  intros w Q. destruct (tick_quiet host w Q) as (Q' & N & L & E & B).
  constructor; try assumption.
  - lia.
  - rewrite L. cbn. rewrite append_nil_r. reflexivity.
  - intros _. exact E.
Qed.

Lemma iter_tick_Advance :
  forall m w,
    quiet host w ->
    Advance host w (Nat.iter m (tick host) w) []
    /\ now (Nat.iter m (tick host) w) = now w + Z.of_nat m.
Proof.
  induction m as [|m IH]; intros w Q.
  - cbn. split; [apply Advance_refl, Q|lia].
  - destruct (IH w Q) as (A & N).
    change (Nat.iter (S m) (tick host) w)
      with (tick host (Nat.iter m (tick host) w)).
    pose proof (tick_Advance _ (ad_quiet _ _ _ _ A)) as A'.
    destruct (tick_quiet host _ (ad_quiet _ _ _ _ A)) as (_ & N' & _).
    split; [apply (Advance_trans _ _ _ [] [] A A')|].
    rewrite N', N. lia.
Qed.

(** An awaited wait in a quiet session, for a predicate that reads the
    clock and otherwise asks [checkCancelled]. *)
Lemma awaitUntil_quiet :
  forall (P : Z -> bool) (timeout : Z) (w : World),
    quiet host w ->
    1 <= timeout ->
    exists (m : nat) (b : bool) (w' : World),
      awaitUntil host
        (fun w => if P (now w) then (true, w) else checkCancelled host w)
        timeout 1 w
      = (Returned b, w')
      /\ Advance host w w' []
      /\ now w' = now w + Z.of_nat m
      /\ Z.of_nat m <= timeout
      /\ (b = true -> P (now w') = true)
      /\ (b = false -> forall j, 0 <= j <= timeout -> P (now w + j) = false).
Proof.
  intros P timeout w Q T. unfold awaitUntil.
  set (verdict := fun w0 : World =>
                    let '(b, w1) := (if P (now w0) then (true, w0)
                                     else checkCancelled host w0) in
                    (if b then Truthy else Falsy, w1)).
  destruct (waitUntil_clocked (tick host) now (quiet host) P verdict timeout)
    with (w := w) as (m & b & r & E & O & M & Ht & Hf).
  - intros w0 Q0. apply (tick_quiet host w0 Q0).
  - intros w0 Q0. apply (tick_quiet host w0 Q0).
  - intros w0 Q0. unfold verdict.
    rewrite (checkCancelled_quiet host w0 Q0).
    destruct (P (now w0)); reflexivity.
  - exact Q.
  - exact T.
  - destruct (iter_tick_Advance m w Q) as (A & N).
    pose proof (microtasks_Advance _ (ad_quiet _ _ _ _ A)) as A2.
    destruct (microtasks_quiet host _ (ad_quiet _ _ _ _ A)) as (_ & S).
    exists m, b, (microtasks (Nat.iter m (tick host) w)).
    rewrite E, O. split; [reflexivity|].
    split; [apply (Advance_trans _ _ _ [] [] A A2)|].
    split; [rewrite (st_now _ _ S); exact N|].
    split; [exact M|]. split.
    + intros B. rewrite (st_now _ _ S), N. apply Ht, B.
    + intros B. apply Hf, B.
Qed.

Lemma quiet_ext :
  forall w w',
    quiet host w ->
    cancelled w' = cancelled w -> renderLeaf w' = renderLeaf w ->
    deferred w' = deferred w -> pathLogQueue w' = pathLogQueue w ->
    closeListeners w' = closeListeners w ->
    quiet host w'.
Proof.
  intros w w' [] C L D P X. constructor.
  - congruence.
  - destruct q_leaf0 as (l & E). exists l. congruence.
  - rewrite D. assumption.
  - congruence.
  - rewrite X. assumption.
Qed.

Lemma pullPathLogs_quiet : forall w, quiet host w -> pullPathLogs host w = w.
Proof.
  intros w Q. unfold pullPathLogs. rewrite (q_queue _ _ Q). cbn.
  pose proof (q_queue _ _ Q) as E. destruct w. cbn in E. subst. reflexivity.
Qed.

Lemma spawnReport_quiet :
  forall sev title message w,
    quiet host w ->
    quiet host (spawnReport host sev title message false w).
Proof.
  intros sev title message w Q. unfold spawnReport.
  destruct (batchStarted w); cbn [negb]; [|exact Q].
  destruct Q. constructor; cbn.
  - destruct sev; assumption.
  - destruct sev; assumption.
  - apply Forall_app. split; [destruct sev; assumption|].
    constructor; [reflexivity|constructor].
  - destruct sev; assumption.
  - destruct sev; assumption.
Qed.

Lemma spawnReport_benign :
  forall sev title message w,
    sev <> Error ->
    errorInBatch (spawnReport host sev title message false w) = errorInBatch w.
Proof.
  intros sev title message w N. unfold spawnReport.
  destruct (batchStarted w); cbn [negb]; [|reflexivity].
  destruct sev; try reflexivity. contradiction.
Qed.

Lemma ExportLog_log_Advance :
  forall m t w,
    quiet host w -> Advance host w (ExportLog_log host m t w) [infoLine m t].
Proof.
  intros m t w Q. unfold ExportLog_log. rewrite pullPathLogs_quiet by exact Q.
  pose proof (logCore_step host m t w) as S.
  unfold logCore in *.
  destruct (settingsLoaded host && negb (levelIn host ["all"])).
  - constructor; cbn.
    + apply (quiet_ext w); auto.
    + lia.
    + unfold infoLine. rewrite append_nil_r. reflexivity.
    + reflexivity.
    + reflexivity.
  - constructor.
    + apply spawnReport_quiet. apply (quiet_ext w); auto.
    + rewrite (ls_now _ _ S). lia.
    + unfold _reportInfo, spawnReport.
      destruct (batchStarted _); cbn; unfold infoLine;
        rewrite append_nil_r; reflexivity.
    + apply (ls_batchStarted _ _ S).
    + intros _. unfold _reportInfo. rewrite spawnReport_benign by discriminate.
      reflexivity.
Qed.

Lemma ExportLog_warning_Advance :
  forall m t w,
    quiet host w ->
    Advance host w (ExportLog_warning host m t w) [warningLine m t].
Proof.
  intros m t w Q. unfold ExportLog_warning. rewrite pullPathLogs_quiet by exact Q.
  pose proof (warningCore_step host m t w) as S.
  unfold warningCore in *.
  destruct (settingsLoaded host && negb (levelIn host ["warning"; "all"])).
  - constructor; cbn.
    + apply (quiet_ext w); auto.
    + lia.
    + unfold warningLine. rewrite append_nil_r. reflexivity.
    + reflexivity.
    + reflexivity.
  - constructor.
    + apply spawnReport_quiet. apply (quiet_ext w); auto.
    + rewrite (ls_now _ _ S). lia.
    + unfold _reportWarning, spawnReport.
      destruct (batchStarted _); cbn; unfold warningLine;
        rewrite append_nil_r; reflexivity.
    + apply (ls_batchStarted _ _ S).
    + intros _. unfold _reportWarning.
      rewrite spawnReport_benign by discriminate. reflexivity.
Qed.

Lemma ExportLog_error_Advance :
  forall m t w,
    quiet host w ->
    Advance host w (ExportLog_error host m t false w) [errorLine m t].
Proof.
  intros m t w Q. unfold ExportLog_error. rewrite pullPathLogs_quiet by exact Q.
  pose proof (errorCore_step host m t false w) as S.
  assert (NB : Forall benign [errorLine m t] ->
               errorInBatch (errorCore host m t false w) = errorInBatch w).
  { intros F. inversion F as [|? ? H _]; subst.
    exfalso. exact (errorLine_not_benign m t H). }
  unfold errorCore in *. cbn [andb negb] in *.
  destruct (settingsLoaded host && true
            && negb (levelIn host ["error"; "warning"; "all"])).
  - constructor; cbn.
    + apply (quiet_ext w); auto.
    + lia.
    + unfold errorLine. rewrite append_nil_r. reflexivity.
    + reflexivity.
    + reflexivity.
  - constructor.
    + apply spawnReport_quiet. apply (quiet_ext w); auto.
    + rewrite (ls_now _ _ S). lia.
    + unfold _reportError, spawnReport.
      destruct (batchStarted _); cbn; unfold errorLine;
        rewrite append_nil_r; reflexivity.
    + apply (ls_batchStarted _ _ S).
    + exact NB.
Qed.

Lemma failRender_Advance :
  forall file message w,
    quiet host w ->
    Advance host w (failRender host (Some file) message w)
            [errorLine message (failureTitle file)].
Proof.
  intros file message w Q. unfold failRender.
  rewrite (checkCancelled_quiet host w Q).
  apply ExportLog_error_Advance. exact Q.
Qed.

(** A loop of log calls. *)
Lemma fold_Advance :
  forall (A : Type) (f : World -> A -> World) (l : list A) (w : World),
    (forall w a, quiet host w ->
       exists lines, Advance host w (f w a) lines /\ Forall benign lines) ->
    quiet host w ->
    exists lines, Advance host w (fold_left f l w) lines /\ Forall benign lines.
Proof.
  intros A f l. induction l as [|a l IH]; intros w H Q; cbn [fold_left].
  - exists []. split; [apply Advance_refl, Q|constructor].
  - destruct (H w a Q) as (l1 & A1 & B1).
    destruct (IH (f w a) H (ad_quiet _ _ _ _ A1)) as (l2 & A2 & B2).
    exists (l1 ++ l2). split; [eapply Advance_trans; eassumption|].
    apply Forall_app. split; assumption.
Qed.

End AdvanceFacts.

(** ** The clock *)

Section ClockFacts.
Variable host : Host.

Lemma fold_left_now :
  forall (A : Type) (f : World -> A -> World) (l : list A) (w : World),
    (forall w a, now (f w a) = now w) ->
    now (fold_left f l w) = now w.
Proof.
  intros A f l. induction l as [|a l IH]; intros w H; [reflexivity|].
  cbn [fold_left]. rewrite (IH _ H). apply H.
Qed.

Lemma appendLogEl_now :
  forall sev title message w, now (appendLogEl sev title message w) = now w.
Proof.
  intros. apply (st_now _ _ (proj1 (appendLogEl_Still sev title message w))).
Qed.

Lemma resumeReport_now :
  forall d found w, now (resumeReport d found w) = now w.
Proof.
  intros d found w. unfold resumeReport.
  destruct found; cbn [negb]; [|reflexivity].
  destruct (dFatal d); cbn [now set_logContainer set_loadingContainer set_renderLeaf];
    apply appendLogEl_now.
Qed.

Lemma microtasks_now : forall w, now (microtasks w) = now w.
Proof.
  intros w. unfold microtasks.
  rewrite fold_left_now; [reflexivity|].
  intros. apply resumeReport_now.
Qed.

Lemma pollDeferred_now : forall d w, now (pollDeferred host d w) = now w.
Proof.
  intros d w. unfold pollDeferred.
  destruct (dDue d) as [t|]; [|reflexivity].
  destruct (t <=? now w); cbn [negb]; [|reflexivity].
  destruct (leafRooted host w); [apply resumeReport_now|].
  destruct (100 <=? dTimer d + 10); [apply resumeReport_now|reflexivity].
Qed.

Lemma fireTimers_now : forall w, now (fireTimers host w) = now w.
Proof.
  intros w. unfold fireTimers.
  rewrite fold_left_now; [reflexivity|].
  intros. apply pollDeferred_now.
Qed.

Lemma reportProgress_now :
  forall f m s c w, now (_reportProgress host f m s c w) = now w.
Proof.
  intros. unfold _reportProgress.
  destruct (batchStarted w); cbn [negb]; [|reflexivity].
  destruct (renderLeaf w) as [l|]; [|reflexivity].
  destruct (attached host l (now w)); cbn [negb]; [|reflexivity].
  destruct (existsb _ _); cbn [negb]; [|reflexivity].
  destruct (electronWindow _); reflexivity.
Qed.

Lemma endBatch_now : forall w, now (endBatch host w) = now w.
Proof.
  intros w. unfold endBatch.
  destruct (batchStarted w); cbn [negb]; [|reflexivity].
  cbn [now set_batchStarted set_fileListContainer set_loadingContainer
       set_renderLeaf set_electronWindow].
  destruct (renderLeaf w) as [l|]; [|reflexivity].
  destruct (errorInBatch w); cbn [negb].
  - rewrite reportProgress_now.
    apply (ls_now _ _ (ExportLog_warning_step host _ _ w)).
  - cbn [now emit set_trace].
    apply (ls_now _ _ (ExportLog_log_step host _ _ w)).
Qed.

Lemma windowClosed_now : forall w, now (windowClosed host w) = now w.
Proof.
  intros w. unfold windowClosed.
  destruct (cancelled w); [reflexivity|].
  destruct (electronWindow _); cbn [now set_closeListeners set_cancelled];
    apply endBatch_now.
Qed.

Lemma fireCloses_now : forall w, now (fireCloses host w) = now w.
Proof.
  intros w. unfold fireCloses.
  apply fold_left_now. intros. apply windowClosed_now.
Qed.

Lemma tick_now : forall w, now (tick host w) = now w + 1.
Proof.
  intros w. unfold tick.
  rewrite microtasks_now, fireTimers_now, fireCloses_now. destruct w. reflexivity.
Qed.

Lemma iter_tick_now :
  forall m w, now (Nat.iter m (tick host) w) = now w + Z.of_nat m.
Proof.
  induction m as [|m IH]; intros w; [cbn; lia|].
  change (Nat.iter (S m) (tick host) w)
    with (tick host (Nat.iter m (tick host) w)).
  rewrite tick_now, IH. lia.
Qed.

(** [await delay(ms)] takes [ms] milliseconds, whatever the session. *)
Lemma delay_now :
  forall ms w w',
    0 <= ms ->
    delay host ms w = (Returned tt, w') -> now w' = now w + ms.
Proof.
  intros ms w w' P E. unfold delay, act, elapse in E. inversion E.
  rewrite microtasks_now, iter_tick_now. lia.
Qed.

Lemma checkCancelled_now :
  forall w, now (snd (checkCancelled host w)) = now w.
Proof.
  intros w. unfold checkCancelled.
  destruct (cancelled w || _); [|reflexivity].
  cbn [snd]. rewrite endBatch_now.
  apply (ls_now _ _ (ExportLog_log_step host _ _ w)).
Qed.

End ClockFacts.

(** ** The markdown section renderer *)

Section BindFacts.
Variable host : Host.

Lemma bind_eq :
  forall (A B : Type) (m : M A) (k : A -> M B) (w w1 : World) (a : A),
    m w = (Returned a, w1) -> bind m k w = k a w1.
Proof. intros A B m k w w1 a E. unfold bind. rewrite E. reflexivity. Qed.

Lemma bind_act :
  forall (B : Type) (f : World -> World) (k : unit -> M B) (w : World),
    bind (act f) k w = k tt (f w).
Proof. reflexivity. Qed.

Lemma bind_ret :
  forall (A B : Type) (a : A) (k : A -> M B) (w : World),
    bind (ret a) k w = k a w.
Proof. reflexivity. Qed.

Lemma bind_call :
  forall (A B : Type) (f : World -> A * World) (k : A -> M B) (w : World),
    bind (call f) k w = k (fst (f w)) (snd (f w)).
Proof.
  intros A B f k w. unfold bind, call. destruct (f w). reflexivity.
Qed.

End BindFacts.

Section SectionFacts.
Variable host : Host.
Variable preview : Preview.



(** A section whose render and measure steps complete in time is rendered
    whatever its transclusions and plugin blocks do; only info and warning
    lines are logged, among them the transclusion warning when the
    transclusions never fill in. *)
Lemma renderSection_timely :
  forall sec w,
    quiet host w ->
    timely sec ->
    exists el w' lines,
      renderSection host preview sec w = (Returned (Some el), w')
      /\ Advance host w w' lines
      /\ Forall benign lines
      /\ ((forall t, hasEmptySizer (sElAt sec t) = true) ->
          In (transclusionWarning (pFile preview)) lines).
Proof.
  intros sec w Q (d1 & d2 & D1 & L1 & D2 & L2). unfold renderSection. cbv zeta.
  unfold yield. rewrite bind_act.
  pose proof (microtasks_Advance host w Q) as A0.
  destruct (microtasks_quiet host w Q) as (Q0 & S0).
  destruct (awaitUntil_quiet host (rendered sec (now w)) 2000 (microtasks w) Q0)
    as (m & b & w1 & E & A1 & N1 & M1 & _ & Hf); [lia|].
  rewrite (bind_eq _ _ _ _ _ _ _ E).
  destruct b.
  2:{ exfalso. specialize (Hf eq_refl (Z.max 0 d1) ltac:(lia)).
      unfold rendered in Hf. rewrite D1, (st_now _ _ S0) in Hf.
      apply Z.leb_gt in Hf. lia. }
  cbn [negb]. rewrite bind_call. cbn [fst snd]. rewrite bind_act.
  pose proof (ad_quiet _ _ _ _ A1) as Q1.
  pose proof (microtasks_Advance host w1 Q1) as A2.
  destruct (microtasks_quiet host w1 Q1) as (Q2 & S2).
  destruct (awaitUntil_quiet host (computed sec (now w1)) 2000 (microtasks w1) Q2)
    as (m2 & b2 & w2 & E2 & A3 & N3 & M3 & _ & Hf2); [lia|].
  rewrite (bind_eq _ _ _ _ _ _ _ E2).
  destruct b2.
  2:{ exfalso. specialize (Hf2 eq_refl (Z.max 0 d2) ltac:(lia)).
      unfold computed in Hf2. rewrite D2, (st_now _ _ S2) in Hf2.
      apply Z.leb_gt in Hf2. lia. }
  cbn [negb]. rewrite bind_act.
  pose proof (ad_quiet _ _ _ _ A3) as Q3.
  pose proof (microtasks_Advance host w2 Q3) as A4.
  destruct (microtasks_quiet host w2 Q3) as (Q4 & _).
  destruct (awaitUntil_quiet host
              (fun t => negb (hasEmptySizer (sElAt sec (t - now w))))
              500 (microtasks w2) Q4)
    as (m3 & b3 & w3 & E3 & A5 & _); [lia|].
  rewrite (bind_eq _ _ _ _ _ _ _ E3).
  pose proof (ad_quiet _ _ _ _ A5) as Q5.
  rewrite bind_call, (checkCancelled_quiet host w3 Q5). cbn [fst snd].
  rewrite bind_call. cbn [fst snd].
  set (el1 := sElAt sec (now w3 - now w)).
  assert (W : exists w4 l4,
             (if hasEmptySizer el1
              then act (ExportLog_warning host
                          ("Transclusions were not rendered correctly in file "
                             ++ name (pFile preview) ++ "!")%string "")
              else ret tt) w3 = (Returned tt, w4)
             /\ Advance host w3 w4 l4 /\ Forall benign l4
             /\ (hasEmptySizer el1 = true ->
                 In (transclusionWarning (pFile preview)) l4)).
  { destruct (hasEmptySizer el1).
    - eexists. eexists. split; [reflexivity|].
      split; [apply ExportLog_warning_Advance, Q5|]. split.
      + constructor; [|constructor]. eexists. eexists. right. reflexivity.
      + intros _. left. reflexivity.
    - exists w3, []. split; [reflexivity|].
      split; [apply Advance_refl, Q5|]. split; [constructor|discriminate]. }
  destruct W as (w4 & l4 & E4 & A6 & B6 & I6).
  rewrite (bind_eq _ _ _ _ _ _ _ E4).
  pose proof (ad_quiet _ _ _ _ A6) as Q6.
  destruct (awaitUntil_quiet host
              (fun t => negb (hasDescendant isEmptyPluginBlock
                                             (sElAt sec (t - now w))))
              500 w4 Q6)
    as (m5 & b5 & w5 & E5 & A7 & _); [lia|].
  rewrite (bind_eq _ _ _ _ _ _ _ E5).
  pose proof (ad_quiet _ _ _ _ A7) as Q7.
  rewrite bind_call, (checkCancelled_quiet host w5 Q7). cbn [fst snd].
  rewrite bind_call. cbn [fst snd].
  set (el2 := sElAt sec (now w5 - now w)).
  rewrite bind_act.
  match goal with
  | |- context [fold_left ?f ?l w5] =>
      destruct (fold_Advance host _ f l w5) as (l8 & A8 & B8); [|exact Q7|]
  end.
  { intros w0 canvas Q0'. destruct (degenerate host canvas).
    - eexists. split; [apply ExportLog_log_Advance, Q0'|].
      constructor; [|constructor]. eexists. eexists. left. reflexivity.
    - exists []. split; [apply Advance_refl, Q0'|constructor]. }
  rewrite bind_act.
  pose proof (ad_quiet _ _ _ _ A8) as Q8.
  match goal with
  | |- context [fold_left ?f ?l ?x] =>
      destruct (fold_Advance host _ f l x) as (l9 & A9 & B9); [|exact Q8|]
  end.
  { intros w0 block Q0'.
    eexists. split; [apply ExportLog_warning_Advance, Q0'|].
    constructor; [|constructor]. eexists. eexists. right. reflexivity. }
  unfold ret. eexists. eexists. eexists. split; [reflexivity|].
  split; [|split].
  - eapply (Advance_trans host _ _ _ [] _ A0).
    eapply (Advance_trans host _ _ _ [] _ A1).
    eapply (Advance_trans host _ _ _ [] _ A2).
    eapply (Advance_trans host _ _ _ [] _ A3).
    eapply (Advance_trans host _ _ _ [] _ A4).
    eapply (Advance_trans host _ _ _ [] _ A5).
    eapply (Advance_trans host _ _ _ l4 _ A6).
    eapply (Advance_trans host _ _ _ [] _ A7).
    eapply (Advance_trans host _ _ _ l8 l9 A8). exact A9.
  - cbn [app]. repeat (apply Forall_app; split); assumption.
  - intros H. cbn [app]. apply in_or_app. left. apply I6. apply H.
Qed.

End SectionFacts.

Section DocumentFacts.
Variable host : Host.
Variable preview : Preview.


Lemma renderSections_timely :
  forall secs w,
    quiet host w ->
    Forall timely secs ->
    exists els w' lines,
      renderSections host preview secs w = (Returned (Some els), w')
      /\ Advance host w w' lines
      /\ Forall benign lines
      /\ (forall sec, In sec secs ->
            (forall t, hasEmptySizer (sElAt sec t) = true) ->
            In (transclusionWarning (pFile preview)) lines).
Proof.
  induction secs as [|sec secs IH]; intros w Q T.
  - exists [], w, []. split; [reflexivity|].
    split; [apply Advance_refl, Q|]. split; [constructor|].
    intros sec [].
  - inversion T as [|? ? T1 T2]; subst.
    destruct (renderSection_timely host preview sec w Q T1)
      as (el & w1 & l1 & E1 & A1 & B1 & I1).
    destruct (IH w1 (ad_quiet _ _ _ _ A1) T2)
      as (els & w2 & l2 & E2 & A2 & B2 & I2).
    exists (el :: els), w2, (l1 ++ l2).
    cbn [renderSections].
    rewrite (bind_eq _ _ _ _ _ _ _ E1), (bind_eq _ _ _ _ _ _ _ E2).
    split; [reflexivity|].
    split; [eapply Advance_trans; eassumption|].
    split; [apply Forall_app; split; assumption|].
    intros s [<-|In'] H; apply in_or_app.
    + left. apply I1, H.
    + right. apply (I2 s In' H).
Qed.



(** The steps of [renderMarkdownView] before the loop over the sections. *)
Lemma prologue_Advance :
  forall (B : Type) (k : M B) (w : World),
    quiet host w ->
    exists w1 lines,
      bind yield
           (fun _ =>
              bind (match pUnfoldError preview with
                    | Some e =>
                        act (ExportLog_error host e
                               "Failed to unfold or parse renderer!" false)
                    | None => ret tt
                    end)
                   (fun _ => bind yield (fun _ => k))) w
      = k w1
      /\ Advance host w w1 lines
      /\ (pUnfoldError preview = None -> lines = []).
Proof.
  intros B k w Q. unfold yield. rewrite bind_act.
  pose proof (microtasks_Advance host w Q) as A0.
  pose proof (ad_quiet _ _ _ _ A0) as Q0.
  destruct (pUnfoldError preview) as [e|].
  - rewrite !bind_act.
    pose proof (ExportLog_error_Advance host e
                  "Failed to unfold or parse renderer!" _ Q0) as A1.
    pose proof (microtasks_Advance host _ (ad_quiet _ _ _ _ A1)) as A2.
    eexists. eexists. split; [reflexivity|]. split.
    + eapply (Advance_trans host _ _ _ [] _ A0).
      eapply (Advance_trans host _ _ _ _ [] A1). exact A2.
    + discriminate.
  - rewrite bind_ret, bind_act.
    pose proof (microtasks_Advance host _ Q0) as A2.
    eexists. exists []. split; [reflexivity|]. split.
    + apply (Advance_trans host _ _ _ [] [] A0 A2).
    + reflexivity.
Qed.

End DocumentFacts.

(** ** The time a wait takes *)








Section SettledWait.
Context {W : Type}.
Variable tick : W -> W.
Variable clock : W -> Z.
Variable Inv : W -> Prop.
Variable P : Z -> bool.
Variable condition : @Condition W.
Variable timeout : Z.

Hypothesis tick_inv : forall w, Inv w -> Inv (tick w).
Hypothesis tick_clock : forall w, Inv w -> clock (tick w) = clock w + 1.
Hypothesis condition_reads :
  forall w, Inv w -> condition w = ((if P (clock w) then Truthy else Falsy), w).



End SettledWait.

Section ExactFacts.
Variable host : Host.



End ExactFacts.


Section SectionExact.
Variable host : Host.
Variable preview : Preview.




End SectionExact.

Section DocumentExact.
Variable host : Host.
Variable preview : Preview.




End DocumentExact.



(** ** Element references *)

(** Induction over trees: a property holds of every node when it holds of
    text nodes and of an element whose children have it. *)
Fixpoint node_induction (P : node -> Prop)
         (onText : forall s, P (Text s))
         (onElem : forall t a s v kids, Forall P kids -> P (Elem t a s v kids))
         (n : node) : P n :=
  match n with
  | Text s => onText s
  | Elem t a s v kids =>
      onElem t a s v kids
             ((fix all (l : list node) : Forall P l :=
                 match l with
                 | [] => Forall_nil P
                 | k :: rest =>
                     Forall_cons k (node_induction P onText onElem k) (all rest)
                 end) kids)
  end.

Lemma nodeAt_app :
  forall a b n,
    nodeAt (a ++ b) n
    = match nodeAt a n with Some x => nodeAt b x | None => None end.
Proof.
  induction a as [|i a IH]; intros b n; [reflexivity|].
  cbn [app nodeAt]. destruct (nth_error (kidsOf n) i); [apply IH|reflexivity].
Qed.

Lemma nth_error_updateNth :
  forall i f l k,
    nth_error l i = Some k -> nth_error (updateNth i f l) i = Some (f k).
Proof.
  induction i as [|i IH]; intros f [|x l] k H; cbn in *; try discriminate.
  - inversion H. reflexivity.
  - apply IH, H.
Qed.

Lemma nodeAt_updateAt :
  forall place f n k,
    nodeAt place n = Some k -> nodeAt place (updateAt place f n) = Some (f k).
Proof.
  induction place as [|i place IH]; intros f n k H.
  - cbn in *. inversion H. reflexivity.
  - cbn [nodeAt] in H. destruct n as [s|t a s v kids]; cbn [kidsOf] in H.
    + destruct i; discriminate.
    + cbn [updateAt nodeAt kidsOf].
      destruct (nth_error kids i) as [x|] eqn:E; [|discriminate].
      rewrite (nth_error_updateNth i _ kids x E). apply IH, H.
Qed.

(** Updating below a place leaves the element at that place with its own
    tag, attributes and style. *)
Lemma nodeAt_updateAt_below :
  forall parent rest f n par,
    nodeAt parent n = Some par ->
    nodeAt parent (updateAt (parent ++ rest) f n) = Some (updateAt rest f par).
Proof.
  induction parent as [|i parent IH]; intros rest f n par H.
  - cbn in *. inversion H. reflexivity.
  - cbn [nodeAt] in H. destruct n as [s|t a s v kids]; cbn [kidsOf] in H.
    + destruct i; discriminate.
    + cbn [app updateAt nodeAt kidsOf].
      destruct (nth_error kids i) as [x|] eqn:E; [|discriminate].
      rewrite (nth_error_updateNth i _ kids x E). apply IH, H.
Qed.

Lemma firstIn_found :
  forall p inside ks i pp j,
    (forall k pp j, In k ks -> inside k = Some (pp, j) ->
       exists par x, nodeAt pp k = Some par
                     /\ nth_error (kidsOf par) j = Some x /\ p x = true) ->
    firstIn p inside i ks = Some (pp, j) ->
    (pp = [] /\ exists x, nth_error ks (j - i) = Some x /\ p x = true
                          /\ (i <= j)%nat)
    \/ (exists m pp' k par x,
          pp = m :: pp' /\ (i <= m)%nat /\ nth_error ks (m - i) = Some k
          /\ nodeAt pp' k = Some par
          /\ nth_error (kidsOf par) j = Some x /\ p x = true).
Proof.
  intros p inside ks. induction ks as [|k ks IH]; intros i pp j Hin H;
    cbn [firstIn] in H; [discriminate|].
  destruct (p k) eqn:P.
  - inversion H; subst. left. split; [reflexivity|].
    exists k. rewrite Nat.sub_diag. cbn. auto.
  - destruct (inside k) as [[pp0 j0]|] eqn:I.
    + inversion H; subst.
      destruct (Hin k pp0 j (or_introl eq_refl) I) as (par & x & N & E & Px).
      right. exists i, pp0, k, par, x. rewrite Nat.sub_diag. cbn. auto 10.
    + destruct (IH (S i) pp j) as [(Epp & x & E & Px & L)|
                                    (m & pp' & k' & par & x & Epp & L & E & N & E' & Px)].
      * intros k0 pp0 j0 In0. apply Hin. right. exact In0.
      * exact H.
      * left. split; [exact Epp|]. exists x.
        replace (j - i)%nat with (S (j - S i)) by lia. cbn. split; [exact E|].
        split; [exact Px|lia].
      * right. exists m, pp', k', par, x.
        replace (m - i)%nat with (S (m - S i)) by lia. cbn.
        repeat split; try assumption. lia.
Qed.

(** The reference [firstMatch] gives leads to an element that satisfies the
    selector, below a parent that is in the tree. *)
Lemma firstMatch_found :
  forall p n pp j,
    firstMatch p n = Some (pp, j) ->
    exists par x,
      nodeAt pp n = Some par /\ nth_error (kidsOf par) j = Some x /\ p x = true.
Proof.
  intros p n. induction n as [s|t a s v kids IH] using node_induction;
    intros pp j H; cbn [firstMatch] in H; [discriminate|].
  assert (Kids : forall k pp j, In k kids -> firstMatch p k = Some (pp, j) ->
                 exists par x, nodeAt pp k = Some par
                               /\ nth_error (kidsOf par) j = Some x /\ p x = true).
  { intros k pp0 j0 In0. rewrite Forall_forall in IH. apply (IH k In0). }
  destruct (firstIn_found p (firstMatch p) kids 0 pp j Kids H)
    as [(-> & x & E & Px & _)|(m & pp' & k & par & x & -> & _ & E & N & E' & Px)].
  - rewrite Nat.sub_0_r in E. exists (Elem t a s v kids), x. cbn. auto.
  - rewrite Nat.sub_0_r in E. exists par, x. cbn [nodeAt kidsOf]. rewrite E. auto.
Qed.

Lemma lookup_assign_same :
  forall name v l, lookup name (assign name v l) = Some v.
Proof.
  intros name v l. induction l as [|[k v0] l IH]; cbn.
  - rewrite String.eqb_refl. reflexivity.
  - destruct (String.eqb k name) eqn:E; cbn; rewrite E; [reflexivity|exact IH].
Qed.

Lemma getAttribute_setAttribute :
  forall name v n, isElement n = true -> getAttribute name (setAttribute name v n) = Some v.
Proof.
  intros name v [s|t a st val k] H; [discriminate|].
  apply lookup_assign_same.
Qed.

Lemma kidsOf_setAttribute :
  forall name v n, kidsOf (setAttribute name v n) = kidsOf n.
Proof. intros name v []; reflexivity. Qed.

Lemma kidsOf_classListAdd : forall c n, kidsOf (classListAdd c n) = kidsOf n.
Proof. intros c n. unfold classListAdd. apply kidsOf_setAttribute. Qed.

Lemma isElement_setAttribute :
  forall name v n, isElement (setAttribute name v n) = isElement n.
Proof. intros name v []; reflexivity. Qed.

Lemma isElement_classListAdd : forall c n, isElement (classListAdd c n) = isElement n.
Proof. intros c n. unfold classListAdd. apply isElement_setAttribute. Qed.

Lemma kidsOf_updateAt_child :
  forall i f par x,
    nth_error (kidsOf par) i = Some x ->
    isElement (updateAt [i] f par) = true
    /\ nth_error (kidsOf (updateAt [i] f par)) i = Some (f x).
Proof.
  intros i f [s|t a st v kids] x H; cbn [kidsOf] in H.
  - destruct i; discriminate.
  - cbn [updateAt kidsOf isElement]. split; [reflexivity|].
    apply (nth_error_updateNth i (updateAt [] f) kids x H).
Qed.

(** ** Results of asynchronous functions *)

(** Every value the function returns satisfies [P]. *)
Definition Post {A : Type} (P : A -> Prop) (m : M A) : Prop :=
  forall w a w', m w = (Returned a, w') -> P a.

Lemma Post_bind :
  forall (A B : Type) (P : B -> Prop) (m : M A) (k : A -> M B),
    (forall a, Post P (k a)) -> Post P (bind m k).
Proof.
  intros A B P m k H w b w' E. unfold bind in E.
  destruct (m w) as [[a|e|] w1]; try discriminate.
  apply (H a w1 b w' E).
Qed.

Lemma Post_ret : forall (A : Type) (P : A -> Prop) (a : A), P a -> Post P (ret a).
Proof. intros A P a H w a' w' E. inversion E. subst. exact H. Qed.

(** What [renderMarkdownView] returns with an element is that element
    appended to the container of the options; with [undefined], the
    container as it was. *)
Lemma renderMarkdownView_container :
  forall host preview options,
    Post (fun r => snd r = match fst r with
                           | Some html => intoContainer options html
                           | None => container options
                           end)
         (renderMarkdownView host preview options).
Proof.
  intros host preview options. unfold renderMarkdownView.
  apply Post_bind. intros _. apply Post_bind. intros _.
  apply Post_bind. intros _. apply Post_bind. intros [els|].
  - apply Post_bind. intros _. apply Post_ret. reflexivity.
  - apply Post_ret. reflexivity.
Qed.

(** C1, as the code has it.  For a canvas node that embeds a file, has an
    embed element and a child preview (and is not a link card), the embed
    element is emptied, and then: when [options.inlineHTML] is set or the
    path of the file is NOT among the exported paths, the markdown section
    renderer runs on the child preview with the embed element for its
    container, so that the document it returns becomes the only child of
    the embed element; otherwise nothing is rendered, the content of the
    embed element is what [IncludeGenerator.generate] gives for the path,
    and the parent of the embed element carries the path in its [src]
    attribute. *)
Theorem renderCanvasNode_embed_decision :
  forall (host : Host) (allExportedPaths : list string)
         (options : MarkdownRendererOptions) (cn : CanvasNode)
         (nodeFile : TFile) (childPreview : Preview)
         (parent : list nat) (i : nat),
    nFile cn = Some nodeFile ->
    nChildPreview cn = Some childPreview ->
    firstMatch isEmbedContent (nNodeEl cn) = Some (parent, i) ->
    nUrl cn = None ->
    exists embedEl,
      nodeAt (parent ++ [i]) (nNodeEl cn) = Some embedEl
      /\ isEmbedContent embedEl = true
      /\ ((inlineHTML options
           || negb (contains allExportedPaths (path nodeFile))) = true ->
          forall w,
            (forall r w',
               renderMarkdownView host childPreview
                 (set_container (Some (setKids [] embedEl)) options) w
               = (r, w') ->
               match r with
               | Returned (Some html, _) =>
                   exists nodeEl',
                     renderCanvasNode host allExportedPaths options cn w
                     = (Returned nodeEl', w')
                     /\ nodeAt (parent ++ [i]) nodeEl'
                        = Some (appendChild html (setKids [] embedEl))
               | Returned (None, _) =>
                   exists nodeEl',
                     renderCanvasNode host allExportedPaths options cn w
                     = (Returned nodeEl', w')
                     /\ nodeAt (parent ++ [i]) nodeEl' = Some (setKids [] embedEl)
               | Thrown e =>
                   renderCanvasNode host allExportedPaths options cn w
                   = (Thrown e, w')
               | Hung =>
                   renderCanvasNode host allExportedPaths options cn w = (Hung, w')
               end))
      /\ ((inlineHTML options
           || negb (contains allExportedPaths (path nodeFile))) = false ->
          forall w,
            exists nodeEl',
              renderCanvasNode host allExportedPaths options cn w
              = (Returned nodeEl', w)
              /\ (exists par, nodeAt parent nodeEl' = Some par
                              /\ getAttribute "src" par = Some (path nodeFile))
              /\ (exists e, nodeAt (parent ++ [i]) nodeEl' = Some e
                            /\ kidsOf e = includeGenerate host (path nodeFile))).
Proof.
  intros host allExportedPaths options cn nodeFile childPreview parent i
         F C M U.
  destruct (firstMatch_found _ _ _ _ M) as (par & x & Np & Nx & Px).
  assert (Ex : isElement x = true).
  { unfold isEmbedContent, hasClass in Px. destruct (isElement x); [reflexivity|].
    discriminate. }
  assert (Nplace : nodeAt (parent ++ [i]) (nNodeEl cn) = Some x).
  { rewrite nodeAt_app, Np. cbn. rewrite Nx. reflexivity. }
  set (place := parent ++ [i]) in *.
  set (cleared := updateAt place (setKids []) (nNodeEl cn)).
  assert (Nc : nodeAt place cleared = Some (setKids [] x))
    by (apply nodeAt_updateAt, Nplace).
  exists x. split; [exact Nplace|]. split; [exact Px|]. split.
  - intros D w r w' E.
    assert (Shape : renderCanvasNode host allExportedPaths options cn w
                    = bind (inlineEmbed host childPreview place (setKids [] x)
                                        options cleared)
                           (fun nodeEl => ret nodeEl) w).
    { unfold renderCanvasNode. rewrite M, F, C, D, U.
      fold place. fold cleared. rewrite Nc. reflexivity. }
    rewrite Shape. unfold inlineEmbed, bind. rewrite E.
    destruct r as [[[html|] c]|e|]; try reflexivity.
    + pose proof (renderMarkdownView_container host childPreview _ _ _ _ E) as K.
      cbn [fst snd intoContainer set_container container option_map] in K.
      subst c. cbn [snd]. eexists. split; [reflexivity|].
      apply (nodeAt_updateAt place (fun _ => appendChild html (setKids [] x))
                             cleared (setKids [] x) Nc).
    + pose proof (renderMarkdownView_container host childPreview _ _ _ _ E) as K.
      cbn [fst snd set_container container] in K. subst c. cbn [snd].
      eexists. split; [reflexivity|].
      apply (nodeAt_updateAt place (fun _ => setKids [] x) cleared
                             (setKids [] x) Nc).
  - intros D w.
    eexists. split.
    { unfold renderCanvasNode. rewrite M, F, D, U. fold place. fold cleared.
      rewrite bind_ret. reflexivity. }
    unfold referencePlaceholder. fold place.
    set (inc := includeGenerate host (path nodeFile)).
    assert (P1 : nodeAt parent cleared = Some (updateAt [i] (setKids []) par))
      by (apply nodeAt_updateAt_below, Np).
    assert (P2 : nodeAt parent (updateAt place (setKids inc) cleared)
                 = Some (updateAt [i] (setKids inc) (updateAt [i] (setKids []) par)))
      by (apply nodeAt_updateAt_below, P1).
    set (par2 := updateAt [i] (setKids inc) (updateAt [i] (setKids []) par)) in *.
    destruct (kidsOf_updateAt_child i (setKids []) par x Nx) as (E1 & K1).
    destruct (kidsOf_updateAt_child i (setKids inc) _ _ K1) as (E2 & K2).
    fold par2 in E2, K2.
    pose proof (nodeAt_updateAt parent (classListAdd "external-markdown-embed")
                  _ _ P2) as P3.
    pose proof (nodeAt_updateAt parent (setAttribute "src" (path nodeFile))
                  _ _ P3) as P4.
    split.
    + eexists. split; [exact P4|].
      apply getAttribute_setAttribute.
      rewrite isElement_classListAdd. exact E2.
    + exists (setKids inc (setKids [] x)). split.
      * unfold place at 1. rewrite nodeAt_app, P4. cbn [nodeAt].
        rewrite kidsOf_setAttribute, kidsOf_classListAdd, K2. reflexivity.
      * destruct x; [discriminate|reflexivity].
Qed.

Lemma renderCanvasNode_embed_decision_witness :
  (exists nodeEl' w',
     renderCanvasNode readyHost [] defaultOptions embedNode activeWorld
     = (Returned nodeEl', w')
     /\ exists html,
          nodeAt [0; 0; 0]%nat nodeEl'
          = Some (Elem "div" [("class", "markdown-embed-content node-insert-event")]
                       [] None [html])
          /\ hasClass "obsidian-document" html = true)
  /\ (exists nodeEl',
        renderCanvasNode readyHost ["nested.md"] defaultOptions embedNode activeWorld
        = (Returned nodeEl', activeWorld)
        /\ (exists par, nodeAt [0; 0]%nat nodeEl' = Some par
                        /\ getAttribute "src" par = Some "nested.md")
        /\ (exists e, nodeAt [0; 0; 0]%nat nodeEl' = Some e
                      /\ kidsOf e = [Text "include nested.md"])).
Proof.
  destruct (renderCanvasNode_embed_decision readyHost [] defaultOptions embedNode
              nestedFile nestedPreview [0; 0]%nat 0%nat
              eq_refl eq_refl eq_refl eq_refl)
    as (e1 & N1 & _ & Inline & _).
  destruct (renderCanvasNode_embed_decision readyHost ["nested.md"] defaultOptions
              embedNode nestedFile nestedPreview [0; 0]%nat 0%nat
              eq_refl eq_refl eq_refl eq_refl)
    as (e2 & N2 & _ & _ & Reference).
  split.
  - vm_compute in N1. inversion N1. subst e1. clear N1.
    specialize (Inline eq_refl activeWorld).
    destruct (renderMarkdownView readyHost nestedPreview
                (set_container
                   (Some (setKids []
                            (Elem "div"
                                  [("class", "markdown-embed-content node-insert-event")]
                                  [] None [Text "stale"]))) defaultOptions)
                activeWorld) as [r w'] eqn:E.
    specialize (Inline r w' eq_refl).
    vm_compute in E. inversion E. subst r. clear E.
    destruct Inline as (nodeEl' & R & N).
    exists nodeEl', w'. split; [exact R|].
    eexists. split; [exact N|]. vm_compute. reflexivity.
  - apply (Reference eq_refl activeWorld).
Defined.

(** C1 as stated fails in both directions: with [inlineHTML] unset, a node
    whose file IS among the exported paths gets the reference placeholder
    and nothing is rendered, and a node whose file is NOT among them gets
    the document inlined and no [src] attribute. *)
Lemma renderCanvasNode_decision_counterexample :
  inlineHTML defaultOptions = false
  /\ renderCanvasNode readyHost ["nested.md"] defaultOptions embedNode activeWorld
     = (Returned
          (Elem "div" [("class", "canvas-node")] [] None
             [Elem "div" [("class", "canvas-node-container")] [] None
                [Elem "div"
                   [("class",
                     "canvas-node-content markdown-embed external-markdown-embed");
                    ("src", "nested.md")] [] None
                   [Elem "div"
                      [("class", "markdown-embed-content node-insert-event")]
                      [] None [Text "include nested.md"]]]]),
        activeWorld)
  /\ fst (renderCanvasNode readyHost [] defaultOptions embedNode activeWorld)
     = Returned
         (Elem "div" [("class", "canvas-node")] [] None
            [Elem "div" [("class", "canvas-node-container")] [] None
               [Elem "div" [("class", "canvas-node-content markdown-embed")]
                  [] None
                  [Elem "div"
                     [("class", "markdown-embed-content node-insert-event")]
                     [] None
                     [Elem "div"
                        [("class", "obsidian-document markdown-preview-view")]
                        [] None
                        [Elem "div" [("class", "markdown-sizer")] [] None
                           [Elem "div" [] [] None
                              [Elem "p" [] [] None [Text "hello"]]]]]]]]).
Proof. vm_compute. repeat split; reflexivity. Qed.

Lemma activeWorld_quiet : quiet readyHost activeWorld.
Proof.
  constructor.
  - vm_compute. reflexivity.
  - eexists. vm_compute. reflexivity.
  - vm_compute. constructor.
  - vm_compute. reflexivity.
  - vm_compute. repeat constructor.
Qed.



Lemma waitUntil_contract_witness :
  waitUntil Z.succ 10 (trueFrom 0) 10 1 0
  = (mkWaitReport (Resolved true) false 0 0, 0)
  /\ waitUntil Z.succ 10 (trueFrom 3) 10 1 0
     = (mkWaitReport (Resolved true) true 3 2, 3)
  /\ waitUntil Z.succ 10 neverTrue 5 2 0
     = (mkWaitReport (Resolved false) true 3 6, 6)
  /\ exists b, outcome (fst (waitUntil Z.succ 3 neverTrue 5 2 0)) = Resolved b.
Proof.
  split; [|split; [|split]].
  - apply (proj1 (waitUntil_contract Z Z.succ (trueFrom 0) 10 1 0)). reflexivity.
  - destruct (waitUntil_contract Z Z.succ (trueFrom 3) 10 1 0) as (_ & H & _).
    apply (H 2%nat); try lia; try reflexivity.
    intros j Hj. destruct j as [|[|[|j]]]; try reflexivity. lia.
  - destruct (waitUntil_contract Z Z.succ neverTrue 5 2 0) as (_ & _ & H & _).
    apply (H ltac:(lia)); [|vm_compute; lia].
    intros j _. destruct j; reflexivity.
  - destruct (waitUntil_contract Z Z.succ neverTrue 5 2 0) as (_ & _ & _ & H).
    destruct H as (_ & S).
    + intros w e. discriminate.
    + apply (S ltac:(lia)). vm_compute. lia.
Defined.

(** ** The heading tree builder *)

Lemma walkSiblings_spec :
  forall headerEl after,
    Forall (fun x => lisElement x = true /\ stopsAt headerEl x = false)
           (fst (walkSiblings headerEl after))
    /\ match find lisElement (snd (walkSiblings headerEl after)) with
       | Some e => stopsAt headerEl e = true
       | None => True
       end
    /\ filter lisElement after
       = fst (walkSiblings headerEl after)
         ++ filter lisElement (snd (walkSiblings headerEl after))
    /\ filter (fun x => negb (lisElement x)) after
       = filter (fun x => negb (lisElement x)) (snd (walkSiblings headerEl after)).
Proof.
  intros headerEl after. induction after as [|x after IH].
  - cbn. repeat split; constructor.
  - cbn [walkSiblings].
    destruct IH as (M & S & E & T).
    destruct (lisElement x) eqn:Ex.
    + destruct (stopsAt headerEl x) eqn:Sx.
      * cbn [fst snd find filter]. rewrite Ex. cbn [negb].
        repeat split; [constructor|exact Sx].
      * destruct (walkSiblings headerEl after) as [moved stay].
        cbn [fst snd] in *. cbn [filter]. rewrite Ex. cbn [negb].
        repeat split.
        -- constructor; [split; assumption|exact M].
        -- exact S.
        -- cbn. rewrite E. reflexivity.
        -- exact T.
    + destruct (walkSiblings headerEl after) as [moved stay].
      cbn [fst snd] in *. cbn [find filter]. rewrite Ex. cbn [negb].
      repeat split.
      * exact M.
      * exact S.
      * exact E.
      * rewrite T. reflexivity.
Qed.

(** C9. The walk of [makeHeaderTree] over the siblings after a heading
    wrapper moves every element it passes into the children container and
    stops at the first element that wraps a heading whose tag name is not
    greater than the current one (for [h1] ... [h6]: whose level is equal or
    shallower); that element, everything after it and the text nodes passed
    stay where they are.  On the flat sequence
    [h1, p, h2, p, h3, p, h2, p] the builder gives: the paragraph of [h3]
    under [h3]; the first paragraph, [h3] and its paragraph under the first
    [h2]; the second [h2] with its paragraph as a sibling of the first; and
    all of it under [h1].  The footer does not stop the walk as the claim
    and the comment on line 65 say: the tests for [mod-footer] and for
    [section.footnotes] (line 66) are made on the heading that a sibling
    wraps, so that they stop the walk at a deeper heading that carries the
    class or holds the footnotes, while a sibling that wraps no heading is
    moved whatever it is: the footer [div.mod-footer] and the [div] of the
    footnotes after a heading end up in the children container of that
    heading. *)
Theorem makeHeadingsTrees_nests :
  makeHeadingsTrees flatDocument = nestedDocument
  /\ (forall headerEl after,
        Forall (fun x => lisElement x = true /\ stopsAt headerEl x = false)
               (fst (walkSiblings headerEl after))
        /\ match find lisElement (snd (walkSiblings headerEl after)) with
           | Some e => stopsAt headerEl e = true
           | None => True
           end
        /\ filter lisElement after
           = fst (walkSiblings headerEl after)
             ++ filter lisElement (snd (walkSiblings headerEl after))
        /\ filter (fun x => negb (lisElement x)) after
           = filter (fun x => negb (lisElement x))
                    (snd (walkSiblings headerEl after)))
  /\ forallb
       (fun a =>
          forallb
            (fun b =>
               Bool.eqb (stringLeb (tagName (headingTag a)) (tagName (headingTag b)))
                        (a <=? b)%nat)
            [1; 2; 3; 4; 5; 6]%nat)
       [1; 2; 3; 4; 5; 6]%nat = true
  /\ makeHeadingsTrees footerDocument = footerNested
  /\ (forall headerEl x rest,
        lisElement x = true ->
        getHeaderEl x = None ->
        walkSiblings headerEl (x :: rest)
        = (x :: fst (walkSiblings headerEl rest),
           snd (walkSiblings headerEl rest)))
  /\ (let h2 := numbered (Elem "h2" [] [] None [Text "A"]) in
      stopsAt h2 (numbered footerBlock) = false
      /\ stopsAt h2 (numbered footnotesBlock) = false
      /\ stopsAt h2 (numbered (headingBlock "h3" "F")) = false
      /\ stopsAt h2 (numbered footerHeadingBlock) = true
      /\ stopsAt h2 (numbered footnotesHeadingBlock) = true).
Proof.
  split; [vm_compute; reflexivity|].
  split; [apply walkSiblings_spec|].
  split; [vm_compute; reflexivity|].
  split; [vm_compute; reflexivity|].
  split.
  - intros headerEl x rest E H. cbn [walkSiblings]. rewrite E.
    unfold stopsAt. rewrite H.
    destruct (walkSiblings headerEl rest). reflexivity.
  - vm_compute. repeat split; reflexivity.
Qed.

(** ** The post-processor *)

Lemma lookup_assign_other :
  forall name other v l,
    String.eqb other name = false ->
    lookup name (assign other v l) = lookup name l.
Proof.
  intros name other v l D. induction l as [|[k v0] l IH]; cbn.
  - rewrite D. reflexivity.
  - destruct (String.eqb k other) eqn:E; cbn.
    + apply String.eqb_eq in E. subst k. rewrite D. reflexivity.
    + destruct (String.eqb k name); [reflexivity|exact IH].
Qed.

Lemma lookup_unassign_same :
  forall name l, lookup name (unassign name l) = None.
Proof.
  intros name l. induction l as [|[k v0] l IH]; cbn; [reflexivity|].
  destruct (String.eqb k name) eqn:E; cbn; [exact IH|].
  rewrite E. exact IH.
Qed.

Lemma lookup_unassign_other :
  forall name other l,
    String.eqb other name = false ->
    lookup name (unassign other l) = lookup name l.
Proof.
  intros name other l D. induction l as [|[k v0] l IH]; cbn; [reflexivity|].
  destruct (String.eqb k other) eqn:E; cbn.
  - apply String.eqb_eq in E. subst k. rewrite D. exact IH.
  - destruct (String.eqb k name); [reflexivity|exact IH].
Qed.

(** What the width conversion does to one child of an element: the child's
    own subtree is converted, and so is the child when it is a medium. *)
Definition convertChild (k : node) : node :=
  let k' := convertWidths k in
  if isMedia [] k then
    match convertWidth k, k' with
    | Elem t1 a1 s1 v1 _, Elem _ _ _ _ kids' => Elem t1 a1 s1 v1 kids'
    | _, _ => k'
    end
  else k'.

Lemma convertWidths_ancestors :
  forall n anc,
    forEachMatch isMedia convertWidth anc n = convertWidths n.
Proof.
  unfold convertWidths.
  induction n as [s|t a s v kids IH] using node_induction; intro anc;
    [reflexivity|].
  cbn [forEachMatch]. f_equal.
  apply map_ext_in. intros k K.
  rewrite Forall_forall in IH.
  rewrite (IH k K (Elem t a s v kids :: anc)).
  rewrite (IH k K [Elem t a s v kids]).
  reflexivity.
Qed.

Lemma convertWidths_unfold :
  forall t a s v kids,
    convertWidths (Elem t a s v kids) = Elem t a s v (map convertChild kids).
Proof.
  intros. unfold convertWidths at 1. cbn [forEachMatch]. f_equal.
  apply map_ext. intro k. unfold convertChild.
  rewrite convertWidths_ancestors. reflexivity.
Qed.

(** The conversion of one element keeps its tag, value, children and class,
    and leaves no width to convert. *)
Lemma convertWidth_shape :
  forall t a s v kids,
    exists a' s',
      convertWidth (Elem t a s v kids) = Elem t a' s' v kids
      /\ lookup "class" a' = lookup "class" a
      /\ (lookup "width" a' = None \/ lookup "width" a' = Some "").
Proof.
  intros t a s v kids. unfold convertWidth, getAttribute. cbn [attrsOf].
  destruct (lookup "width" a) as [w|] eqn:L.
  - destruct (String.eqb w "") eqn:E.
    + apply String.eqb_eq in E. subst w.
      exists a, s. split; [reflexivity|]. split; [reflexivity|]. right. exact L.
    + cbn [removeAttribute setStyle].
      eexists. eexists. split; [reflexivity|]. split.
      * apply lookup_unassign_other. reflexivity.
      * left. apply lookup_unassign_same.
  - exists a, s. split; [reflexivity|]. split; [reflexivity|]. left. exact L.
Qed.

Lemma convertWidth_settled :
  forall t a s v kids,
    lookup "width" a = None \/ lookup "width" a = Some "" ->
    convertWidth (Elem t a s v kids) = Elem t a s v kids.
Proof.
  intros t a s v kids [L|L]; unfold convertWidth, getAttribute; cbn [attrsOf];
    rewrite L; reflexivity.
Qed.

Lemma isMedia_text : forall anc s, isMedia anc (Text s) = false.
Proof. reflexivity. Qed.

(** The converted child is the child with new attributes and style, over
    converted children. *)
Lemma convertChild_shape :
  forall t a s v kids,
    exists a' s',
      convertChild (Elem t a s v kids) = Elem t a' s' v (map convertChild kids)
      /\ lookup "class" a' = lookup "class" a
      /\ (isMedia [] (Elem t a s v kids) = true ->
          lookup "width" a' = None \/ lookup "width" a' = Some "")
      /\ (isMedia [] (Elem t a s v kids) = false -> a' = a /\ s' = s).
Proof.
  intros t a s v kids. unfold convertChild.
  rewrite convertWidths_unfold.
  destruct (isMedia [] (Elem t a s v kids)) eqn:M.
  - destruct (convertWidth_shape t a s v kids) as (a' & s' & E & C & W).
    rewrite E. exists a', s'.
    split; [reflexivity|]. split; [exact C|]. split; [intros _; exact W|].
    discriminate.
  - exists a, s.
    split; [reflexivity|]. split; [reflexivity|]. split; [discriminate|].
    intros _. split; reflexivity.
Qed.

Lemma convertChild_tag :
  forall t k, isTag t (convertChild k) = isTag t k.
Proof.
  intros t [s|tg a s v kids]; [reflexivity|].
  destruct (convertChild_shape tg a s v kids) as (a' & s' & E & _).
  rewrite E. reflexivity.
Qed.

Lemma existsb_convertChild :
  forall kids,
    existsb (fun c => isTag "img" c || isTag "video" c) (map convertChild kids)
    = existsb (fun c => isTag "img" c || isTag "video" c) kids.
Proof.
  induction kids as [|k kids IH]; [reflexivity|].
  cbn [map existsb]. rewrite !convertChild_tag, IH. reflexivity.
Qed.

(** Whether an element is a medium depends on its tag, its class and the
    tags of its children, none of which the conversion touches. *)
Lemma isMedia_converted :
  forall t a a' s s' v kids,
    lookup "class" a' = lookup "class" a ->
    isMedia [] (Elem t a' s' v (map convertChild kids))
    = isMedia [] (Elem t a s v kids).
Proof.
  intros t a a' s s' v kids C.
  unfold isMedia, hasChild, hasClass, classList, className, isTag, getAttribute.
  cbn [attrsOf isElement tagOf kidsOf].
  rewrite C, existsb_convertChild. reflexivity.
Qed.

Lemma convertChild_elem :
  forall t a s v kids,
    convertChild (Elem t a s v kids)
    = if isMedia [] (Elem t a s v kids) then
        match convertWidth (Elem t a s v kids) with
        | Elem t1 a1 s1 v1 _ => Elem t1 a1 s1 v1 (map convertChild kids)
        | Text _ => Elem t a s v (map convertChild kids)
        end
      else Elem t a s v (map convertChild kids).
Proof.
  intros t a s v kids. unfold convertChild at 1.
  rewrite convertWidths_unfold.
  destruct (isMedia [] (Elem t a s v kids)); [|reflexivity].
  destruct (convertWidth (Elem t a s v kids)); reflexivity.
Qed.

Lemma convertChild_idempotent :
  forall k,
    convertWidths (convertWidths k) = convertWidths k ->
    convertChild (convertChild k) = convertChild k.
Proof.
  intros [s|t a s v kids] IH; [reflexivity|].
  rewrite !convertWidths_unfold in IH.
  injection IH as IH.
  destruct (convertChild_shape t a s v kids) as (a' & s' & E & C & W & N).
  rewrite E, convertChild_elem, IH.
  rewrite (isMedia_converted t a a' s s' v kids C).
  destruct (isMedia [] (Elem t a s v kids)) eqn:M.
  - (* a medium: its width is gone, the conversion has nothing to do *)
    rewrite convertWidth_settled by (apply W; reflexivity).
    reflexivity.
  - reflexivity.
Qed.

Lemma convertWidths_idempotent :
  forall tree, convertWidths (convertWidths tree) = convertWidths tree.
Proof.
  induction tree as [s|t a s v kids IH] using node_induction; [reflexivity|].
  rewrite !convertWidths_unfold. f_equal.
  rewrite map_map. apply map_ext_in. intros k K.
  rewrite Forall_forall in IH.
  apply convertChild_idempotent. apply IH. exact K.
Qed.

Lemma serializeInput_twice :
  forall t a s v kids,
    getAttribute "value" (serializeInput (Elem t a s v kids))
    = Some (inputValue (Elem t a s v kids))
    /\ getAttribute "value" (serializeInput (serializeInput (Elem t a s v kids)))
       = Some "".
Proof.
  intros t a s v kids. unfold serializeInput, getAttribute.
  cbn [setAttribute attrsOf inputValue].
  split; apply lookup_assign_same.
Qed.

Section TagLinks.
Variable host : Host.

Lemma rewriteTagLink_href :
  forall t a s v kids,
    getAttribute "href" (rewriteTagLink host (Elem t a s v kids))
    = Some ("?query=tag:"
            ++ tagOfHref (hrefProperty host (Elem t a s v kids)))%string.
Proof.
  intros. unfold rewriteTagLink, getAttribute. cbn [setAttribute attrsOf].
  apply lookup_assign_same.
Qed.

Lemma rewriteTagLink_data_href :
  forall t a s v kids,
    getAttribute "data-href" (rewriteTagLink host (Elem t a s v kids))
    = Some (match getAttribute "href" (Elem t a s v kids) with
            | Some h => h
            | None => ""
            end).
Proof.
  intros. unfold rewriteTagLink, getAttribute. cbn [setAttribute attrsOf].
  rewrite lookup_assign_other by reflexivity.
  apply lookup_assign_same.
Qed.

Lemma rewriteTagLink_element :
  forall t a s v kids,
    exists a', rewriteTagLink host (Elem t a s v kids) = Elem t a' s v kids.
Proof. intros. eexists. reflexivity. Qed.

Lemma rewriteTagLink_twice :
  forall t a s v kids,
    let once := rewriteTagLink host (Elem t a s v kids) in
    let query := ("?query=tag:"
                  ++ tagOfHref (hrefProperty host (Elem t a s v kids)))%string in
    getAttribute "href" once = Some query
    /\ getAttribute "data-href" (rewriteTagLink host once) = Some query
    /\ getAttribute "href" (rewriteTagLink host once)
       = Some ("?query=tag:" ++ tagOfHref (resolveHref host query))%string.
Proof.
  intros t a s v kids once query.
  assert (H : getAttribute "href" once = Some query)
    by apply rewriteTagLink_href.
  destruct (rewriteTagLink_element t a s v kids) as (a' & E).
  fold once in E.
  split; [exact H|]. rewrite E in H |- *. split.
  - rewrite rewriteTagLink_data_href, H. reflexivity.
  - rewrite rewriteTagLink_href. unfold hrefProperty. rewrite H. reflexivity.
Qed.

End TagLinks.

(** C8 (amended).  The post-processor is not idempotent as a whole.  Of the
    three conversions the claim names, the width-attribute-to-max-width
    conversion is: run on its own output, on any tree, it changes nothing
    (the width attribute it looks for is gone or empty).  The other two fire
    again on a second run: the serialization of a text input writes the live
    value into the [value] attribute and empties the live value, so that the
    second run writes the empty string over the attribute; the rewrite of a
    tag link puts the search query into [href], so that the second run
    copies that query into [data-href] and derives a new query from the
    resolved address of the first. *)
Theorem postProcessHTML_second_run :
  forall host : Host,
    (forall tree, convertWidths (convertWidths tree) = convertWidths tree)
    /\ (forall t a s v kids,
          getAttribute "value" (serializeInput (Elem t a s v kids))
          = Some (inputValue (Elem t a s v kids))
          /\ getAttribute "value"
                          (serializeInput (serializeInput (Elem t a s v kids)))
             = Some "")
    /\ (forall t a s v kids,
          let once := rewriteTagLink host (Elem t a s v kids) in
          let query :=
            ("?query=tag:"
             ++ tagOfHref (hrefProperty host (Elem t a s v kids)))%string in
          getAttribute "href" once = Some query
          /\ getAttribute "data-href" (rewriteTagLink host once) = Some query
          /\ getAttribute "href" (rewriteTagLink host once)
             = Some ("?query=tag:" ++ tagOfHref (resolveHref host query))%string).
Proof.
  intro host. split; [exact convertWidths_idempotent|].
  split; [exact serializeInput_twice|].
  exact (rewriteTagLink_twice host).
Qed.

(** C8 as stated fails: on a note with a text input somebody typed into and
    a tag link, the second run of the post-processor changes the tree again.
    The [value] attribute that held the typed text is emptied, and the link
    gets a new [data-href] and a new [href]; the image is left alone. *)
Lemma postProcessHTML_second_run_counterexample :
  postProcessTree readyHost defaultOptions exportedNote = Some processedOnce
  /\ postProcessTree readyHost defaultOptions processedOnce = Some processedTwice
  /\ map (getAttribute "value") (querySelectorAll (isTextInput []) processedOnce)
     = [Some "draft"]
  /\ map (getAttribute "value") (querySelectorAll (isTextInput []) processedTwice)
     = [Some ""]
  /\ map (getAttribute "data-href") (querySelectorAll (isTag "a") processedOnce)
     = [Some "#todo"]
  /\ map (getAttribute "data-href") (querySelectorAll (isTag "a") processedTwice)
     = [Some "?query=tag:todo"]
  /\ querySelectorAll (isTag "img") processedTwice
     = querySelectorAll (isTag "img") processedOnce.
Proof. vm_compute. repeat split; reflexivity. Qed.

(* ===================================================================== *)
(** * Part III. Further properties of the module *)
(* ===================================================================== *)

(** ** The log *)

Section LogFacts.
Variable host : Host.

Lemma pullPathLogs_empty :
  forall w, pathLogQueue w = [] -> pullPathLogs host w = w.
Proof.
  intros w E. unfold pullPathLogs. rewrite E. cbn.
  destruct w. cbn in E. subst. reflexivity.
Qed.

Lemma spawnReport_log :
  forall sev title message fatal w,
    fullLog (spawnReport host sev title message fatal w) = fullLog w
    /\ pathLogQueue (spawnReport host sev title message fatal w) = pathLogQueue w.
Proof.
  intros. unfold spawnReport.
  destruct (batchStarted w); cbn [negb]; [|split; reflexivity].
  destruct sev; split; reflexivity.
Qed.

Lemma logCore_log :
  forall m t w,
    fullLog (logCore host m t w) = (fullLog w ++ infoLine m t)%string
    /\ pathLogQueue (logCore host m t w) = pathLogQueue w.
Proof.
  intros. unfold logCore, _reportInfo.
  destruct (settingsLoaded host && negb (levelIn host ["all"]));
    [split; reflexivity|].
  destruct (spawnReport_log Info ("[INFO] " ++ t)%string m false
              (emit (Console Info ("[INFO] " ++ t)%string m)
                 (set_fullLog (fullLog w ++ infoLine m t)%string w))) as (F & Q).
  split; [exact F|exact Q].
Qed.

Lemma warningCore_log :
  forall m t w,
    fullLog (warningCore host m t w) = (fullLog w ++ warningLine m t)%string
    /\ pathLogQueue (warningCore host m t w) = pathLogQueue w.
Proof.
  intros. unfold warningCore, _reportWarning.
  destruct (settingsLoaded host && negb (levelIn host ["warning"; "all"]));
    [split; reflexivity|].
  destruct (spawnReport_log Warning ("[WARNING] " ++ t)%string m false
              (emit (Console Warning ("[WARNING] " ++ t)%string m)
                 (set_fullLog (fullLog w ++ warningLine m t)%string w)))
    as (F & Q).
  split; [exact F|exact Q].
Qed.

Lemma errorCore_log :
  forall m t fatal w,
    fullLog (errorCore host m t fatal w)
    = (fullLog w ++ (if fatal then fatalLine m t else errorLine m t))%string
    /\ pathLogQueue (errorCore host m t fatal w) = pathLogQueue w.
Proof.
  intros. unfold errorCore, _reportError.
  destruct (settingsLoaded host && negb fatal
            && negb (levelIn host ["error"; "warning"; "all"]));
    [destruct fatal; split; reflexivity|].
  match goal with
  | |- context [spawnReport host Error ?title m fatal ?w0] =>
      destruct (spawnReport_log Error title m fatal w0) as (F & Q)
  end.
  rewrite F, Q. destruct fatal; split; reflexivity.
Qed.

(** The loop of [pullPathLogs] over the entries it took from the queue. *)
Lemma pullPathLogs_fold :
  forall queue w0,
    let w1 :=
      fold_left
        (fun w thisLog =>
           match plType thisLog with
           | PInfo => logCore host (plMessage thisLog) (plTitle thisLog) w
           | PWarn => warningCore host (plMessage thisLog) (plTitle thisLog) w
           | PError => errorCore host (plMessage thisLog) (plTitle thisLog) false w
           | PFatal => errorCore host (plMessage thisLog) (plTitle thisLog) true w
           end) queue w0 in
    fullLog w1 = (fullLog w0 ++ flatten (map pathLine queue))%string
    /\ pathLogQueue w1 = pathLogQueue w0.
Proof.
  induction queue as [|e queue IH]; intros w0; cbn [fold_left map flatten fold_right].
  - rewrite append_nil_r. split; reflexivity.
  - match goal with
    | |- context [fold_left _ queue ?x] => destruct (IH x) as (F & Q)
    end.
    cbv zeta in F, Q |- *. rewrite F, Q.
    change (fold_right String.append "" (map pathLine queue))
      with (flatten (map pathLine queue)).
    unfold pathLine at 2.
    destruct (plType e).
    + destruct (logCore_log (plMessage e) (plTitle e) w0) as (F1 & Q1).
      rewrite F1, Q1, append_assoc. split; reflexivity.
    + destruct (warningCore_log (plMessage e) (plTitle e) w0) as (F1 & Q1).
      rewrite F1, Q1, append_assoc. split; reflexivity.
    + destruct (errorCore_log (plMessage e) (plTitle e) false w0) as (F1 & Q1).
      rewrite F1, Q1, append_assoc. split; reflexivity.
    + destruct (errorCore_log (plMessage e) (plTitle e) true w0) as (F1 & Q1).
      rewrite F1, Q1, append_assoc. split; reflexivity.
Qed.

Lemma pullPathLogs_log :
  forall w,
    fullLog (pullPathLogs host w)
    = (fullLog w ++ flatten (map pathLine (pathLogQueue w)))%string
    /\ pathLogQueue (pullPathLogs host w) = [].
Proof.
  intros w. unfold pullPathLogs.
  destruct (pullPathLogs_fold (pathLogQueue w) (set_pathLogQueue [] w)) as (F & Q).
  cbv zeta in F, Q. rewrite F, Q. split; reflexivity.
Qed.

End LogFacts.

Lemma error_line_logged :
  forall (host : Host) (message : Message) (title : string) (w : World),
    fullLog (ExportLog_error host message title false w)
    = (fullLog w ++ flatten (map pathLine (pathLogQueue w))
         ++ errorLine message title)%string.
Proof.
  intros host message title w.
  destruct (pullPathLogs_log host w) as (F & _).
  destruct (errorCore_log host message title false (pullPathLogs host w))
    as (F3 & _).
  unfold ExportLog_error. rewrite F3, F, !append_assoc. reflexivity.
Qed.

(** X3. Every call of [ExportLog.log], [warning] or [error] first empties the
    queue of [Path]: the queue is empty afterwards, and the cumulative log
    has grown by one line for every entry that was queued, in the order of
    the queue and under the heading of the entry's type, followed by the
    line of the call itself. *)
Theorem ExportLog_drains_path_queue :
  forall (host : Host) (message : Message) (title : string) (fatal : bool) (w : World),
    (pathLogQueue (ExportLog_log host message title w) = []
     /\ fullLog (ExportLog_log host message title w)
        = (fullLog w ++ flatten (map pathLine (pathLogQueue w))
             ++ infoLine message title)%string)
    /\ (pathLogQueue (ExportLog_warning host message title w) = []
        /\ fullLog (ExportLog_warning host message title w)
           = (fullLog w ++ flatten (map pathLine (pathLogQueue w))
                ++ warningLine message title)%string)
    /\ (pathLogQueue (ExportLog_error host message title fatal w) = []
        /\ fullLog (ExportLog_error host message title fatal w)
           = (fullLog w ++ flatten (map pathLine (pathLogQueue w))
                ++ (if fatal then fatalLine message title
                    else errorLine message title))%string).
Proof.
  intros host message title fatal w.
  destruct (pullPathLogs_log host w) as (F & Q).
  unfold ExportLog_log, ExportLog_warning, ExportLog_error.
  destruct (logCore_log host message title (pullPathLogs host w)) as (F1 & Q1).
  destruct (warningCore_log host message title (pullPathLogs host w)) as (F2 & Q2).
  destruct (errorCore_log host message title fatal (pullPathLogs host w))
    as (F3 & Q3).
  rewrite F1, Q1, F2, Q2, F3, Q3, F, Q, !append_assoc.
  repeat split; reflexivity.
Qed.

(** X1. With the settings loaded and a log level outside "error", "warning"
    and "all", a non-fatal [ExportLog.error] only writes its line to the
    cumulative log: nothing reaches the console or the log widget and
    [errorInBatch] stays false, so that the [endBatch] that follows releases
    the render surface as after a batch without errors (and says nothing on
    the console either). *)
Theorem ExportLog_error_filtered :
  forall (host : Host) (message : Message) (title : string) (w : World) (l : Leaf),
    settingsLoaded host = true ->
    levelIn host ["error"; "warning"; "all"] = false ->
    pathLogQueue w = [] ->
    batchStarted w = true -> errorInBatch w = false -> renderLeaf w = Some l ->
    let w' := ExportLog_error host message title false w in
    w' = set_fullLog (fullLog w ++ errorLine message title)%string w
    /\ errorInBatch w' = false
    /\ trace (endBatch host w') = trace w ++ [Detached (leafId l)]
    /\ fullLog (endBatch host w')
       = (fullLog w ++ errorLine message title
            ++ infoLine "Closing render window" "")%string.
Proof.
  intros host message title w l S L Q B E R w'.
  assert (All : levelIn host ["all"] = false).
  { unfold levelIn in *. cbn [existsb] in *.
    destruct (String.eqb (logLevel host) "error"); [discriminate|].
    destruct (String.eqb (logLevel host) "warning"); [discriminate|].
    exact L. }
  assert (W : w' = set_fullLog (fullLog w ++ errorLine message title)%string w).
  { unfold w', ExportLog_error. rewrite pullPathLogs_empty by exact Q.
    unfold errorCore. rewrite S, L. reflexivity. }
  split; [exact W|]. rewrite W. split; [exact E|].
  unfold endBatch, ExportLog_log.
  rewrite pullPathLogs_empty by exact Q.
  unfold logCore. rewrite S, All.
  destruct w. cbn in *. subst. cbn.
  rewrite append_assoc. split; reflexivity.
Qed.

Lemma ExportLog_error_filtered_witness :
  let w' := ExportLog_error silentHost "link not found" "Broken link" false
                            activeWorld in
  w' = set_fullLog
         (fullLog activeWorld ++ errorLine "link not found" "Broken link")%string
         activeWorld
  /\ errorInBatch w' = false
  /\ trace (endBatch silentHost w') = trace activeWorld ++ [Detached 0%nat]
  /\ fullLog (endBatch silentHost w')
     = (fullLog activeWorld ++ errorLine "link not found" "Broken link"
          ++ infoLine "Closing render window" "")%string.
Proof.
  apply (ExportLog_error_filtered silentHost "link not found" "Broken link"
           activeWorld (mkLeaf 0 0)); reflexivity.
Defined.

(** X2. A fatal [ExportLog.error] passes every log level: whatever the
    settings, it is written to the console, and in a started batch it raises
    [errorInBatch] and starts a fatal report.  Its title is always
    "[FATAL ERROR] " followed by the title given: the replacement by
    "Fatal Error" (line 1266) never applies, since the title carries its
    prefix by then. *)
Theorem ExportLog_fatal_unfiltered :
  forall (host : Host) (message : Message) (title : string) (w : World),
    let w0 := pullPathLogs host w in
    let w' := ExportLog_error host message title true w in
    trace w' = trace w0 ++ [Console Error ("[FATAL ERROR] " ++ title)%string message]
    /\ (batchStarted w = false -> deferred w' = deferred w0)
    /\ (batchStarted w = true ->
        errorInBatch w' = true
        /\ exists due,
             deferred w'
             = deferred w0
               ++ [mkDeferred Error ("[FATAL ERROR] " ++ title)%string message
                              true 0 due]).
Proof.
  intros host message title w w0 w'.
  pose proof (ls_batchStarted _ _ (pullPathLogs_step host w)) as B0.
  fold w0 in B0.
  unfold w', ExportLog_error. fold w0. unfold errorCore.
  replace (settingsLoaded host && negb true
           && negb (levelIn host ["error"; "warning"; "all"])) with false
    by (destruct (settingsLoaded host); reflexivity).
  cbn [andb String.append String.eqb Ascii.eqb Bool.eqb].
  unfold _reportError, spawnReport.
  cbn [batchStarted emit set_trace set_fullLog].
  rewrite B0.
  destruct (batchStarted w); cbn [negb].
  - split; [reflexivity|]. split; [discriminate|]. intros _.
    split; [reflexivity|]. eexists. reflexivity.
  - split; [reflexivity|]. split; [reflexivity|discriminate].
Qed.

(** ** Fatal errors and closed windows *)

(** X4. A fatal error in a batch whose leaf is attached keeps the render
    window open.  Once the report has run (at the next microtask checkpoint)
    the error is in the log widget, the handles of the leaf, the loading
    container and the log container are dropped, and the batch is still
    started with [errorInBatch] set; the next [checkCancelled] then answers
    true and ends the batch, and the leaf is never detached. *)
Theorem fatal_error_keeps_window :
  forall (host : Host) (message : Message) (title : string) (w : World) (l : Leaf) (c : nat),
    batchStarted w = true -> renderLeaf w = Some l ->
    attached host l (now w) = true ->
    loadingContainer w = Some c ->
    deferred w = [] -> pathLogQueue w = [] ->
    let w1 := microtasks (ExportLog_error host message title true w) in
    renderLeaf w1 = None /\ loadingContainer w1 = None /\ logContainer w1 = None
    /\ batchStarted w1 = true /\ errorInBatch w1 = true
    /\ In (LogAppended (leafId l) Error ("[FATAL ERROR] " ++ title)%string
                      (toText message))
          (trace w1)
    /\ detachCount (trace w1) = detachCount (trace w)
    /\ fst (checkCancelled host w1) = true
    /\ batchStarted (snd (checkCancelled host w1)) = false
    /\ detachCount (trace (snd (checkCancelled host w1))) = detachCount (trace w).
Proof.
  intros host message title w l c B L A C D Q w1.
  assert (E1 : w1 = microtasks (errorCore host message title true w)).
  { unfold w1, ExportLog_error. rewrite pullPathLogs_empty by exact Q.
    reflexivity. }
  assert (Shape :
    renderLeaf w1 = None /\ loadingContainer w1 = None /\ logContainer w1 = None
    /\ batchStarted w1 = true /\ errorInBatch w1 = true
    /\ In (LogAppended (leafId l) Error ("[FATAL ERROR] " ++ title)%string
                      (toText message))
          (trace w1)
    /\ detachCount (trace w1) = detachCount (trace w)).
  { rewrite E1. unfold errorCore.
    replace (settingsLoaded host && negb true
             && negb (levelIn host ["error"; "warning"; "all"])) with false
      by (destruct (settingsLoaded host); reflexivity).
    cbn [andb String.append String.eqb Ascii.eqb Bool.eqb].
    unfold _reportError, spawnReport, leafRooted.
    destruct w. cbn in B, L, A, C, D, Q. subst.
    cbn [batchStarted emit set_trace set_fullLog set_errorInBatch negb
         renderLeaf now].
    rewrite A.
    unfold microtasks. cbn [deferred set_deferred app filter dDue fold_left].
    unfold resumeReport, appendLogEl.
    cbn [negb dSeverity dTitle dMessage dFatal loadingContainer logContainer
         set_logContainer renderLeaf set_deferred].
    destruct logShowing0; cbn.
    - repeat split; try reflexivity.
      + apply in_or_app. right. left. reflexivity.
      + unfold detachCount. rewrite !filter_app, !length_app. cbn. lia.
    - repeat split; try reflexivity.
      + apply in_or_app. right. left. reflexivity.
      + unfold detachCount. rewrite !filter_app, !length_app. cbn. lia. }
  destruct Shape as (L1 & C1 & G1 & B1 & R1 & I1 & N1).
  repeat (split; [assumption|]).
  unfold checkCancelled. rewrite L1. rewrite orb_true_r. cbn [fst snd].
  split; [reflexivity|]. split; [apply endBatch_ends|].
  pose proof (ExportLog_log_step host "cancelled" "" w1) as S.
  rewrite endBatch_absent.
  - destruct (ls_trace _ _ S) as (es & T & F). rewrite T, detachCount_app.
    rewrite (keepsSurface_count es) by (apply console_keepsSurface, F).
    rewrite N1. lia.
  - rewrite (ls_batchStarted _ _ S). exact B1.
  - rewrite (ls_renderLeaf _ _ S). exact L1.
Qed.

Lemma fatal_error_keeps_window_witness :
  let w1 := microtasks (ExportLog_error readyHost "disk failure" "Vault" true
                                        activeWorld) in
  renderLeaf w1 = None /\ loadingContainer w1 = None /\ logContainer w1 = None
  /\ batchStarted w1 = true /\ errorInBatch w1 = true
  /\ In (LogAppended 0%nat Error "[FATAL ERROR] Vault" "disk failure") (trace w1)
  /\ detachCount (trace w1) = detachCount (trace activeWorld)
  /\ fst (checkCancelled readyHost w1) = true
  /\ batchStarted (snd (checkCancelled readyHost w1)) = false
  /\ detachCount (trace (snd (checkCancelled readyHost w1)))
     = detachCount (trace activeWorld).
Proof.
  apply (fatal_error_keeps_window readyHost "disk failure" "Vault" activeWorld
           (mkLeaf 0 0) 0%nat); reflexivity.
Defined.

Section CloseFacts.
Variable host : Host.

Lemma reportProgress_closeListeners :
  forall f m s c w,
    closeListeners (_reportProgress host f m s c w) = closeListeners w.
Proof.
  intros. unfold _reportProgress.
  destruct (batchStarted w); cbn [negb]; [|reflexivity].
  destruct (renderLeaf w) as [l|]; [|reflexivity].
  destruct (attached host l (now w)); cbn [negb]; [|reflexivity].
  destruct (existsb _ _); cbn [negb]; [|reflexivity].
  destruct (electronWindow _); reflexivity.
Qed.

Lemma endBatch_closeListeners :
  forall w, closeListeners (endBatch host w) = closeListeners w.
Proof.
  intros w. unfold endBatch.
  destruct (batchStarted w); cbn [negb]; [|reflexivity].
  cbn [closeListeners set_batchStarted set_fileListContainer
       set_loadingContainer set_renderLeaf set_electronWindow].
  destruct (renderLeaf w) as [l|]; [|reflexivity].
  destruct (errorInBatch w); cbn [negb].
  - rewrite reportProgress_closeListeners.
    apply (ls_closeListeners _ _ (ExportLog_warning_step host _ _ w)).
  - cbn [closeListeners emit set_trace].
    apply (ls_closeListeners _ _ (ExportLog_log_step host _ _ w)).
Qed.

Lemma windowClosed_active :
  forall w,
    cancelled w = false -> batchStarted w = true ->
    windowClosed host w = set_cancelled true (endBatch host w).
Proof.
  intros w C B. unfold windowClosed. rewrite C.
  destruct (endBatch_clears host w B) as (_ & _ & E & _).
  cbn [electronWindow set_cancelled]. cbv zeta in E. rewrite E. reflexivity.
Qed.

Lemma windowClosed_cancelled :
  forall w, cancelled w = true -> windowClosed host w = w.
Proof. intros w C. unfold windowClosed. rewrite C. reflexivity. Qed.

Lemma fold_windowClosed_cancelled :
  forall (closing : list nat) w,
    cancelled w = true ->
    fold_left (fun w _ => windowClosed host w) closing w = w.
Proof.
  induction closing as [|x closing IH]; intros w C; [reflexivity|].
  cbn [fold_left]. rewrite windowClosed_cancelled by exact C. apply IH, C.
Qed.

Lemma fireCloses_closing :
  forall w win,
    In win (closeListeners w) -> closeAt host win = Some (now w) ->
    cancelled w = false -> batchStarted w = true ->
    fireCloses host w = windowClosed host w.
Proof.
  intros w win I A C B. unfold fireCloses.
  destruct (filter _ (closeListeners w)) as [|x closing] eqn:F.
  - exfalso.
    assert (In win (filter (fun win0 => match closeAt host win0 with
                                        | Some t => t =? now w
                                        | None => false
                                        end) (closeListeners w))) as X.
    { apply filter_In. split; [exact I|]. rewrite A. apply Z.eqb_refl. }
    rewrite F in X. exact X.
  - cbn [fold_left]. apply fold_windowClosed_cancelled.
    rewrite windowClosed_active by assumption. reflexivity.
Qed.

End CloseFacts.

(** X7. Closing the render window cancels the batch.  When a window on
    which the batch has registered its listener closes, the listener ends
    the batch and sets [cancelled]; after that millisecond the session is
    cancelled and inactive without a leaf, and [checkCancelled] answers
    true.  The listener does not unregister itself: [endBatch] has dropped
    the window handle by the time [off] is reached, so the list of listeners
    is as before; a second close event changes nothing. *)
Theorem window_close_cancels :
  forall (host : Host) (w : World) (win : nat),
    cancelled w = false -> batchStarted w = true ->
    In win (closeListeners w) -> closeAt host win = Some (now w + 1) ->
    windowClosed host w = set_cancelled true (endBatch host w)
    /\ closeListeners (windowClosed host w) = closeListeners w
    /\ windowClosed host (windowClosed host w) = windowClosed host w
    /\ cancelled (tick host w) = true
    /\ batchStarted (tick host w) = false
    /\ renderLeaf (tick host w) = None
    /\ fst (checkCancelled host (tick host w)) = true.
Proof.
  intros host w win C B I A.
  pose proof (windowClosed_active host w C B) as E.
  split; [exact E|]. split.
  { rewrite E. cbn [closeListeners set_cancelled].
    apply endBatch_closeListeners. }
  split.
  { apply windowClosed_cancelled. rewrite E. reflexivity. }
  assert (T : tick host w
              = microtasks (fireTimers host
                  (windowClosed host (set_now (now w + 1) w)))).
  { unfold tick. f_equal. f_equal.
    apply (fireCloses_closing host (set_now (now w + 1) w) win);
      [exact I|exact A|exact C|exact B]. }
  set (w1 := windowClosed host (set_now (now w + 1) w)) in T.
  assert (E1 : w1 = set_cancelled true (endBatch host (set_now (now w + 1) w)))
    by (apply windowClosed_active; [exact C|exact B]).
  assert (S : EndedStep w1 (tick host w)).
  { rewrite T. eapply EndedStep_trans;
      [apply fireTimers_EndedStep|apply microtasks_EndedStep]. }
  assert (C1 : cancelled w1 = true) by (rewrite E1; reflexivity).
  assert (B1 : batchStarted w1 = false).
  { rewrite E1. cbn [batchStarted set_cancelled]. apply endBatch_ends. }
  assert (L1 : renderLeaf w1 = None).
  { rewrite E1. cbn [renderLeaf set_cancelled].
    apply (endBatch_clears host (set_now (now w + 1) w) B). }
  split; [apply (es_cancel _ _ S C1)|].
  split; [apply (es_batch _ _ S B1)|].
  split; [apply (es_leaf _ _ S L1)|].
  apply checkCancelled_iff. left. apply (es_cancel _ _ S C1).
Qed.

Lemma window_close_cancels_witness :
  windowClosed (closingAt 4 readyHost) activeWorld
  = set_cancelled true (endBatch (closingAt 4 readyHost) activeWorld)
  /\ closeListeners (windowClosed (closingAt 4 readyHost) activeWorld)
     = closeListeners activeWorld
  /\ windowClosed (closingAt 4 readyHost)
                  (windowClosed (closingAt 4 readyHost) activeWorld)
     = windowClosed (closingAt 4 readyHost) activeWorld
  /\ cancelled (tick (closingAt 4 readyHost) activeWorld) = true
  /\ batchStarted (tick (closingAt 4 readyHost) activeWorld) = false
  /\ renderLeaf (tick (closingAt 4 readyHost) activeWorld) = None
  /\ fst (checkCancelled (closingAt 4 readyHost)
                         (tick (closingAt 4 readyHost) activeWorld)) = true.
Proof.
  apply (window_close_cancels (closingAt 4 readyHost) activeWorld 0%nat).
  - reflexivity.
  - reflexivity.
  - left. reflexivity.
  - reflexivity.
Defined.

(** ** Opening a batch *)

(** [beginBatch] on an inactive, calm session whose new tab is attached
    within the 2000 ms of the wait: the wait ends when the tab is attached,
    and then either the window of the tab is there and the batch is set up,
    or it is not and the session is reset. *)
Lemma beginBatch_attached :
  forall (host : Host) (options : MarkdownRendererOptions) (w : World) (d : Z),
    batchStarted w = false ->
    calm host w ->
    attachDelay host (nextTab w) = Some d -> d <= 2000 ->
    exists (m : nat) (w' : World),
      beginBatch host options w = (Returned tt, w')
      /\ now w' = now w + Z.of_nat m
      /\ d <= Z.of_nat m <= 2000
      /\ nextTab w' = S (nextTab w)
      /\ fullLog w' = fullLog w
      /\ errorInBatch w' = false /\ cancelled w' = false
      /\ markdownView w' = Some (nextTab w)
      /\ if hasWindow host (nextTab w)
         then batchStarted w' = true
              /\ renderLeaf w' = Some (mkLeaf (nextTab w) (now w))
              /\ electronWindow w' = Some (nextTab w)
              /\ closeListeners w' = closeListeners w ++ [nextTab w]
              /\ loadingContainer w' = Some (nextTab w)
              /\ progressWrappers w' = progressWrappers w ++ [nextTab w]
              /\ trace w'
                 = trace w
                   ++ [TabOpened (nextTab w);
                       if displayProgress options then WindowDocked (nextTab w)
                       else WindowHidden (nextTab w);
                       WindowPinned (nextTab w)]
         else batchStarted w' = false
              /\ renderLeaf w' = None
              /\ electronWindow w' = None
              /\ closeListeners w' = closeListeners w
              /\ trace w'
                 = trace w
                   ++ [TabOpened (nextTab w);
                       Noticed "Failed to get the render window, please try again."].
Proof.
  intros host options w d B C A D. unfold beginBatch. rewrite B.
  set (leaf := mkLeaf (nextTab w) (now w)).
  match goal with
  | |- context [bind (awaitUntil host ?c 2000 1) ?k ?x] =>
      set (cond := c); set (w1 := x)
  end.
  assert (C1 : calm host w1) by exact C.
  assert (At : forall t, attached host leaf t = (now w + d <=? t)).
  { intros t. unfold attached. cbn [leafId openedAt leaf]. rewrite A.
    reflexivity. }
  destruct (awaitUntil_calm host (attached host leaf) cond 2000 w1 C1)
    as (m & b & E & M & Ht & Hf).
  - intros t.
    change (cond (set_now t w1))
      with (if attached host leaf t then (true, set_now t w1)
            else checkCancelled host (set_now t w1)).
    destruct (attached host leaf t); [reflexivity|].
    unfold checkCancelled.
    change (renderLeaf (set_now t w1)) with (Some leaf).
    change (cancelled (set_now t w1)) with false.
    reflexivity.
  - lia.
  - unfold bind. rewrite E.
    change (now w1) with (now w) in *.
    destruct b.
    + specialize (Ht eq_refl). rewrite At in Ht. apply Z.leb_le in Ht.
      cbn [negb].
      change (renderLeaf (set_now (now w + Z.of_nat m) w1)) with (Some leaf).
      cbv beta iota. change (leafId leaf) with (nextTab w).
      exists m. destruct (hasWindow host (nextTab w)); cbn [negb].
      * eexists. split; [reflexivity|].
        unfold createLoadingContainer.
        destruct (displayProgress options); cbn;
          rewrite <- ?app_assoc; repeat split; try reflexivity; lia.
      * eexists. split; [reflexivity|].
        cbn. rewrite <- ?app_assoc. repeat split; try reflexivity; lia.
    + exfalso. destruct (Hf eq_refl) as (_ & Hall).
      specialize (Hall (Z.max 0 d) ltac:(lia)).
      rewrite At in Hall. apply Z.leb_gt in Hall. lia.
Qed.

(** X5. When the tab is attached in time but its window cannot be obtained,
    [beginBatch] shows a notice and returns normally with the session reset
    to inactive.  The tab it opened is not detached: nothing is released,
    and the handle to it is gone. *)
Theorem beginBatch_without_window :
  forall (host : Host) (options : MarkdownRendererOptions) (w : World) (d : Z),
    batchStarted w = false ->
    calm host w ->
    attachDelay host (nextTab w) = Some d -> d <= 2000 ->
    hasWindow host (nextTab w) = false ->
    exists w',
      beginBatch host options w = (Returned tt, w')
      /\ batchStarted w' = false /\ renderLeaf w' = None
      /\ electronWindow w' = None
      /\ errorInBatch w' = false /\ cancelled w' = false
      /\ trace w'
         = trace w
           ++ [TabOpened (nextTab w);
               Noticed "Failed to get the render window, please try again."]
      /\ detachCount (trace w') = detachCount (trace w)
      /\ fst (checkCancelled host w') = true.
Proof.
  intros host options w d B C A D H.
  destruct (beginBatch_attached host options w d B C A D)
    as (m & w' & E & _ & _ & _ & _ & Er & Ca & _ & W).
  rewrite H in W. destruct W as (B' & L' & W' & _ & T).
  exists w'. repeat (split; [assumption|]). split.
  - rewrite T, detachCount_app. cbn. lia.
  - apply checkCancelled_iff. right. exact L'.
Qed.

Lemma beginBatch_without_window_witness :
  exists w',
    beginBatch (withoutWindow readyHost) defaultOptions (initialWorld 0)
    = (Returned tt, w')
    /\ batchStarted w' = false /\ renderLeaf w' = None
    /\ electronWindow w' = None
    /\ errorInBatch w' = false /\ cancelled w' = false
    /\ trace w'
       = trace (initialWorld 0)
         ++ [TabOpened 0;
             Noticed "Failed to get the render window, please try again."]
    /\ detachCount (trace w') = detachCount (trace (initialWorld 0))
    /\ fst (checkCancelled (withoutWindow readyHost) w') = true.
Proof.
  apply (beginBatch_without_window (withoutWindow readyHost) defaultOptions
           (initialWorld 0) 3).
  - reflexivity.
  - split; [reflexivity|constructor].
  - reflexivity.
  - lia.
  - reflexivity.
Defined.

(** X6. A batch that is opened and closed without an error releases exactly
    the tab it opened.  On an inactive, calm session whose new tab is
    attached within 2000 ms and has a window, [beginBatch] returns with the
    batch started, the leaf and the window held, the close listener
    registered and the loading container in place, having logged nothing;
    the [endBatch] that follows detaches that tab as its last act and leaves
    the session inactive. *)
Theorem beginBatch_endBatch_round_trip :
  forall (host : Host) (options : MarkdownRendererOptions) (w : World) (d : Z),
    batchStarted w = false ->
    calm host w ->
    attachDelay host (nextTab w) = Some d -> d <= 2000 ->
    hasWindow host (nextTab w) = true ->
    exists w',
      beginBatch host options w = (Returned tt, w')
      /\ batchStarted w' = true
      /\ renderLeaf w' = Some (mkLeaf (nextTab w) (now w))
      /\ electronWindow w' = Some (nextTab w)
      /\ attached host (mkLeaf (nextTab w) (now w)) (now w') = true
      /\ closeListeners w' = closeListeners w ++ [nextTab w]
      /\ loadingContainer w' = Some (nextTab w)
      /\ fullLog w' = fullLog w
      /\ trace w'
         = trace w
           ++ [TabOpened (nextTab w);
               if displayProgress options then WindowDocked (nextTab w)
               else WindowHidden (nextTab w);
               WindowPinned (nextTab w)]
      /\ (exists es,
            trace (endBatch host w') = trace w' ++ es ++ [Detached (nextTab w)]
            /\ Forall isConsole es)
      /\ batchStarted (endBatch host w') = false
      /\ renderLeaf (endBatch host w') = None
      /\ electronWindow (endBatch host w') = None.
Proof.
  intros host options w d B C A D H.
  destruct (beginBatch_attached host options w d B C A D)
    as (m & w' & E & N & (Dm & _) & _ & F & Er & _ & _ & W).
  rewrite H in W. destruct W as (B' & L' & W' & Cl & Lc & _ & T).
  exists w'. repeat (split; [assumption|]). split.
  { unfold attached. cbn [leafId openedAt]. rewrite A. apply Z.leb_le. lia. }
  repeat (split; [assumption|]). split.
  { apply (endBatch_released host w' _ B' L' Er). }
  destruct (endBatch_clears host w' B') as (X1 & X2 & X3 & _).
  repeat split; assumption.
Qed.

Lemma beginBatch_endBatch_round_trip_witness :
  exists w',
    beginBatch readyHost defaultOptions (initialWorld 0) = (Returned tt, w')
    /\ batchStarted w' = true
    /\ renderLeaf w' = Some (mkLeaf 0 0)
    /\ electronWindow w' = Some 0%nat
    /\ attached readyHost (mkLeaf 0 0) (now w') = true
    /\ closeListeners w' = closeListeners (initialWorld 0) ++ [0%nat]
    /\ loadingContainer w' = Some 0%nat
    /\ fullLog w' = fullLog (initialWorld 0)
    /\ trace w'
       = trace (initialWorld 0)
         ++ [TabOpened 0; WindowDocked 0; WindowPinned 0]
    /\ (exists es,
          trace (endBatch readyHost w') = trace w' ++ es ++ [Detached 0]
          /\ Forall isConsole es)
    /\ batchStarted (endBatch readyHost w') = false
    /\ renderLeaf (endBatch readyHost w') = None
    /\ electronWindow (endBatch readyHost w') = None.
Proof.
  apply (beginBatch_endBatch_round_trip readyHost defaultOptions
           (initialWorld 0) 3).
  - reflexivity.
  - split; [reflexivity|constructor].
  - reflexivity.
  - lia.
  - reflexivity.
Defined.

(** ** Class lists *)

(** A class token: not empty, and free of white space. *)
Fixpoint spaceless (s : string) : bool :=
  match s with
  | EmptyString => true
  | String c rest => negb (isSpace c) && spaceless rest
  end.

Definition isToken (t : string) : Prop := t <> "" /\ spaceless t = true.

Lemma eqb_empty_false : forall t, t <> "" -> String.eqb t "" = false.
Proof.
  intros t H. destruct (String.eqb t "") eqn:E; [|reflexivity].
  apply String.eqb_eq in E. contradiction.
Qed.

Lemma spaceless_app :
  forall a b, spaceless (a ++ b) = spaceless a && spaceless b.
Proof.
  induction a as [|c a IH]; intros b; cbn; [reflexivity|].
  rewrite IH, andb_assoc. reflexivity.
Qed.

Lemma append_cons_assoc :
  forall cur c rest,
    ((cur ++ String c "") ++ rest)%string = (cur ++ String c rest)%string.
Proof. intros. rewrite append_assoc. reflexivity. Qed.

(** Reading a run of characters without white space extends the token
    being read. *)
Lemma tokensAux_run :
  forall t rest cur,
    spaceless t = true ->
    tokensAux (t ++ rest) cur = tokensAux rest (cur ++ t).
Proof.
  induction t as [|c t IH]; intros rest cur S; cbn [String.append tokensAux].
  - rewrite append_nil_r. reflexivity.
  - cbn in S. apply andb_true_iff in S. destruct S as (Sc & St).
    apply negb_true_iff in Sc. rewrite Sc.
    rewrite IH by exact St. rewrite append_cons_assoc. reflexivity.
Qed.

(** The tokens of a serialised token list are the list. *)
Lemma tokens_joinTokens :
  forall ts, Forall isToken ts -> tokens (joinTokens ts) = ts.
Proof.
  unfold tokens, joinTokens.
  induction ts as [|x ts IH]; intros F; [reflexivity|].
  inversion F as [|? ? (Nx & Sx) F']; subst.
  destruct ts as [|y ts].
  - cbn [String.concat].
    rewrite <- (append_nil_r x) at 1.
    rewrite tokensAux_run by exact Sx. cbn [tokensAux String.append].
    rewrite eqb_empty_false by exact Nx. reflexivity.
  - change (String.concat " " (x :: y :: ts))
      with (x ++ String " " (String.concat " " (y :: ts)))%string.
    rewrite tokensAux_run by exact Sx.
    cbn [tokensAux String.append].
    change (isSpace " ") with true. cbv iota.
    rewrite eqb_empty_false by exact Nx.
    rewrite (IH F'). reflexivity.
Qed.

Lemma tokensAux_tokens :
  forall s cur,
    spaceless cur = true ->
    Forall isToken (tokensAux s cur).
Proof.
  induction s as [|c s IH]; intros cur S; cbn [tokensAux].
  - destruct (String.eqb cur "") eqn:E; [constructor|].
    constructor; [|constructor]. split; [|exact S].
    intros ->. discriminate E.
  - destruct (isSpace c) eqn:Sp.
    + destruct (String.eqb cur "") eqn:E; [apply IH; reflexivity|].
      constructor; [|apply IH; reflexivity].
      split; [|exact S]. intros ->. discriminate E.
    + apply IH. rewrite spaceless_app, S. cbn. rewrite Sp. reflexivity.
Qed.

Lemma tokens_tokens : forall s, Forall isToken (tokens s).
Proof. intros s. apply tokensAux_tokens. reflexivity. Qed.

Lemma dedupe_tokens :
  forall ts, Forall isToken ts -> Forall isToken (dedupe ts).
Proof.
  induction ts as [|x ts IH]; intros F; [constructor|].
  inversion F; subst. cbn [dedupe]. constructor; [assumption|].
  apply Forall_filter. apply IH. assumption.
Qed.

Lemma existsb_filter_other :
  forall (c x : string) l,
    String.eqb c x = false ->
    existsb (String.eqb c) (filter (fun y => negb (String.eqb x y)) l)
    = existsb (String.eqb c) l.
Proof.
  intros c x l N. induction l as [|y l IH]; [reflexivity|].
  cbn [filter existsb]. destruct (String.eqb x y) eqn:E; cbn [negb existsb].
  - apply String.eqb_eq in E. subst y. rewrite N. exact IH.
  - rewrite IH. reflexivity.
Qed.

Lemma existsb_dedupe :
  forall c ts, existsb (String.eqb c) (dedupe ts) = existsb (String.eqb c) ts.
Proof.
  intros c. induction ts as [|x ts IH]; [reflexivity|].
  cbn [dedupe existsb]. destruct (String.eqb c x) eqn:E; [reflexivity|].
  cbn [orb]. rewrite existsb_filter_other by exact E. exact IH.
Qed.

(** The class list after [classList.add]. *)
Lemma classList_classListAdd :
  forall c n,
    isElement n = true -> isToken c ->
    classList (classListAdd c n)
    = if existsb (String.eqb c) (classList n) then dedupe (classList n)
      else dedupe (classList n) ++ [c].
Proof.
  intros c n E T. unfold classListAdd. rewrite existsb_dedupe.
  unfold classList at 1, className.
  rewrite getAttribute_setAttribute by exact E.
  pose proof (dedupe_tokens _ (tokens_tokens (className n))) as D.
  fold (classList n) in D.
  destruct (existsb (String.eqb c) (classList n)).
  - apply tokens_joinTokens, D.
  - apply tokens_joinTokens, Forall_app. split; [exact D|].
    constructor; [exact T|constructor].
Qed.

(** After [classList.add(c)] the element has the class, and keeps or lacks
    every other class as before. *)
Lemma hasClass_classListAdd :
  forall c c' n,
    isElement n = true -> isToken c ->
    hasClass c' (classListAdd c n) = (String.eqb c' c || hasClass c' n).
Proof.
  intros c c' n E T. unfold hasClass.
  rewrite isElement_classListAdd, E. cbn [andb].
  rewrite classList_classListAdd by assumption.
  destruct (existsb (String.eqb c) (classList n)) eqn:X.
  - rewrite existsb_dedupe.
    destruct (String.eqb c' c) eqn:Q; [|reflexivity].
    apply String.eqb_eq in Q. subst c'. rewrite X. reflexivity.
  - rewrite existsb_app, existsb_dedupe. cbn [existsb].
    rewrite orb_false_r. apply orb_comm.
Qed.

(** ** The plain renderers *)

Section DelayFacts.
Variable host : Host.

(** In a quiet session [await delay(ms)] only moves the clock. *)
Lemma delay_quiet :
  forall (ms : Z) (w : World),
    quiet host w -> 0 <= ms ->
    exists w',
      delay host ms w = (Returned tt, w')
      /\ Advance host w w' []
      /\ now w' = now w + ms.
Proof.
  intros ms w Q P. unfold delay, act, elapse.
  destruct (iter_tick_Advance host (Z.to_nat ms) w Q) as (A & N).
  pose proof (microtasks_Advance host _ (ad_quiet _ _ _ _ A)) as A2.
  destruct (microtasks_quiet host _ (ad_quiet _ _ _ _ A)) as (_ & S).
  eexists. split; [reflexivity|]. split.
  - apply (Advance_trans host _ _ _ [] [] A A2).
  - rewrite (st_now _ _ S), N, Z2Nat.id by exact P. reflexivity.
Qed.

Lemma iter_tick_EndedStep :
  forall m w, EndedStep w (Nat.iter m (tick host) w).
Proof.
  induction m as [|m IH]; intros w; [apply EndedStep_refl|].
  change (Nat.iter (S m) (tick host) w)
    with (tick host (Nat.iter m (tick host) w)).
  eapply EndedStep_trans; [apply IH|apply tick_EndedStep].
Qed.

(** Whatever the session, [await delay(ms)] returns, and it revives neither
    a batch that has ended, nor a leaf that is gone, nor a session that was
    cancelled. *)
Lemma delay_EndedStep :
  forall (ms : Z) (w : World),
    exists w', delay host ms w = (Returned tt, w') /\ EndedStep w w'.
Proof.
  intros ms w. unfold delay, act, elapse.
  eexists. split; [reflexivity|].
  eapply EndedStep_trans; [apply iter_tick_EndedStep|apply microtasks_EndedStep].
Qed.

Lemma checkCancelled_lost :
  forall w,
    cancelled w = true \/ renderLeaf w = None ->
    exists w', checkCancelled host w = (true, w') /\ batchStarted w' = false.
Proof.
  intros w H. apply (checkCancelled_iff host) in H.
  unfold checkCancelled in *.
  destruct (cancelled w || negb match renderLeaf w with
                                | Some _ => true
                                | None => false
                                end); [|discriminate H].
  eexists. split; [reflexivity|]. apply endBatch_ends.
Qed.

Lemma lost_EndedStep :
  forall w w',
    EndedStep w w' ->
    cancelled w = true \/ renderLeaf w = None ->
    cancelled w' = true \/ renderLeaf w' = None.
Proof.
  intros w w' S [C|L]; [left; apply (es_cancel _ _ S C)|right; apply (es_leaf _ _ S L)].
Qed.

End DelayFacts.

(** X8. [renderGeneric] returns after exactly 2000 ms, whatever the
    session.  In a session that nobody cancels it then returns the
    container element of the view, put into the container of the options
    when there is one, and has logged nothing and changed nothing of the
    batch.  In a session that is cancelled or has lost its leaf when the
    call is made it returns [undefined], also after the 2000 ms, and the
    batch is ended. *)
Theorem renderGeneric_contract :
  forall (host : Host) (view : View) (options : MarkdownRendererOptions)
         (w : World),
    (exists r w',
        renderGeneric host view options w = (Returned r, w')
        /\ now w' = now w + 2000)
    /\ (quiet host w ->
        exists w',
          renderGeneric host view options w
          = (Returned (Some (vContainerEl view),
                       intoContainer options (vContainerEl view)), w')
          /\ now w' = now w + 2000
          /\ fullLog w' = fullLog w
          /\ batchStarted w' = batchStarted w
          /\ errorInBatch w' = errorInBatch w
          /\ quiet host w')
    /\ (cancelled w = true \/ renderLeaf w = None ->
        exists w',
          renderGeneric host view options w
          = (Returned (None, container options), w')
          /\ now w' = now w + 2000
          /\ batchStarted w' = false).
Proof.
  intros host view options w. split; [|split].
  - destruct (delay_EndedStep host 2000 w) as (w1 & E & _).
    pose proof (delay_now host 2000 w w1 ltac:(lia) E) as N.
    pose proof (checkCancelled_now host w1) as C.
    unfold renderGeneric.
    rewrite (bind_eq _ _ _ _ _ _ _ E), bind_call.
    destruct (checkCancelled host w1) as [c w2]. cbn [fst snd] in *.
    destruct c; eexists; exists w2; (split; [reflexivity|lia]).
  - intros Q.
    destruct (delay_quiet host 2000 w Q ltac:(lia)) as (w1 & E & A & N).
    unfold renderGeneric.
    rewrite (bind_eq _ _ _ _ _ _ _ E), bind_call.
    rewrite (checkCancelled_quiet host w1 (ad_quiet _ _ _ _ A)).
    cbn [fst snd]. exists w1. split; [reflexivity|].
    split; [exact N|]. split.
    { rewrite (ad_log _ _ _ _ A). cbn. apply append_nil_r. }
    split; [apply (ad_batch _ _ _ _ A)|].
    split; [apply (ad_error _ _ _ _ A); constructor|apply (ad_quiet _ _ _ _ A)].
  - intros H.
    destruct (delay_EndedStep host 2000 w) as (w1 & E & S).
    pose proof (delay_now host 2000 w w1 ltac:(lia) E) as N.
    pose proof (checkCancelled_now host w1) as Cn.
    destruct (checkCancelled_lost host w1 (lost_EndedStep w w1 S H))
      as (w2 & C & B).
    unfold renderGeneric.
    rewrite (bind_eq _ _ _ _ _ _ _ E), bind_call, C.
    rewrite C in Cn. cbn [fst snd] in *. exists w2.
    split; [reflexivity|]. split; [lia|exact B].
Qed.

Lemma light_token : isToken "light".
Proof. split; [discriminate|reflexivity]. Qed.

Lemma dark_token : isToken "dark".
Proof. split; [discriminate|reflexivity]. Qed.

Lemma isElement_removeAttribute :
  forall name n, isElement (removeAttribute name n) = isElement n.
Proof. intros name []; reflexivity. Qed.

Lemma kidsOf_removeAttribute :
  forall name n, kidsOf (removeAttribute name n) = kidsOf n.
Proof. intros name []; reflexivity. Qed.

(** X9. [renderExcalidraw] waits 500 ms.  In a session that nobody cancels
    it then returns the drawing: the SVG of the view with the class "dark"
    and without its [filter] attribute when it had a non-empty one, with the
    class "light" otherwise, its children untouched, wrapped in an
    [obsidian-document] and an [excalidraw-plugin] element unless
    [createDocumentContainer] is false, in which case the SVG itself is
    returned.  In a session that is cancelled or has lost its leaf it
    returns [undefined] and the batch is ended. *)
Theorem renderExcalidraw_contract :
  forall (host : Host) (view : View) (options : MarkdownRendererOptions)
         (w : World),
    let dark := match getAttribute "filter" (vSvg view) with
                | Some f => negb (String.eqb f "")
                | None => false
                end in
    (quiet host w -> isElement (vSvg view) = true ->
     exists w' svg,
       renderExcalidraw host view options w
       = (let contentEl :=
            if createDocumentContainer options
            then Elem "div" [("class", "obsidian-document")] [] None
                      [Elem "div" [("class", "excalidraw-plugin")] [] None [svg]]
            else svg in
          (Returned (Some contentEl, intoContainer options contentEl), w'))
       /\ now w' = now w + 500
       /\ fullLog w' = fullLog w
       /\ hasClass (if dark then "dark" else "light") svg = true
       /\ (dark = true -> getAttribute "filter" svg = None)
       /\ (dark = false ->
           getAttribute "filter" svg = getAttribute "filter" (vSvg view))
       /\ kidsOf svg = kidsOf (vSvg view))
    /\ (cancelled w = true \/ renderLeaf w = None ->
        exists w',
          renderExcalidraw host view options w
          = (Returned (None, container options), w')
          /\ batchStarted w' = false).
Proof.
  intros host view options w dark. split.
  - intros Q El.
    destruct (delay_quiet host 500 w Q ltac:(lia)) as (w1 & E & A & N).
    pose proof (microtasks_Advance host w1 (ad_quiet _ _ _ _ A)) as A2.
    destruct (microtasks_quiet host w1 (ad_quiet _ _ _ _ A)) as (Q2 & S2).
    unfold renderExcalidraw.
    rewrite (bind_eq _ _ _ _ _ _ _ E). unfold yield. rewrite bind_act.
    cbv zeta. rewrite bind_call, (checkCancelled_quiet host _ Q2).
    cbn [fst snd].
    exists (microtasks w1). eexists. split; [reflexivity|].
    split; [rewrite (st_now _ _ S2); exact N|].
    split.
    { rewrite (st_fullLog _ _ S2), (ad_log _ _ _ _ A). cbn.
      apply append_nil_r. }
    unfold dark.
    destruct (getAttribute "filter" (vSvg view)) as [f|] eqn:F.
    + destruct (String.eqb f "") eqn:Ef; cbn [negb].
      * split; [rewrite hasClass_classListAdd
                  by (exact El || exact light_token); reflexivity|].
        split; [discriminate|]. split.
        -- intros _. unfold classListAdd, getAttribute.
           destruct (vSvg view); [discriminate El|].
           cbn [setAttribute attrsOf]. rewrite lookup_assign_other by reflexivity.
           exact F.
        -- apply kidsOf_classListAdd.
      * split.
        { rewrite hasClass_classListAdd; [reflexivity| |exact dark_token].
          rewrite isElement_removeAttribute. exact El. }
        split.
        -- intros _. unfold classListAdd, getAttribute.
           destruct (vSvg view); [discriminate El|].
           cbn [removeAttribute setAttribute attrsOf].
           rewrite lookup_assign_other by reflexivity.
           apply lookup_unassign_same.
        -- split; [discriminate|].
           rewrite kidsOf_classListAdd. apply kidsOf_removeAttribute.
    + split; [rewrite hasClass_classListAdd
                by (exact El || exact light_token); reflexivity|].
      split; [discriminate|]. split.
      * intros _. unfold classListAdd, getAttribute.
        destruct (vSvg view); [discriminate El|].
        cbn [setAttribute attrsOf]. rewrite lookup_assign_other by reflexivity.
        exact F.
      * apply kidsOf_classListAdd.
  - intros H.
    destruct (delay_EndedStep host 500 w) as (w1 & E & S).
    pose proof (microtasks_EndedStep w1) as S2.
    destruct (checkCancelled_lost host (microtasks w1)
                (lost_EndedStep _ _ (EndedStep_trans _ _ _ S S2) H))
      as (w2 & C & B).
    unfold renderExcalidraw.
    rewrite (bind_eq _ _ _ _ _ _ _ E). unfold yield. rewrite bind_act.
    cbv zeta. rewrite bind_call, C.
    cbn [fst snd]. exists w2. split; [reflexivity|exact B].
Qed.

(** ** The canvas renderer *)

(** The element of a canvas node that embeds nothing, as it is appended to
    the canvas: a link card gets its frame. *)
Definition cardElement (cn : CanvasNode) : node :=
  match nUrl cn with
  | Some url =>
      if String.eqb url "" then nNodeEl cn
      else updateAt (nContentAt cn) (appendChild (linkFrame url)) (nNodeEl cn)
  | None => nNodeEl cn
  end.

Definition plainCard (cn : CanvasNode) : Prop :=
  firstMatch isEmbedContent (nNodeEl cn) = None.

Section CanvasFacts.
Variable host : Host.

(** Awaiting the [render()] of every node or edge, in a quiet session. *)
Lemma renders_quiet :
  forall (A : Type) (items : list A) (w : World),
    quiet host w ->
    exists w',
      fold_right (fun (_ : A) (k : M unit) => bind yield (fun _ => k))
                 (ret tt) items w
      = (Returned tt, w')
      /\ Advance host w w' []
      /\ now w' = now w.
Proof.
  induction items as [|x items IH]; intros w Q.
  - exists w. split; [reflexivity|]. split; [apply Advance_refl, Q|reflexivity].
  - cbn [fold_right]. unfold yield at 1. rewrite bind_act.
    pose proof (microtasks_Advance host w Q) as A1.
    destruct (microtasks_quiet host w Q) as (Q1 & S1).
    destruct (IH (microtasks w) Q1) as (w' & E & A2 & N).
    exists w'. split; [exact E|]. split.
    + apply (Advance_trans host _ _ _ [] [] A1 A2).
    + rewrite N. apply (st_now _ _ S1).
Qed.

Lemma renderCanvasNodes_plain :
  forall allExportedPaths options nodes w,
    Forall plainCard nodes ->
    renderCanvasNodes host allExportedPaths options nodes w
    = (Returned (map cardElement nodes), w).
Proof.
  intros allExportedPaths options nodes w F. revert w.
  induction F as [|cn nodes P _ IH]; intros w; [reflexivity|].
  cbn [renderCanvasNodes map].
  assert (E : renderCanvasNode host allExportedPaths options cn w
              = (Returned (cardElement cn), w)).
  { unfold renderCanvasNode, cardElement. unfold plainCard in P.
    rewrite P. reflexivity. }
  rewrite (bind_eq _ _ _ _ _ _ _ E), (bind_eq _ _ _ _ _ _ _ (IH w)).
  reflexivity.
Qed.

(** The steps of [renderCanvas] before it looks for the canvas element. *)
Lemma renderCanvas_prologue :
  forall (B : Type) (view : View) (k : M B) (w : World),
    quiet host w ->
    exists w1,
      bind (delay host 500)
           (fun _ =>
              bind (fold_right (fun (_ : CanvasNode) (k : M unit) =>
                                  bind yield (fun _ => k)) (ret tt) (vNodes view))
                   (fun _ =>
                      bind (fold_right (fun (_ : CanvasEdge) (k : M unit) =>
                                          bind yield (fun _ => k)) (ret tt)
                                       (vEdges view))
                           (fun _ => bind (delay host 500) (fun _ => k)))) w
      = k w1
      /\ Advance host w w1 []
      /\ now w1 = now w + 1000.
Proof.
  intros B view k w Q.
  destruct (delay_quiet host 500 w Q ltac:(lia)) as (w1 & E1 & A1 & N1).
  destruct (renders_quiet CanvasNode (vNodes view) w1 (ad_quiet _ _ _ _ A1))
    as (w2 & E2 & A2 & N2).
  destruct (renders_quiet CanvasEdge (vEdges view) w2 (ad_quiet _ _ _ _ A2))
    as (w3 & E3 & A3 & N3).
  destruct (delay_quiet host 500 w3 (ad_quiet _ _ _ _ A3) ltac:(lia))
    as (w4 & E4 & A4 & N4).
  exists w4.
  rewrite (bind_eq _ _ _ _ _ _ _ E1), (bind_eq _ _ _ _ _ _ _ E2),
          (bind_eq _ _ _ _ _ _ _ E3), (bind_eq _ _ _ _ _ _ _ E4).
  split; [reflexivity|]. split.
  - apply (Advance_trans host _ _ _ [] [] A1).
    apply (Advance_trans host _ _ _ [] [] A2).
    apply (Advance_trans host _ _ _ [] [] A3 A4).
  - lia.
Qed.

End CanvasFacts.

(** X10. [renderCanvas] checks for cancellation before it waits: in a
    session that is cancelled or has lost its leaf it returns [undefined] at
    once and the batch is ended.  In a session that nobody cancels it waits
    1000 ms in all; then, if the view holds no [.canvas] element, it throws,
    and if it does and no node embeds a document, it returns the content
    element with the canvas emptied and refilled in this order: the
    container of the edges, the container of the edge heads, the elements of
    the nodes (a link card with its frame appended), the labels of the
    edges; with [createDocumentContainer] false the canvas element itself is
    returned. *)
Theorem renderCanvas_contract :
  forall (host : Host) (view : View) (options : MarkdownRendererOptions)
         (w : World),
    (cancelled w = true \/ renderLeaf w = None ->
     exists w',
       renderCanvas host view options w = (Returned (None, container options), w')
       /\ now w' = now w
       /\ batchStarted w' = false)
    /\ (quiet host w ->
        firstMatch (hasClass "canvas") (vContentEl view) = None ->
        exists e w',
          renderCanvas host view options w = (Thrown e, w')
          /\ now w' = now w + 1000)
    /\ (quiet host w ->
        forall parent i canvasEl,
          firstMatch (hasClass "canvas") (vContentEl view) = Some (parent, i) ->
          nodeAt (parent ++ [i]) (vContentEl view) = Some canvasEl ->
          Forall plainCard (vNodes view) ->
          exists w',
            renderCanvas host view options w
            = (let canvasEl' :=
                 setKids ([Elem "svg" [("class", "canvas-edges")] [] None
                                (map eLineGroupEl (vEdges view));
                           Elem "svg" [("class", "canvas-edges")] [] None
                                (map eLineEndGroupEl (vEdges view))]
                            ++ map cardElement (vNodes view)
                            ++ flat_map (fun e => match eLabel e with
                                                  | Some l => [l]
                                                  | None => []
                                                  end) (vEdges view))
                         canvasEl in
               let contentEl :=
                 if createDocumentContainer options
                 then updateAt (parent ++ [i]) (fun _ => canvasEl')
                               (vContentEl view)
                 else canvasEl' in
               (Returned (Some contentEl, intoContainer options contentEl), w'))
            /\ now w' = now w + 1000
            /\ fullLog w' = fullLog w).
Proof.
  intros host view options w. split; [|split].
  - intros H. destruct (checkCancelled_lost host w H) as (w' & C & B).
    unfold renderCanvas. rewrite bind_call, C. cbn [fst snd].
    exists w'. split; [reflexivity|]. split; [|exact B].
    unfold checkCancelled in C.
    destruct (cancelled w || _); [|discriminate C].
    injection C as <-. rewrite endBatch_now.
    apply (ls_now _ _ (ExportLog_log_step host "cancelled" "" w)).
  - intros Q None'.
    unfold renderCanvas. rewrite bind_call, (checkCancelled_quiet host w Q).
    cbn [fst snd]. cbv zeta.
    match goal with
    | |- context [bind (delay host 500) (fun _ => bind _ (fun _ => bind _
                   (fun _ => bind (delay host 500) (fun _ => ?k))))] =>
        destruct (renderCanvas_prologue host _ view k w Q) as (w1 & E & A & N)
    end.
    rewrite None' in E |- *.
    eexists. exists w1. split; [rewrite E; reflexivity|exact N].
  - intros Q parent i canvasEl Found At Plain.
    unfold renderCanvas. rewrite bind_call, (checkCancelled_quiet host w Q).
    cbn [fst snd]. cbv zeta.
    match goal with
    | |- context [bind (delay host 500) (fun _ => bind _ (fun _ => bind _
                   (fun _ => bind (delay host 500) (fun _ => ?k))))] =>
        destruct (renderCanvas_prologue host _ view k w Q) as (w1 & E & A & N)
    end.
    rewrite Found, At in E |- *.
    exists w1. rewrite E.
    rewrite (bind_eq _ _ _ _ _ _ _
               (renderCanvasNodes_plain host _ options (vNodes view) w1 Plain)).
    rewrite bind_call, (checkCancelled_quiet host w1 (ad_quiet _ _ _ _ A)).
    cbn [fst snd]. split; [reflexivity|]. split; [exact N|].
    rewrite (ad_log _ _ _ _ A). cbn. apply append_nil_r.
Qed.

(** ** The markdown renderer and [renderFile] inside a batch *)

Section MarkdownFacts.
Variable host : Host.

Lemma renderSections_length :
  forall preview secs w els w',
    renderSections host preview secs w = (Returned (Some els), w') ->
    List.length els = List.length secs.
Proof.
  intros preview. induction secs as [|sec secs IH]; intros w els w' H.
  - cbn in H. inversion H. reflexivity.
  - cbn [renderSections] in H. unfold bind at 1 in H.
    destruct (renderSection host preview sec w) as [[[el|]|e|] w1];
      try discriminate H.
    unfold bind in H.
    destruct (renderSections host preview secs w1) as [[[rs|]|e|] w2] eqn:R;
      try discriminate H.
    cbn in H. inversion H. subst. cbn. f_equal. apply (IH w1 rs _ R).
Qed.

Lemma renderMarkdownView_timely :
  forall preview options w,
    quiet host w ->
    Forall timely (pSections preview) ->
    exists els w' lines,
      renderMarkdownView host preview options w
      = (Returned (Some (documentFrom preview options els),
                   intoContainer options (documentFrom preview options els)), w')
      /\ List.length els = List.length (pSections preview)
      /\ Advance host w w' lines.
Proof.
  intros preview options w Q T. unfold renderMarkdownView.
  match goal with
  | |- context [bind yield (fun _ => bind _ (fun _ => bind yield (fun _ => ?k)))] =>
      destruct (prologue_Advance host preview _ k w Q) as (w1 & l1 & E1 & A1 & _)
  end.
  rewrite E1.
  destruct (renderSections_timely host preview (pSections preview) w1
              (ad_quiet _ _ _ _ A1) T) as (els & w2 & l2 & E2 & A2 & _ & _).
  rewrite (bind_eq _ _ _ _ _ _ _ E2). unfold yield. rewrite bind_act. unfold ret.
  pose proof (microtasks_Advance host w2 (ad_quiet _ _ _ _ A2)) as A3.
  exists els, (microtasks w2), (l1 ++ l2 ++ []).
  split; [reflexivity|].
  split; [apply (renderSections_length _ _ _ _ _ E2)|].
  apply (Advance_trans host _ _ _ _ _ A1 (Advance_trans host _ _ _ _ _ A2 A3)).
Qed.

(** A wait whose predicate holds when it is called. *)
Lemma awaitUntil_at_once :
  forall (condition : World -> bool * World) (timeout interval : Z) (w : World),
    condition w = (true, w) ->
    awaitUntil host condition timeout interval w = (Returned true, microtasks w).
Proof.
  intros condition timeout interval w C. unfold awaitUntil, waitUntil.
  rewrite C. reflexivity.
Qed.

End MarkdownFacts.

Lemma hasClass_first_token :
  forall (c rest : string) t a s v kids,
    isToken c ->
    hasClass c (Elem t (("class", (c ++ String " " rest)%string) :: a) s v kids)
    = true.
Proof.
  intros c rest t a s v kids (N & S).
  unfold hasClass, classList, className, getAttribute, tokens.
  cbn [isElement attrsOf lookup String.eqb Ascii.eqb Bool.eqb andb].
  rewrite tokensAux_run by exact S. cbn [tokensAux String.append].
  change (isSpace " ") with true. cbv iota.
  rewrite eqb_empty_false by exact N.
  cbn [existsb]. rewrite String.eqb_refl. reflexivity.
Qed.

(** X11. In a session that nobody cancels, a markdown preview whose sections
    are all rendered and measured in time yields a document of a fixed
    shape: a [div] whose class is "obsidian-document" followed by the class
    of the preview element, holding the [markdown-sizer] with the pusher
    (when [createPusherElement] is set) and then one element per section,
    the banner of the banner plugin moved before the sizer when there is
    one.  The document has the class [obsidian-document], so the
    post-processor takes it as the document root without searching for a
    view container.  The batch is as it was. *)
Theorem renderMarkdownView_document :
  forall (host : Host) (preview : Preview) (options : MarkdownRendererOptions)
         (w : World),
    quiet host w ->
    Forall timely (pSections preview) ->
    exists els w',
      renderMarkdownView host preview options w
      = (Returned (Some (documentFrom preview options els),
                   intoContainer options (documentFrom preview options els)), w')
      /\ List.length els = List.length (pSections preview)
      /\ markDocumentRoot (documentFrom preview options els)
         = Some (documentFrom preview options els)
      /\ batchStarted w' = batchStarted w
      /\ quiet host w'.
Proof.
  intros host preview options w Q T.
  destruct (renderMarkdownView_timely host preview options w Q T)
    as (els & w' & lines & E & L & A).
  exists els, w'. split; [exact E|]. split; [exact L|]. split.
  - assert (H : hasClass "obsidian-document" (documentFrom preview options els)
                = true).
    { unfold documentFrom.
      apply (hasClass_first_token "obsidian-document" (pClassName preview)).
      split; [discriminate|reflexivity]. }
    unfold markDocumentRoot. rewrite H. reflexivity.
  - split; [apply (ad_batch _ _ _ _ A)|apply (ad_quiet _ _ _ _ A)].
Qed.

Lemma plainSection_timely : timely plainSection.
Proof. exists 5, 3. repeat split; lia. Qed.

Lemma renderMarkdownView_document_witness :
  exists els w',
    renderMarkdownView readyHost (previewOf [plainSection]) defaultOptions
                       activeWorld
    = (Returned (Some (documentFrom (previewOf [plainSection]) defaultOptions els),
                 intoContainer defaultOptions
                   (documentFrom (previewOf [plainSection]) defaultOptions els)),
       w')
    /\ List.length els = List.length (pSections (previewOf [plainSection]))
    /\ markDocumentRoot (documentFrom (previewOf [plainSection]) defaultOptions els)
       = Some (documentFrom (previewOf [plainSection]) defaultOptions els)
    /\ batchStarted w' = batchStarted activeWorld
    /\ quiet readyHost w'.
Proof.
  apply (renderMarkdownView_document readyHost (previewOf [plainSection])
           defaultOptions activeWorld).
  - exact activeWorld_quiet.
  - constructor; [exact plainSection_timely|constructor].
Defined.

(** X12. Inside a batch that is already started and that nobody cancels,
    [renderFile] of a file that is not a viewable medium leaves the batch
    open whatever the outcome.  When [openFile] throws, it returns
    [undefined], and the thrown value is in the log under the title
    "Rendering <path> failed: ", as it is when it is a string and as its
    JSON text otherwise ("{}" for an [Error]).  When the file opens into a
    markdown view whose sections are rendered and measured in time, it
    returns the document of the markdown renderer with the view type
    "markdown". *)
Theorem renderFile_in_batch :
  forall (host : Host) (file : TFile) (options : MarkdownRendererOptions)
         (w : World),
    quiet host w ->
    batchStarted w = true ->
    contains viewableMediaExtensions (extension file) = false ->
    (forall e,
        openFileError host file = Some e ->
        exists w',
          renderFile host file options w = (Returned (None, container options), w')
          /\ fullLog w' = (fullLog w ++ errorLine e (failureTitle file))%string
          /\ batchStarted w' = true
          /\ quiet host w')
    /\ (openFileError host file = None ->
        vType (viewOf host file) = "markdown" ->
        Forall timely (pSections (vPreviewMode (viewOf host file))) ->
        exists els w',
          let html := documentFrom (vPreviewMode (viewOf host file)) options els in
          renderFile host file options w
          = (Returned (Some (html, "markdown"), intoContainer options html), w')
          /\ List.length els
             = List.length (pSections (vPreviewMode (viewOf host file)))
          /\ batchStarted w' = true
          /\ quiet host w').
Proof.
  intros host file options w Q B Media.
  destruct (q_leaf _ _ Q) as (l & L).
  pose proof (microtasks_Advance host w Q) as A1.
  destruct (microtasks_quiet host w Q) as (Q1 & S1).
  pose proof (microtasks_Advance host _ Q1) as A2.
  destruct (microtasks_quiet host _ Q1) as (Q2 & S2).
  assert (L1 : renderLeaf (microtasks w) = Some l)
    by (rewrite (st_renderLeaf _ _ S1); exact L).
  assert (L2 : renderLeaf (microtasks (microtasks w)) = Some l)
    by (rewrite (st_renderLeaf _ _ S2); exact L1).
  split.
  - intros e Oe.
    pose proof (failRender_Advance host file e _ Q2) as A3.
    exists (failRender host (Some file) e (microtasks (microtasks w))).
    split.
    + unfold renderFile. rewrite Media, bind_call. cbn [fst snd].
      rewrite B. cbn [negb]. rewrite bind_ret.
      rewrite (bind_eq _ _ _ _ _ _ _
                 (awaitUntil_at_once host (leafOrCancelled host) 2000 1 w
                    ltac:(unfold leafOrCancelled; rewrite L; reflexivity))).
      rewrite bind_call. cbn [fst snd]. rewrite L1.
      unfold yield. rewrite bind_act, Oe, bind_act. reflexivity.
    + pose proof (Advance_trans host _ _ _ _ _ A1
                    (Advance_trans host _ _ _ _ _ A2 A3)) as A.
      split.
      { rewrite (ad_log _ _ _ _ A). cbn. rewrite append_nil_r. reflexivity. }
      split; [rewrite (ad_batch _ _ _ _ A); exact B|apply (ad_quiet _ _ _ _ A)].
  - intros Oe Vt T.
    destruct (renderMarkdownView_timely host (vPreviewMode (viewOf host file))
                options _ Q2 T) as (els & w3 & lines & E & Len & A3).
    exists els, w3. cbv zeta.
    pose proof (Advance_trans host _ _ _ _ _ A1
                  (Advance_trans host _ _ _ _ _ A2 A3)) as A.
    split.
    + unfold renderFile. rewrite Media, bind_call. cbn [fst snd].
      rewrite B. cbn [negb]. rewrite bind_ret.
      rewrite (bind_eq _ _ _ _ _ _ _
                 (awaitUntil_at_once host (leafOrCancelled host) 2000 1 w
                    ltac:(unfold leafOrCancelled; rewrite L; reflexivity))).
      rewrite bind_call. cbn [fst snd]. rewrite L1.
      unfold yield. rewrite bind_act, Oe, bind_call. cbn [fst snd].
      rewrite L2. cbv zeta. rewrite Vt. cbn [String.eqb Ascii.eqb Bool.eqb].
      rewrite (bind_eq _ _ _ _ _ _ _ E), bind_call.
      rewrite (checkCancelled_quiet host w3 (ad_quiet _ _ _ _ A3)).
      cbn [fst snd]. rewrite bind_ret. reflexivity.
    + split; [exact Len|].
      split; [rewrite (ad_batch _ _ _ _ A); exact B|apply (ad_quiet _ _ _ _ A)].
Qed.

Lemma brokenHost_quiet : quiet brokenHost activeWorld.
Proof.
  constructor.
  - vm_compute. reflexivity.
  - eexists. vm_compute. reflexivity.
  - vm_compute. constructor.
  - vm_compute. reflexivity.
  - vm_compute. repeat constructor.
Qed.

Lemma renderFile_in_batch_witness :
  (exists w',
      renderFile brokenHost noteFile defaultOptions activeWorld
      = (Returned (None, container defaultOptions), w')
      /\ fullLog w'
         = (fullLog activeWorld
              ++ errorLine (Obj "{}" "Error: ENOENT: no such file or directory")
                           (failureTitle noteFile))%string
      /\ batchStarted w' = true
      /\ quiet brokenHost w')
  /\ (exists els w',
        let html := documentFrom (vPreviewMode (viewOf readyHost noteFile))
                                 defaultOptions els in
        renderFile readyHost noteFile defaultOptions activeWorld
        = (Returned (Some (html, "markdown"), intoContainer defaultOptions html),
           w')
        /\ List.length els
           = List.length (pSections (vPreviewMode (viewOf readyHost noteFile)))
        /\ batchStarted w' = true
        /\ quiet readyHost w').
Proof.
  split.
  - apply (proj1 (renderFile_in_batch brokenHost noteFile defaultOptions
                    activeWorld brokenHost_quiet eq_refl eq_refl)).
    reflexivity.
  - apply (proj2 (renderFile_in_batch readyHost noteFile defaultOptions
                    activeWorld activeWorld_quiet eq_refl eq_refl)).
    + reflexivity.
    + reflexivity.
    + constructor; [exact plainSection_timely|constructor].
Defined.

(** ** The public interface *)

(** The page [createMediaPage] makes for a file, once it has gone through
    the post-processor. *)
Definition mediaPage (file : TFile) : node :=
  let tag := extentionToTag (extension file) in
  Elem "div" [("class", "obsidian-document")] [] None
       [Elem tag
             ((if String.eqb tag "video" || String.eqb tag "audio"
               then [("controls", "")] else [])
                ++ [("src", path file)]
                ++ (if String.eqb tag "iframe" then [("loading", "lazy")] else []))
             [] None []].

(** X13. For a file with one of the viewable media extensions the public
    [renderFile] needs no batch: it opens no tab, waits for nothing, logs
    nothing and leaves the session as it is, whatever state it is in.  It
    returns, with the view type "attachment", an [obsidian-document] holding
    one media element (img, video, audio, embed or iframe after the
    extension) whose [src] is the path of the file as it is, also for html
    files; audio and video have [controls].  The post-processor and the
    heading tree builder change nothing of it but for the frame of a text
    or html file, which is made to load lazily. *)
Theorem renderFile_media_page :
  forall (host : Host) (file : TFile) (options : MarkdownRendererOptions)
         (w : World),
    contains viewableMediaExtensions (extension file) = true ->
    postProcess options = true ->
    MarkdownRendererAPI.renderFile host file options w
    = (Returned (Some (mediaPage file, "attachment")), w)
    /\ In (extentionToTag (extension file))
          ["img"; "video"; "audio"; "embed"; "iframe"].
Proof.
  intros host [p n ext] [c pp mh cdc cpe dp ih fte] w Media PP.
  cbn in Media, PP. subst pp.
  unfold contains, viewableMediaExtensions in Media. cbn [existsb] in Media.
  repeat match type of Media with
         | (String.eqb ?a ?b || _) = true =>
             destruct (String.eqb a b) eqn:E;
               [apply String.eqb_eq in E; subst; clear Media
               |clear E; cbn [orb] in Media]
         end;
    try discriminate Media;
    (split;
     [destruct mh, cdc; vm_compute; reflexivity
     |vm_compute; repeat (try (left; reflexivity); right)]).
Qed.

Lemma renderFile_media_page_witness :
  MarkdownRendererAPI.renderFile readyHost (mkFile "img/photo.png" "photo.png" "png")
                                 defaultOptions (initialWorld 0)
  = (Returned (Some (mediaPage (mkFile "img/photo.png" "photo.png" "png"),
                     "attachment")), initialWorld 0)
  /\ In (extentionToTag (extension (mkFile "img/photo.png" "photo.png" "png")))
        ["img"; "video"; "audio"; "embed"; "iframe"].
Proof.
  apply (renderFile_media_page readyHost (mkFile "img/photo.png" "photo.png" "png")
           defaultOptions (initialWorld 0)); reflexivity.
Defined.

(** X14. [isConvertable] accepts an extension with or without one leading
    dot: for every string, the answer for the string with a dot put before
    it is whether the string is in the list of convertable extensions, and
    every extension of the list is accepted as it is, so are all viewable
    media extensions.  Only one dot is removed: no string that starts with
    two dots is convertable. *)
Theorem isConvertable_dot :
  forall extention : string,
    MarkdownRendererAPI.isConvertable ("." ++ extention)
    = contains MarkdownRendererAPI.convertableExtensions extention
    /\ (contains MarkdownRendererAPI.convertableExtensions extention = true ->
        MarkdownRendererAPI.isConvertable extention = true)
    /\ (contains viewableMediaExtensions extention = true ->
        MarkdownRendererAPI.isConvertable extention = true)
    /\ MarkdownRendererAPI.isConvertable (".." ++ extention) = false.
Proof.
  intros extention.
  assert (Listed :
    contains MarkdownRendererAPI.convertableExtensions extention = true ->
    MarkdownRendererAPI.isConvertable extention = true).
  { intros H. unfold MarkdownRendererAPI.isConvertable.
    replace (String.prefix "." extention) with false; [exact H|].
    unfold contains, MarkdownRendererAPI.convertableExtensions,
      viewableMediaExtensions in H.
    cbn [existsb app] in H.
    repeat match type of H with
           | (String.eqb ?a ?b || _) = true =>
               destruct (String.eqb a b) eqn:E;
                 [apply String.eqb_eq in E; subst; reflexivity
                 |clear E; cbn [orb] in H]
           end.
    discriminate H. }
  split.
  { unfold MarkdownRendererAPI.isConvertable.
    change ("." ++ extention)%string with (String "." extention).
    replace (String.prefix "." (String "." extention)) with true
      by (destruct extention; reflexivity).
    reflexivity. }
  split; [exact Listed|]. split; [|reflexivity].
  intros H. apply Listed.
  unfold contains, MarkdownRendererAPI.convertableExtensions.
  rewrite existsb_app. apply orb_true_iff. right. exact H.
Qed.

(** ** The steps of the post-processor *)

Lemma flat_map_ext_in :
  forall (A B : Type) (f g : A -> list B) (l : list A),
    (forall x, In x l -> f x = g x) -> flat_map f l = flat_map g l.
Proof.
  intros A B f g l H. induction l as [|x l IH]; [reflexivity|].
  cbn [flat_map]. rewrite (H x (or_introl eq_refl)), IH; [reflexivity|].
  intros y Y. apply H. right. exact Y.
Qed.

Lemma flat_map_nil_in :
  forall (A B : Type) (f : A -> list B) (l : list A),
    (forall x, In x l -> f x = []) -> flat_map f l = [].
Proof.
  intros A B f l H. induction l as [|x l IH]; [reflexivity|].
  cbn [flat_map]. rewrite (H x (or_introl eq_refl)), IH; [reflexivity|].
  intros y Y. apply H. right. exact Y.
Qed.

Lemma flat_map_nil_inv :
  forall (A B : Type) (f : A -> list B) (l : list A),
    flat_map f l = [] -> forall x, In x l -> f x = [].
Proof.
  intros A B f l. induction l as [|y l IH]; intros H x []; cbn in H;
    apply app_eq_nil in H; destruct H as (H1 & H2).
  - subst. exact H1.
  - apply IH; assumption.
Qed.

Lemma flat_map_flat_map :
  forall (A B C : Type) (g : B -> list C) (h : A -> list B) (l : list A),
    flat_map g (flat_map h l) = flat_map (fun x => flat_map g (h x)) l.
Proof.
  intros A B C g h l. induction l as [|x l IH]; [reflexivity|].
  cbn [flat_map]. rewrite flat_map_app, IH. reflexivity.
Qed.

(** A selector that looks at the tag and the attributes of the candidate
    only, not at its children. *)
Definition headOnly (q : node -> bool) : Prop :=
  forall t a s v kids kids',
    q (Elem t a s v kids) = q (Elem t a s v kids').

Section LocalSelectors.
Variable q : node -> bool.

Lemma descendantsWith_anc :
  forall n anc,
    descendantsWith (fun _ k => q k) anc n = querySelectorAll q n.
Proof.
  unfold querySelectorAll.
  induction n as [s|t a s v kids IH] using node_induction; intro anc;
    [reflexivity|].
  cbn [descendantsWith]. apply flat_map_ext_in. intros k K.
  rewrite Forall_forall in IH.
  rewrite (IH k K (Elem t a s v kids :: anc)), (IH k K [Elem t a s v kids]).
  reflexivity.
Qed.

Lemma querySelectorAll_elem :
  forall t a s v kids,
    querySelectorAll q (Elem t a s v kids)
    = flat_map (fun k => (if q k then [k] else []) ++ querySelectorAll q k) kids.
Proof.
  intros. unfold querySelectorAll at 1. cbn [descendantsWith].
  apply flat_map_ext. intro k. rewrite descendantsWith_anc. reflexivity.
Qed.

Lemma rewriteMatch_anc :
  forall f n anc,
    rewriteMatch (fun _ k => q k) f anc n = rewriteMatch (fun _ k => q k) f [] n.
Proof.
  intros f.
  induction n as [s|t a s v kids IH] using node_induction; intro anc;
    [reflexivity|].
  cbn [rewriteMatch]. f_equal. apply flat_map_ext_in. intros k K.
  rewrite Forall_forall in IH.
  rewrite (IH k K (Elem t a s v kids :: anc)), (IH k K [Elem t a s v kids]).
  reflexivity.
Qed.

Lemma rewriteMatch_elem :
  forall f t a s v kids,
    rewriteMatch (fun _ k => q k) f [] (Elem t a s v kids)
    = Elem t a s v
           (flat_map (fun k => if q k then f k
                               else [rewriteMatch (fun _ k => q k) f [] k]) kids).
Proof.
  intros. cbn [rewriteMatch]. f_equal. apply flat_map_ext. intro k.
  rewrite rewriteMatch_anc. reflexivity.
Qed.

Lemma forEachMatch_anc :
  forall f n anc,
    forEachMatch (fun _ k => q k) f anc n = forEachMatch (fun _ k => q k) f [] n.
Proof.
  intros f.
  induction n as [s|t a s v kids IH] using node_induction; intro anc;
    [reflexivity|].
  cbn [forEachMatch]. f_equal. apply map_ext_in. intros k K.
  rewrite Forall_forall in IH.
  rewrite (IH k K (Elem t a s v kids :: anc)), (IH k K [Elem t a s v kids]).
  reflexivity.
Qed.

(** The image of a child under [forEachMatch]. *)
Definition eachChild (f : node -> node) (k : node) : node :=
  let k' := forEachMatch (fun _ k => q k) f [] k in
  if q k then
    match f k, k' with
    | Elem t1 a1 s1 v1 _, Elem _ _ _ _ kids' => Elem t1 a1 s1 v1 kids'
    | _, _ => k'
    end
  else k'.

Lemma forEachMatch_elem :
  forall f t a s v kids,
    forEachMatch (fun _ k => q k) f [] (Elem t a s v kids)
    = Elem t a s v (map (eachChild f) kids).
Proof.
  intros. cbn [forEachMatch]. f_equal. apply map_ext. intro k.
  unfold eachChild. rewrite forEachMatch_anc. reflexivity.
Qed.

Hypothesis q_head : headOnly q.

Lemma q_rewriteMatch :
  forall f k, q (rewriteMatch (fun _ k => q k) f [] k) = q k.
Proof.
  intros f [s|t a s v kids]; [reflexivity|].
  rewrite rewriteMatch_elem. apply q_head.
Qed.

(** After the removal of the matches nothing matches. *)
Lemma removal_complete :
  forall n,
    querySelectorAll q (rewriteMatch (fun _ k => q k) (fun _ => []) [] n) = [].
Proof.
  induction n as [s|t a s v kids IH] using node_induction; [reflexivity|].
  rewrite rewriteMatch_elem, querySelectorAll_elem, flat_map_flat_map.
  apply flat_map_nil_in. intros k K.
  rewrite Forall_forall in IH.
  destruct (q k) eqn:Q; [reflexivity|].
  cbn [flat_map]. rewrite app_nil_r, q_rewriteMatch, Q. cbn [app].
  apply IH, K.
Qed.

(** Where nothing matches, nothing is rewritten. *)
Lemma rewriteMatch_fixed :
  forall f n,
    querySelectorAll q n = [] -> rewriteMatch (fun _ k => q k) f [] n = n.
Proof.
  intros f.
  induction n as [s|t a s v kids IH] using node_induction; [reflexivity|].
  intros H. rewrite querySelectorAll_elem in H.
  rewrite rewriteMatch_elem. f_equal.
  rewrite Forall_forall in IH.
  assert (E : forall k, In k kids ->
                (if q k then f k
                 else [rewriteMatch (fun _ k0 => q k0) f [] k]) = [k]).
  { intros k K. pose proof (flat_map_nil_inv _ _ _ _ H k K) as N.
    apply app_eq_nil in N. destruct N as (N1 & N2).
    destruct (q k); [discriminate N1|].
    rewrite (IH k K N2). reflexivity. }
  rewrite (flat_map_ext_in _ _ _ (fun k => [k]) kids E).
  clear. induction kids as [|k kids IH]; [reflexivity|].
  cbn. rewrite IH. reflexivity.
Qed.

End LocalSelectors.

Lemma Forall_flat_map_in :
  forall (A B : Type) (Q : B -> Prop) (g : A -> list B) (l : list A),
    (forall x, In x l -> Forall Q (g x)) -> Forall Q (flat_map g l).
Proof.
  intros A B Q g l H. induction l as [|x l IH]; [constructor|].
  cbn [flat_map]. apply Forall_app. split.
  - apply H. left. reflexivity.
  - apply IH. intros y Y. apply H. right. exact Y.
Qed.

(** Steps that visit the matches of a selector and change nothing but the
    attributes, the style and the live value of each. *)
Section AttributeSteps.
Variable q : node -> bool.
Variable f : node -> node.
Hypothesis q_head : headOnly q.
Hypothesis q_text : forall x, q (Text x) = false.

(** The callback gives the element new attributes, style and value, whatever
    its children, and leaves it a match. *)
Hypothesis f_head :
  forall t a s v,
    exists a' s' v',
      (forall kids, f (Elem t a s v kids) = Elem t a' s' v' kids)
      /\ q (Elem t a' s' v' []) = q (Elem t a s v []).

Lemma eachChild_text : forall x, eachChild q f (Text x) = Text x.
Proof. intros x. unfold eachChild. rewrite q_text. reflexivity. Qed.

Lemma eachChild_elem :
  forall t a s v kids,
    exists a' s' v',
      eachChild q f (Elem t a s v kids)
      = (if q (Elem t a s v kids) then Elem t a' s' v' (map (eachChild q f) kids)
         else Elem t a s v (map (eachChild q f) kids))
      /\ (forall kids', f (Elem t a s v kids') = Elem t a' s' v' kids')
      /\ q (Elem t a' s' v' []) = q (Elem t a s v []).
Proof.
  intros t a s v kids. destruct (f_head t a s v) as (a' & s' & v' & F & Q).
  exists a', s', v'. split; [|split; assumption].
  unfold eachChild. rewrite forEachMatch_elem, F.
  destruct (q (Elem t a s v kids)); reflexivity.
Qed.

Lemma q_eachChild : forall k, q (eachChild q f k) = q k.
Proof.
  intros [x|t a s v kids]; [rewrite eachChild_text; reflexivity|].
  destruct (eachChild_elem t a s v kids) as (a' & s' & v' & E & _ & Q).
  rewrite E. destruct (q (Elem t a s v kids)) eqn:X.
  - rewrite (q_head t a' s' v' _ []), Q, (q_head t a s v [] kids). exact X.
  - rewrite (q_head t a s v _ kids). exact X.
Qed.

Lemma querySelectorAll_eachChild :
  forall k,
    querySelectorAll q (eachChild q f k)
    = querySelectorAll q (forEachMatch (fun _ k => q k) f [] k).
Proof.
  intros [x|t a s v kids]; [rewrite eachChild_text; reflexivity|].
  destruct (eachChild_elem t a s v kids) as (a' & s' & v' & E & _ & _).
  rewrite E, forEachMatch_elem.
  destruct (q (Elem t a s v kids)); rewrite !querySelectorAll_elem; reflexivity.
Qed.

(** Every match of the selector after the step is the image of a match,
    over new children. *)
Lemma forEachMatch_all :
  forall (Q : node -> Prop),
    (forall t a s v kids kids',
        q (Elem t a s v kids) = true ->
        Q (setKids kids' (f (Elem t a s v kids)))) ->
    forall n,
      Forall Q (querySelectorAll q (forEachMatch (fun _ k => q k) f [] n)).
Proof.
  intros Q HQ.
  induction n as [x|t a s v kids IH] using node_induction; [constructor|].
  rewrite forEachMatch_elem, querySelectorAll_elem, flat_map_concat_map, map_map,
          <- flat_map_concat_map.
  apply Forall_flat_map_in. intros k K.
  rewrite Forall_forall in IH. apply Forall_app. split.
  - rewrite q_eachChild. destruct (q k) eqn:X; [|constructor].
    constructor; [|constructor].
    destruct k as [x|t0 a0 s0 v0 ks]; [rewrite q_text in X; discriminate X|].
    destruct (eachChild_elem t0 a0 s0 v0 ks) as (a' & s' & v' & E & F & _).
    rewrite E, X.
    specialize (HQ t0 a0 s0 v0 ks (map (eachChild q f) ks) X).
    rewrite F in HQ. exact HQ.
  - rewrite querySelectorAll_eachChild. apply IH, K.
Qed.

(** When the callback changes nothing of an element it has visited, a
    second pass changes nothing of the tree. *)
Lemma forEachMatch_idempotent :
  (forall t a s v kids,
      f (f (Elem t a s v kids)) = f (Elem t a s v kids)) ->
  forall n,
    forEachMatch (fun _ k => q k) f [] (forEachMatch (fun _ k => q k) f [] n)
    = forEachMatch (fun _ k => q k) f [] n.
Proof.
  intros Idem.
  induction n as [x|t a s v kids IH] using node_induction; [reflexivity|].
  rewrite !forEachMatch_elem. f_equal. rewrite map_map.
  apply map_ext_in. intros k K. rewrite Forall_forall in IH.
  specialize (IH k K).
  destruct k as [x|t0 a0 s0 v0 ks]; [rewrite !eachChild_text; reflexivity|].
  rewrite !forEachMatch_elem in IH. injection IH as IH. rewrite map_map in IH.
  destruct (eachChild_elem t0 a0 s0 v0 ks) as (a' & s' & v' & E & F & Q).
  rewrite E.
  destruct (q (Elem t0 a0 s0 v0 ks)) eqn:X.
  - destruct (eachChild_elem t0 a' s' v' (map (eachChild q f) ks))
      as (a2 & s2 & v2 & E2 & F2 & _).
    rewrite E2, map_map, IH.
    rewrite (q_head t0 a' s' v' _ []), Q, (q_head t0 a0 s0 v0 [] ks), X.
    pose proof (Idem t0 a0 s0 v0 ks) as I.
    rewrite F, F2 in I. inversion I. reflexivity.
  - destruct (eachChild_elem t0 a0 s0 v0 (map (eachChild q f) ks))
      as (a2 & s2 & v2 & E2 & _ & _).
    rewrite E2, map_map, IH.
    rewrite (q_head t0 a0 s0 v0 _ ks), X. reflexivity.
Qed.

End AttributeSteps.

(** Steps that put one element in the place of each match: the new element
    is a match again, holds no match, and is its own image. *)
Section ReplaceSteps.
Variable q : node -> bool.
Variable g : node -> node.
Hypothesis q_head : headOnly q.
Hypothesis g_match : forall k, q k = true -> q (g k) = true.
Hypothesis g_leaf : forall k, q k = true -> querySelectorAll q (g k) = [].
Hypothesis g_idem : forall k, q k = true -> g (g k) = g k.

Lemma replace_elem :
  forall t a s v kids,
    rewriteMatch (fun _ k => q k) (fun k => [g k]) [] (Elem t a s v kids)
    = Elem t a s v
           (map (fun k => if q k then g k
                          else rewriteMatch (fun _ k => q k) (fun k => [g k]) [] k)
                kids).
Proof.
  intros. rewrite rewriteMatch_elem. f_equal.
  induction kids as [|k kids IH]; [reflexivity|].
  cbn [flat_map map]. rewrite IH. destruct (q k); reflexivity.
Qed.

Lemma replace_all :
  forall (Q : node -> Prop),
    (forall k, q k = true -> Q (g k)) ->
    forall n,
      Forall Q (querySelectorAll q
                  (rewriteMatch (fun _ k => q k) (fun k => [g k]) [] n)).
Proof.
  intros Q HQ.
  induction n as [x|t a s v kids IH] using node_induction; [constructor|].
  rewrite replace_elem, querySelectorAll_elem, flat_map_concat_map, map_map,
          <- flat_map_concat_map.
  apply Forall_flat_map_in. intros k K. rewrite Forall_forall in IH.
  destruct (q k) eqn:X.
  - rewrite (g_match k X), (g_leaf k X), app_nil_r.
    constructor; [apply HQ, X|constructor].
  - rewrite (q_rewriteMatch q q_head), X. cbn [app]. apply IH, K.
Qed.

Lemma replace_idempotent :
  forall n,
    rewriteMatch (fun _ k => q k) (fun k => [g k]) []
                 (rewriteMatch (fun _ k => q k) (fun k => [g k]) [] n)
    = rewriteMatch (fun _ k => q k) (fun k => [g k]) [] n.
Proof.
  induction n as [x|t a s v kids IH] using node_induction; [reflexivity|].
  rewrite !replace_elem. f_equal. rewrite map_map.
  apply map_ext_in. intros k K. rewrite Forall_forall in IH.
  destruct (q k) eqn:X.
  - rewrite (g_match k X). apply g_idem, X.
  - rewrite (q_rewriteMatch q q_head), X. apply IH, K.
Qed.

End ReplaceSteps.

Lemma textContent_setTextContent :
  forall text t a s v kids,
    textContent (setTextContent text (Elem t a s v kids)) = text.
Proof.
  intros. unfold setTextContent. cbn [setKids].
  destruct (String.eqb text "") eqn:E.
  - apply String.eqb_eq in E. subst. reflexivity.
  - reflexivity.
Qed.

Lemma textareaValue_setTextContent :
  forall text t a s v kids,
    textareaValue (setTextContent text (Elem t a s v kids))
    = match v with Some live => live | None => text end.
Proof.
  intros. unfold setTextContent. cbn [setKids].
  destruct v; [reflexivity|]. unfold textareaValue.
  destruct (String.eqb text "") eqn:E; [|reflexivity].
  apply String.eqb_eq in E. subst. reflexivity.
Qed.

(** X15. Four steps of the post-processor reach their goal on every tree,
    and a second pass of each changes nothing.  After the removal of the
    header and footer decorations (done when [createDocumentContainer] is
    false) no element with class [mod-header] or [mod-footer] is left below
    the root; after the removal of the MAKE.md elements no [div] whose class
    attribute starts with "mk-"; after the lazy loading step every [iframe]
    has [loading] set to "lazy"; and after the serialisation of the text
    areas the text content of every [textarea] is its value. *)
Theorem postProcess_simple_steps :
  forall tree : node,
    (querySelectorAll (fun k => hasClass "mod-header" k || hasClass "mod-footer" k)
                      (removeDecorations tree) = []
     /\ removeDecorations (removeDecorations tree) = removeDecorations tree)
    /\ (querySelectorAll (fun k => isTag "div" k && classStartsWith "mk-" k)
                         (removeMakeMd tree) = []
        /\ removeMakeMd (removeMakeMd tree) = removeMakeMd tree)
    /\ (Forall (fun frame => getAttribute "loading" frame = Some "lazy")
               (querySelectorAll (isTag "iframe") (lazyFrames tree))
        /\ lazyFrames (lazyFrames tree) = lazyFrames tree)
    /\ (Forall (fun area => textContent area = textareaValue area)
               (querySelectorAll (isTag "textarea") (serializeTextareas tree))
        /\ serializeTextareas (serializeTextareas tree) = serializeTextareas tree).
Proof.
  intros tree.
  assert (H1 : headOnly (fun k => hasClass "mod-header" k || hasClass "mod-footer" k))
    by (intros t a s v kids kids'; reflexivity).
  assert (H2 : headOnly (fun k => isTag "div" k && classStartsWith "mk-" k))
    by (intros t a s v kids kids'; reflexivity).
  assert (H3 : headOnly (isTag "iframe"))
    by (intros t a s v kids kids'; reflexivity).
  assert (H4 : headOnly (isTag "textarea"))
    by (intros t a s v kids kids'; reflexivity).
  split; [|split; [|split]].
  - pose proof (removal_complete _ H1 tree) as C. split; [exact C|].
    apply (rewriteMatch_fixed _ _ _ C).
  - pose proof (removal_complete _ H2 tree) as C. split; [exact C|].
    apply (rewriteMatch_fixed _ _ _ C).
  - assert (F : forall t a s v,
               exists a' s' v',
                 (forall kids, setAttribute "loading" "lazy" (Elem t a s v kids)
                               = Elem t a' s' v' kids)
                 /\ isTag "iframe" (Elem t a' s' v' [])
                    = isTag "iframe" (Elem t a s v [])).
    { intros t a s v. exists (assign "loading" "lazy" a), s, v.
      split; reflexivity. }
    split.
    + apply (forEachMatch_all (isTag "iframe") (setAttribute "loading" "lazy")
               H3 (fun _ => eq_refl) F).
      intros t a s v kids kids' _. apply lookup_assign_same.
    + apply (forEachMatch_idempotent (isTag "iframe")
               (setAttribute "loading" "lazy") H3 (fun _ => eq_refl) F).
      intros t a s v kids. unfold setAttribute. f_equal.
      clear. induction a as [|[k x] a IH]; [reflexivity|].
      cbn [assign]. destruct (String.eqb k "loading") eqn:E;
        cbn [assign]; rewrite E; [reflexivity|]. rewrite IH. reflexivity.
  - assert (M : forall k, isTag "textarea" k = true ->
                  isTag "textarea" (setTextContent (textareaValue k) k) = true).
    { intros [x|t a s v kids] H; [discriminate H|exact H]. }
    assert (L : forall k, isTag "textarea" k = true ->
                  querySelectorAll (isTag "textarea")
                                   (setTextContent (textareaValue k) k) = []).
    { intros [x|t a s v kids] H; [discriminate H|].
      unfold setTextContent. cbn [setKids].
      destruct (String.eqb _ ""); reflexivity. }
    assert (V : forall k, isTag "textarea" k = true ->
                  textContent (setTextContent (textareaValue k) k)
                  = textareaValue (setTextContent (textareaValue k) k)).
    { intros [x|t a s v kids] H; [discriminate H|].
      rewrite textContent_setTextContent, textareaValue_setTextContent.
      destruct v; reflexivity. }
    split.
    + apply (replace_all (isTag "textarea")
               (fun element => setTextContent (textareaValue element) element)
               H4 M L).
      exact V.
    + apply (replace_idempotent (isTag "textarea")
               (fun element => setTextContent (textareaValue element) element)
               H4 M).
      intros k K. cbv beta. rewrite <- (V k K).
      destruct k as [x|t a s v kids]; [discriminate K|].
      rewrite textContent_setTextContent.
      unfold setTextContent. cbn [setKids]. reflexivity.
Qed.

(** *** The collapse indicators of the lists *)

Definition isIcon : node -> bool := hasClass "collapse-icon".

(** What the step does to one child of an element. *)
Definition indicated (item : node) : node :=
  let item' := addListIndicators item in
  if isCollapsable item && negb (hasDescendant isIcon item)
  then prependChild listIndicator item'
  else item'.

Lemma addListIndicators_elem :
  forall t a s v kids,
    addListIndicators (Elem t a s v kids) = Elem t a s v (map indicated kids).
Proof. reflexivity. Qed.

Lemma indicated_text : forall x, indicated (Text x) = Text x.
Proof. reflexivity. Qed.

Lemma indicated_elem :
  forall t a s v kids,
    indicated (Elem t a s v kids)
    = if isCollapsable (Elem t a s v kids)
         && negb (hasDescendant isIcon (Elem t a s v kids))
      then Elem t a s v (listIndicator :: map indicated kids)
      else Elem t a s v (map indicated kids).
Proof.
  intros. unfold indicated. rewrite addListIndicators_elem.
  destruct (_ && _); reflexivity.
Qed.

Lemma hasDescendant_elem :
  forall r t a s v kids,
    hasDescendant r (Elem t a s v kids)
    = existsb (fun k => r k || hasDescendant r k) kids.
Proof. reflexivity. Qed.

Lemma existsb_map_ext_in :
  forall (A : Type) (f : A -> A) (g : A -> bool) (l : list A),
    (forall x, In x l -> g (f x) = g x) ->
    existsb g (map f l) = existsb g l.
Proof.
  intros A f g l H. induction l as [|x l IH]; [reflexivity|].
  cbn [map existsb]. rewrite (H x (or_introl eq_refl)), IH; [reflexivity|].
  intros y Y. apply H. right. exact Y.
Qed.

Section IndicatorFacts.
Variable r : node -> bool.
Hypothesis r_head : headOnly r.

Lemma r_indicated : forall k, r (indicated k) = r k.
Proof.
  intros [x|t a s v kids]; [reflexivity|].
  rewrite indicated_elem. destruct (_ && _); apply r_head.
Qed.

(** A selector that the indicator and its content do not match sees the
    same descendants before and after the step. *)
Lemma hasDescendant_indicated :
  r listIndicator = false -> hasDescendant r listIndicator = false ->
  forall k, hasDescendant r (indicated k) = hasDescendant r k.
Proof.
  intros R1 R2.
  induction k as [x|t a s v kids IH] using node_induction; [reflexivity|].
  rewrite Forall_forall in IH.
  assert (E : existsb (fun k => r k || hasDescendant r k) (map indicated kids)
              = existsb (fun k => r k || hasDescendant r k) kids).
  { apply existsb_map_ext_in. intros k K. rewrite r_indicated, (IH k K).
    reflexivity. }
  rewrite indicated_elem. destruct (_ && _).
  - rewrite !hasDescendant_elem. cbn [existsb]. rewrite R1, R2, E. reflexivity.
  - rewrite !hasDescendant_elem. exact E.
Qed.

(** What was found below an element before the step is found after it. *)
Lemma hasDescendant_indicated_mono :
  forall k, hasDescendant r k = true -> hasDescendant r (indicated k) = true.
Proof.
  induction k as [x|t a s v kids IH] using node_induction; [discriminate|].
  rewrite Forall_forall in IH. intros H.
  assert (E : existsb (fun k => r k || hasDescendant r k) (map indicated kids)
              = true).
  { rewrite hasDescendant_elem in H. apply existsb_exists in H.
    destruct H as (k & K & Hk). apply existsb_exists.
    exists (indicated k). split; [apply in_map, K|].
    rewrite r_indicated. apply orb_true_iff in Hk. apply orb_true_iff.
    destruct Hk as [Hk|Hk]; [left; exact Hk|right; apply (IH k K Hk)]. }
  rewrite indicated_elem. destruct (_ && _).
  - rewrite hasDescendant_elem. cbn [existsb]. rewrite E. apply orb_true_r.
  - rewrite hasDescendant_elem. exact E.
Qed.

End IndicatorFacts.

Lemma isCollapsable_indicated :
  forall k, isCollapsable (indicated k) = isCollapsable k.
Proof.
  intros k. unfold isCollapsable.
  rewrite (r_indicated (isTag "li")) by (intros t a s v kids kids'; reflexivity).
  rewrite (hasDescendant_indicated (isTag "ul"))
    by ((intros t a s v kids kids'; reflexivity) || reflexivity).
  rewrite (hasDescendant_indicated (isTag "ol"))
    by ((intros t a s v kids kids'; reflexivity) || reflexivity).
  reflexivity.
Qed.

Lemma isIcon_head : headOnly isIcon.
Proof. intros t a s v kids kids'. reflexivity. Qed.

(** A child that the step has visited either holds an indicator or is no
    list item with a list. *)
Lemma indicated_settled :
  forall k,
    isCollapsable (indicated k) && negb (hasDescendant isIcon (indicated k))
    = false.
Proof.
  intros k. rewrite isCollapsable_indicated.
  destruct (isCollapsable k) eqn:C; [|reflexivity]. cbn [andb].
  apply negb_false_iff.
  destruct (hasDescendant isIcon k) eqn:I.
  - apply (hasDescendant_indicated_mono isIcon isIcon_head k I).
  - destruct k as [x|t a s v kids]; [discriminate C|].
    rewrite indicated_elem, C, I. reflexivity.
Qed.

Lemma indicated_idempotent :
  forall k,
    addListIndicators (addListIndicators k) = addListIndicators k ->
    indicated (indicated k) = indicated k.
Proof.
  intros [x|t a s v kids] IH; [reflexivity|].
  rewrite !addListIndicators_elem in IH. injection IH as IH.
  pose proof (indicated_settled (Elem t a s v kids)) as S.
  rewrite indicated_elem in S |- *.
  destruct (isCollapsable (Elem t a s v kids)
            && negb (hasDescendant isIcon (Elem t a s v kids))).
  - rewrite indicated_elem, S. cbn [map].
    change (indicated listIndicator) with listIndicator.
    rewrite IH. reflexivity.
  - rewrite indicated_elem, S, IH. reflexivity.
Qed.

Lemma addListIndicators_idempotent :
  forall tree,
    addListIndicators (addListIndicators tree) = addListIndicators tree.
Proof.
  induction tree as [x|t a s v kids IH] using node_induction; [reflexivity|].
  rewrite !addListIndicators_elem. f_equal. rewrite map_map.
  apply map_ext_in. intros k K. rewrite Forall_forall in IH.
  apply indicated_idempotent, IH, K.
Qed.

Lemma querySelectorAll_indicated :
  forall k,
    querySelectorAll isCollapsable (indicated k)
    = querySelectorAll isCollapsable (addListIndicators k).
Proof.
  intros [x|t a s v kids]; [reflexivity|].
  rewrite indicated_elem, addListIndicators_elem.
  destruct (_ && _); [|reflexivity].
  rewrite !querySelectorAll_elem. reflexivity.
Qed.

Lemma addListIndicators_complete :
  forall tree,
    Forall (fun item => hasDescendant isIcon item = true)
           (querySelectorAll isCollapsable (addListIndicators tree)).
Proof.
  induction tree as [x|t a s v kids IH] using node_induction; [constructor|].
  rewrite addListIndicators_elem, querySelectorAll_elem, flat_map_concat_map,
          map_map, <- flat_map_concat_map.
  apply Forall_flat_map_in. intros k K. rewrite Forall_forall in IH.
  apply Forall_app. split.
  - pose proof (indicated_settled k) as S.
    destruct (isCollapsable (indicated k)); [|constructor].
    constructor; [|constructor]. cbn [andb] in S.
    apply negb_false_iff in S. exact S.
  - rewrite querySelectorAll_indicated. apply IH, K.
Qed.

(** X16. After the step that adds the collapse indicators, every list item
    below the root that holds a list ([li:has(ul), li:has(ol)]) has an
    element of class [collapse-icon] below it; the step gives an indicator
    to those that had none and leaves the others alone, so that a second
    pass changes nothing: no list item gets two indicators. *)
Theorem addListIndicators_once :
  forall tree : node,
    Forall (fun item => hasDescendant (hasClass "collapse-icon") item = true)
           (querySelectorAll isCollapsable (addListIndicators tree))
    /\ addListIndicators (addListIndicators tree) = addListIndicators tree
    /\ (forall t a s v kids,
          isCollapsable (Elem t a s v kids) = true ->
          indicated (Elem t a s v kids)
          = if hasDescendant (hasClass "collapse-icon") (Elem t a s v kids)
            then Elem t a s v (map indicated kids)
            else Elem t a s v (listIndicator :: map indicated kids)).
Proof.
  intros tree. split; [apply addListIndicators_complete|].
  split; [apply addListIndicators_idempotent|].
  intros t a s v kids C. rewrite indicated_elem, C. cbn [andb].
  fold isIcon. destruct (hasDescendant isIcon (Elem t a s v kids)); reflexivity.
Qed.

(** *** The view container *)

Section FirstMatchFacts.
Variable p : node -> bool.

Lemma firstIn_none :
  forall ks i,
    (forall k, In k ks -> (firstMatch p k = None <-> hasDescendant p k = false)) ->
    (firstIn p (firstMatch p) i ks = None
     <-> existsb (fun k => p k || hasDescendant p k) ks = false).
Proof.
  induction ks as [|k ks IH]; intros i H; [split; reflexivity|].
  cbn [firstIn existsb].
  destruct (p k); cbn [orb]; [split; discriminate|].
  pose proof (H k (or_introl eq_refl)) as Hk.
  destruct (firstMatch p k) as [[pp j]|].
  - destruct (hasDescendant p k); [split; discriminate|].
    exfalso. destruct Hk as (_ & Hk). discriminate (Hk eq_refl).
  - destruct Hk as (Hk & _). rewrite (Hk eq_refl). cbn [orb].
    apply IH. intros k' K'. apply H. right. exact K'.
Qed.

(** [querySelector] finds nothing exactly when no descendant matches. *)
Lemma firstMatch_none :
  forall n, firstMatch p n = None <-> hasDescendant p n = false.
Proof.
  induction n as [x|t a s v kids IH] using node_induction; [split; reflexivity|].
  cbn [firstMatch]. rewrite hasDescendant_elem. apply firstIn_none.
  rewrite Forall_forall in IH. exact IH.
Qed.

Lemma nodeAt_hasDescendant :
  forall place i n x,
    nodeAt (i :: place) n = Some x -> p x = true -> hasDescendant p n = true.
Proof.
  induction place as [|j place IH]; intros i n x H Px.
  - cbn [nodeAt] in H. destruct n as [s|t a s v kids]; cbn [kidsOf] in H.
    + destruct i; discriminate.
    + destruct (nth_error kids i) as [k|] eqn:E; [|discriminate].
      inversion H. subst. rewrite hasDescendant_elem.
      apply existsb_exists. exists x. split; [apply (nth_error_In _ _ E)|].
      rewrite Px. reflexivity.
  - cbn [nodeAt] in H. destruct n as [s|t a s v kids]; cbn [kidsOf] in H.
    + destruct i; discriminate.
    + destruct (nth_error kids i) as [k|] eqn:E; [|discriminate].
      rewrite hasDescendant_elem. apply existsb_exists.
      exists k. split; [apply (nth_error_In _ _ E)|].
      rewrite (IH j k x H Px). apply orb_true_r.
Qed.

End FirstMatchFacts.

Lemma document_token : isToken "obsidian-document".
Proof. split; [discriminate|reflexivity]. Qed.

Lemma hasClass_isElement : forall c n, hasClass c n = true -> isElement n = true.
Proof. intros c [x|t a s v kids] H; [discriminate H|reflexivity]. Qed.

(** X17. The post-processor works on a tree exactly when it finds a place
    for the class [obsidian-document]: the root has it, or the root or one
    of its descendants has the class [view-content] or
    [markdown-preview-view].  Then the class is on the root or on an element
    below it afterwards and nothing is logged.  Otherwise the tree is left
    as it is, whatever the options, and one error line, "Failed to find view
    container in rendered HTML!", goes to the log (after the lines of the
    queue of [Path]). *)
Theorem postProcessHTML_view_container :
  forall (host : Host) (html : node) (options : MarkdownRendererOptions)
         (w : World),
    (markDocumentRoot html = None
     <-> hasClass "obsidian-document" html = false
         /\ isViewContainer html = false
         /\ hasDescendant isViewContainer html = false)
    /\ (markDocumentRoot html = None ->
        fst (postProcessHTML host html options w) = html
        /\ fullLog (snd (postProcessHTML host html options w))
           = (fullLog w ++ flatten (map pathLine (pathLogQueue w))
                ++ errorLine "Failed to find view container in rendered HTML!" "")%string)
    /\ (forall html',
          markDocumentRoot html = Some html' ->
          snd (postProcessHTML host html options w) = w
          /\ (hasClass "obsidian-document" html' = true
              \/ hasDescendant (hasClass "obsidian-document") html' = true)).
Proof.
  intros host html options w. split; [|split].
  - unfold markDocumentRoot.
    destruct (hasClass "obsidian-document" html);
      [split; [discriminate|intros (H & _); discriminate H]|].
    destruct (isViewContainer html);
      [split; [discriminate|intros (_ & H & _); discriminate H]|].
    pose proof (firstMatch_none isViewContainer html) as F.
    destruct (firstMatch isViewContainer html) as [[pp j]|].
    + split; [discriminate|]. intros (_ & _ & H).
      destruct F as (_ & F). discriminate (F H).
    + split; [|reflexivity]. intros _. destruct F as (F & _).
      repeat split. apply F. reflexivity.
  - intros N. unfold postProcessHTML, postProcessTree, runPostProcess.
    rewrite N. cbn [fst snd].
    split; [reflexivity|].
    apply error_line_logged.
  - intros html' S. split.
    + unfold postProcessHTML, postProcessTree, runPostProcess. rewrite S.
      cbv zeta. destruct (sizerInFrontmatter _); reflexivity.
    + unfold markDocumentRoot in S.
      destruct (hasClass "obsidian-document" html) eqn:D.
      * inversion S. subst. left. exact D.
      * destruct (isViewContainer html) eqn:V.
        -- inversion S. subst. left.
           rewrite hasClass_classListAdd; [reflexivity| |exact document_token].
           unfold isViewContainer in V. apply orb_true_iff in V.
           destruct V as [V|V]; apply (hasClass_isElement _ _ V).
        -- destruct (firstMatch isViewContainer html) as [[pp j]|] eqn:F;
             [|discriminate S].
           inversion S. subst. right.
           destruct (firstMatch_found _ _ _ _ F) as (par & x & Np & Nx & Px).
           assert (At : nodeAt (pp ++ [j]) html = Some x).
           { rewrite nodeAt_app, Np. cbn [nodeAt]. rewrite Nx. reflexivity. }
           pose proof (nodeAt_updateAt (pp ++ [j]) (classListAdd "obsidian-document")
                         html x At) as U.
           assert (Ex : isElement x = true).
           { unfold isViewContainer in Px. apply orb_true_iff in Px.
             destruct Px as [V'|V']; apply (hasClass_isElement _ _ V'). }
           destruct (pp ++ [j]) as [|i place] eqn:Pl;
             [destruct pp; discriminate Pl|].
           apply (nodeAt_hasDescendant _ place i _ _ U).
           rewrite hasClass_classListAdd; [reflexivity|exact Ex|exact document_token].
Qed.

(** ** The table of the debug information *)

Lemma split_cons : forall sep s, exists piece pieces, split sep s = piece :: pieces.
Proof.
  intros sep [|c rest]; cbn [split]; [eauto|].
  destruct (Ascii.eqb c sep); [eauto|].
  destruct (split sep rest); eauto.
Qed.

Lemma concat_cons :
  forall sep piece next pieces,
    String.concat sep (piece :: next :: pieces)
    = (piece ++ sep ++ String.concat sep (next :: pieces))%string.
Proof. reflexivity. Qed.

Lemma concat_cons_char :
  forall sep c piece pieces,
    String.concat sep (String c piece :: pieces)
    = String c (String.concat sep (piece :: pieces)).
Proof. intros sep c piece [|next pieces]; reflexivity. Qed.

(** Joining the pieces of a split with the separator gives the string
    back. *)
Lemma join_split :
  forall sep s, join (String sep "") (split sep s) = s.
Proof.
  intros sep. unfold join. induction s as [|c rest IH]; [reflexivity|].
  cbn [split]. destruct (Ascii.eqb c sep) eqn:E.
  - apply Ascii.eqb_eq in E. subst c.
    destruct (split_cons sep rest) as (piece & pieces & S).
    rewrite S in IH |- *. rewrite concat_cons, IH. reflexivity.
  - destruct (split_cons sep rest) as (piece & pieces & S).
    rewrite S in IH |- *. rewrite concat_cons_char, IH. reflexivity.
Qed.

(** The first piece holds no separator, and a string that holds one has a
    second piece. *)
Lemma split_first :
  forall sep s, includesChar sep (hd "" (split sep s)) = false.
Proof.
  intros sep. induction s as [|c rest IH]; [reflexivity|].
  cbn [split]. destruct (Ascii.eqb c sep) eqn:E; [reflexivity|].
  destruct (split_cons sep rest) as (piece & pieces & S).
  rewrite S in IH |- *. cbn [hd includesChar] in *. rewrite E, IH. reflexivity.
Qed.

Lemma split_second :
  forall sep s,
    includesChar sep s = true ->
    exists piece next pieces, split sep s = piece :: next :: pieces.
Proof.
  intros sep. induction s as [|c rest IH]; [discriminate|].
  cbn [includesChar split]. intros H.
  destruct (Ascii.eqb c sep) eqn:E.
  - destruct (split_cons sep rest) as (piece & pieces & S).
    rewrite S. eauto.
  - cbn [orb] in H. destruct (IH H) as (piece & next & pieces & S).
    rewrite S. eauto.
Qed.

Lemma length_append :
  forall a b, String.length (a ++ b) = (String.length a + String.length b)%nat.
Proof.
  induction a as [|c a IH]; intros b; [reflexivity|].
  cbn [String.append String.length]. rewrite IH. reflexivity.
Qed.

Lemma length_fill : forall n pad, String.length (fill n pad) = n.
Proof.
  induction n as [|n IH]; intros pad; [reflexivity|].
  cbn [fill String.length]. rewrite IH. reflexivity.
Qed.

Lemma length_padEnd :
  forall s n pad,
    String.length (padEnd s n pad) = Nat.max (String.length s) n.
Proof.
  intros. unfold padEnd. rewrite length_append, length_fill. lia.
Qed.

(** X18. [humanReadableJSON] makes a table of the lines of the indented JSON
    text that hold a colon (quotes, braces and commas removed).  Each such
    line is split at its first colon without loss: the name before it, which
    holds no colon, and the value after it, which may hold more.  In the
    table every name, with a blank after it, is filled up to one and the
    same width, three more than the longest of them, so that all the values
    start in the same column; the filling is of dashes in the rows of even
    index and of blanks in the others.  Without such a line the table is
    empty. *)
Theorem humanReadableJSON_table :
  forall json : string,
    let lines := tableLines json in
    let width :=
      (list_max (map String.length (map propertyName lines)) + 3)%nat in
    Forall (fun line =>
              exists name value,
                line = (name ++ ":" ++ value)%string
                /\ includesChar ":" name = false
                /\ propertyName line = (name ++ " ")%string
                /\ propertyValue line = value) lines
    /\ (forall pad,
          Forall (fun line =>
                    String.length (padEnd (propertyName line) width pad) = width
                    /\ (String.length (propertyName line) + 3 <= width)%nat)
                 lines)
    /\ (forall (rest : list string) (i : nat) (line : string),
          tableRows i width (map propertyName (line :: rest))
                    (map propertyValue (line :: rest))
          = (padEnd (propertyName line) width (if Nat.even i then "-" else " ")
               ++ propertyValue line ++ LF
               ++ tableRows (S i) width (map propertyName rest)
                            (map propertyValue rest))%string)
    /\ humanReadableJSON json
       = tableRows 0 width (map propertyName lines) (map propertyValue lines)
    /\ (lines = [] -> humanReadableJSON json = "").
Proof.
  intros json lines width. split; [|split; [|split; [|split]]].
  - apply Forall_forall. intros line In'.
    assert (C : includesChar ":" line = true).
    { unfold lines, tableLines in In'. apply filter_In in In'. apply In'. }
    destruct (split_second ":" line C) as (piece & next & pieces & S).
    exists piece, (join ":" (next :: pieces)).
    pose proof (join_split ":" line) as J. pose proof (split_first ":" line) as F.
    unfold propertyName, propertyValue. rewrite S in *. cbn [hd tl] in *.
    unfold join in *. rewrite concat_cons in J.
    repeat split; [symmetry; exact J|exact F].
  - intros pad. apply Forall_forall. intros line In'.
    assert (B : (String.length (propertyName line) + 3 <= width)%nat).
    { unfold width.
      assert (String.length (propertyName line)
              <= list_max (map String.length (map propertyName lines)))%nat;
        [|lia].
      pose proof (proj1 (list_max_le
                           (map String.length (map propertyName lines))
                           (list_max (map String.length (map propertyName lines))))
                        (Nat.le_refl _)) as M.
      rewrite Forall_forall in M. apply M.
      apply in_map, in_map, In'. }
    split; [|exact B]. rewrite length_padEnd. lia.
  - reflexivity.
  - reflexivity.
  - intros E. unfold humanReadableJSON. fold lines. rewrite E. reflexivity.
Qed.

(** ** Markdown text through the public interface *)

Section MarkdownTextFacts.
Variable host : Host.

Lemma failRender_text_Advance :
  forall message w,
    quiet host w ->
    Advance host w (failRender host None message w)
            [errorLine message "Rendering  custom markdown  failed: "].
Proof.
  intros message w Q. unfold failRender.
  rewrite (checkCancelled_quiet host w Q).
  apply (ExportLog_error_Advance host message
           "Rendering  custom markdown  failed: " w Q).
Qed.

Lemma keep_markdownView_Advance :
  forall (l : Leaf) (w : World),
    quiet host w ->
    Advance host w
            (match markdownView w with
             | Some _ => w
             | None => set_markdownView (Some (leafId l)) w
             end) [].
Proof.
  intros l w Q. destruct (markdownView w); [apply Advance_refl, Q|].
  constructor.
  - apply (quiet_ext host w); auto.
  - cbn. lia.
  - cbn. rewrite append_nil_r. reflexivity.
  - reflexivity.
  - reflexivity.
Qed.

End MarkdownTextFacts.

(** X19. [renderMarkdownToElement] inside a batch that is started and that
    nobody cancels.  When [setViewData] throws, it returns [undefined], the
    thrown value is in the log under the title "Rendering  custom markdown
    failed: " (as its JSON text when it is not a string), and the batch
    stays open.  When the sections of the preview are rendered and measured
    in time, the call never returns [undefined]: it returns an element, or
    it is rejected by the post-processor, which can happen only when
    [postProcess] is set; with neither [postProcess] nor [makeHeadersTrees]
    set the element is the document of the markdown renderer as it is.  The
    batch stays open in every case. *)
Theorem renderMarkdownToElement_in_batch :
  forall (host : Host) (markdown : string) (options : MarkdownRendererOptions)
         (w : World),
    quiet host w ->
    batchStarted w = true ->
    (forall e,
        setViewDataError host markdown = Some e ->
        exists w',
          MarkdownRendererAPI.renderMarkdownToElement host markdown options w
          = (Returned None, w')
          /\ fullLog w'
             = (fullLog w
                  ++ errorLine e "Rendering  custom markdown  failed: ")%string
          /\ batchStarted w' = true
          /\ quiet host w')
    /\ (setViewDataError host markdown = None ->
        Forall timely (pSections (previewOfMarkdown host markdown)) ->
        exists els w',
          let html := documentFrom (previewOfMarkdown host markdown) options els in
          let r := MarkdownRendererAPI.renderMarkdownToElement host markdown
                                                              options w in
          snd r = w'
          /\ ((exists result, fst r = Returned (Some result))
              \/ (postProcess options = true /\ exists e, fst r = Thrown e))
          /\ (postProcess options = false ->
              makeHeadersTrees options = false ->
              fst r = Returned (Some html))
          /\ List.length els
             = List.length (pSections (previewOfMarkdown host markdown))
          /\ batchStarted w' = true
          /\ quiet host w').
Proof.
  intros host markdown options w Q B.
  destruct (q_leaf _ _ Q) as (l & L).
  pose proof (microtasks_Advance host w Q) as A1.
  destruct (microtasks_quiet host w Q) as (Q1 & S1).
  assert (L1 : renderLeaf (microtasks w) = Some l)
    by (rewrite (st_renderLeaf _ _ S1); exact L).
  pose proof (keep_markdownView_Advance host l _ Q1) as A2.
  set (w2 := match markdownView (microtasks w) with
             | Some _ => microtasks w
             | None => set_markdownView (Some (leafId l)) (microtasks w)
             end) in *.
  split.
  - intros e Se.
    pose proof (failRender_text_Advance host e w2 (ad_quiet _ _ _ _ A2)) as A3.
    pose proof (Advance_trans host _ _ _ _ _ A1
                  (Advance_trans host _ _ _ _ _ A2 A3)) as A.
    assert (R : renderMarkdown host markdown options w
                = (Returned (None, container options), failRender host None e w2)).
    { unfold renderMarkdown.
      rewrite bind_call. cbn [fst snd]. rewrite B. cbn [negb].
      rewrite bind_ret.
      rewrite (bind_eq _ _ _ _ _ _ _
                 (awaitUntil_at_once host (leafOrCancelled host) 2000 1 w
                    ltac:(unfold leafOrCancelled; rewrite L; reflexivity))).
      rewrite bind_call. cbn [fst snd]. rewrite L1.
      rewrite bind_act. fold w2. rewrite Se, bind_act. reflexivity. }
    exists (failRender host None e w2). split.
    + unfold MarkdownRendererAPI.renderMarkdownToElement.
      rewrite (bind_eq _ _ _ _ _ _ _ R). reflexivity.
    + split.
      { rewrite (ad_log _ _ _ _ A). cbn. rewrite append_nil_r. reflexivity. }
      split; [rewrite (ad_batch _ _ _ _ A); exact B|apply (ad_quiet _ _ _ _ A)].
  - intros Se T.
    destruct (renderMarkdownView_timely host (previewOfMarkdown host markdown)
                options w2 (ad_quiet _ _ _ _ A2) T)
      as (els & w3 & lines & E & Len & A3).
    pose proof (Advance_trans host _ _ _ _ _ A1
                  (Advance_trans host _ _ _ _ _ A2 A3)) as A.
    set (html := documentFrom (previewOfMarkdown host markdown) options els) in *.
    assert (Root : markDocumentRoot html = Some html).
    { assert (H : hasClass "obsidian-document" html = true).
      { unfold html, documentFrom.
        apply (hasClass_first_token "obsidian-document"
                 (pClassName (previewOfMarkdown host markdown))).
        exact document_token. }
      unfold markDocumentRoot. rewrite H. reflexivity. }
    assert (R : renderMarkdown host markdown options w
                = (Returned (Some html, intoContainer options html), w3)).
    { unfold renderMarkdown.
      rewrite bind_call. cbn [fst snd]. rewrite B. cbn [negb].
      rewrite bind_ret.
      rewrite (bind_eq _ _ _ _ _ _ _
                 (awaitUntil_at_once host (leafOrCancelled host) 2000 1 w
                    ltac:(unfold leafOrCancelled; rewrite L; reflexivity))).
      rewrite bind_call. cbn [fst snd]. rewrite L1.
      rewrite bind_act. fold w2. rewrite Se.
      rewrite (bind_eq _ _ _ _ _ _ _ E), bind_call.
      rewrite (checkCancelled_quiet host w3 (ad_quiet _ _ _ _ A3)).
      cbn [fst snd]. rewrite bind_ret. reflexivity. }
    exists els, w3. cbv zeta.
    unfold MarkdownRendererAPI.renderMarkdownToElement.
    rewrite (bind_eq _ _ _ _ _ _ _ R). cbn [fst snd].
    unfold MarkdownRendererAPI.finish.
    assert (F : (if postProcess options
                 then exists r,
                     awaitPostProcessHTML host html options w3 = (r, w3)
                     /\ ((exists processed, r = Returned processed)
                         \/ exists e, r = Thrown e)
                 else True)).
    { destruct (postProcess options); [|exact I].
      unfold awaitPostProcessHTML, postProcessHTML, postProcessTree.
      destruct (runPostProcess host options html) as [processed| |stopped] eqn:P.
      - eexists. split; [reflexivity|]. left. eexists. reflexivity.
      - exfalso. unfold runPostProcess in P. rewrite Root in P.
        cbv zeta in P. destruct (sizerInFrontmatter _); discriminate P.
      - eexists. split; [reflexivity|]. right. eexists. reflexivity. }
    destruct (postProcess options) eqn:PP; cbv iota.
    + destruct F as (r & F & [(processed & ->)|(e & ->)]).
      * unfold bind, ret. rewrite F. cbn [fst snd].
        split; [reflexivity|].
        split; [left; eexists; reflexivity|].
        split; [discriminate|].
        split; [exact Len|].
        split; [rewrite (ad_batch _ _ _ _ A); exact B|apply (ad_quiet _ _ _ _ A)].
      * unfold bind, ret. rewrite F. cbn [fst snd].
        split; [reflexivity|].
        split; [right; split; [reflexivity|eexists; reflexivity]|].
        split; [discriminate|].
        split; [exact Len|].
        split; [rewrite (ad_batch _ _ _ _ A); exact B|apply (ad_quiet _ _ _ _ A)].
    + unfold bind, ret. cbn [fst snd].
      split; [reflexivity|].
      split; [left; eexists; reflexivity|].
      split; [intros _ H; rewrite H; reflexivity|].
      split; [exact Len|].
      split; [rewrite (ad_batch _ _ _ _ A); exact B|apply (ad_quiet _ _ _ _ A)].
Qed.

Lemma lockedHost_quiet : quiet lockedHost activeWorld.
Proof.
  constructor.
  - vm_compute. reflexivity.
  - eexists. vm_compute. reflexivity.
  - vm_compute. constructor.
  - vm_compute. reflexivity.
  - vm_compute. repeat constructor.
Qed.

Lemma renderMarkdownToElement_in_batch_witness :
  (exists w',
      MarkdownRendererAPI.renderMarkdownToElement lockedHost "text" defaultOptions
                                                  activeWorld
      = (Returned None, w')
      /\ fullLog w'
         = (fullLog activeWorld
              ++ errorLine (Obj "{}" "Error: the view cannot be written")
                           "Rendering  custom markdown  failed: ")%string
      /\ batchStarted w' = true
      /\ quiet lockedHost w')
  /\ (exists els w',
        let html := documentFrom (previewOfMarkdown readyHost "text")
                                 defaultOptions els in
        let r := MarkdownRendererAPI.renderMarkdownToElement readyHost "text"
                                                            defaultOptions
                                                            activeWorld in
        snd r = w'
        /\ ((exists result, fst r = Returned (Some result))
            \/ (postProcess defaultOptions = true /\ exists e, fst r = Thrown e))
        /\ (postProcess defaultOptions = false ->
            makeHeadersTrees defaultOptions = false ->
            fst r = Returned (Some html))
        /\ List.length els
           = List.length (pSections (previewOfMarkdown readyHost "text"))
        /\ batchStarted w' = true
        /\ quiet readyHost w').
Proof.
  split.
  - apply (proj1 (renderMarkdownToElement_in_batch lockedHost "text"
                    defaultOptions activeWorld lockedHost_quiet eq_refl)).
    reflexivity.
  - apply (proj2 (renderMarkdownToElement_in_batch readyHost "text"
                    defaultOptions activeWorld activeWorld_quiet eq_refl)).
    + reflexivity.
    + constructor; [exact plainSection_timely|constructor].
Defined.


(** ** Trees the post-processor leaves as they are *)

(** The labelling of a list of siblings. *)
Definition labelAll : list node -> nat -> list lnode * nat :=
  fix all (ks : list node) (nx : nat) : list lnode * nat :=
    match ks with
    | [] => ([], nx)
    | k :: rest =>
        let '(k', n1) := label k nx in
        let '(rest', n2) := all rest n1 in
        (k' :: rest', n2)
    end.

Lemma label_elem :
  forall t a s v kids i,
    label (Elem t a s v kids) i
    = let '(kids', next') := labelAll kids (S i) in
      (LElem i t a s v kids', next').
Proof. reflexivity. Qed.

Lemma labelAll_cons :
  forall k rest nx,
    labelAll (k :: rest) nx
    = let '(k', n1) := label k nx in
      let '(rest', n2) := labelAll rest n1 in
      (k' :: rest', n2).
Proof. reflexivity. Qed.

Lemma labelAll_in :
  forall ks nx k',
    In k' (fst (labelAll ks nx)) ->
    exists k j, In k ks /\ k' = fst (label k j).
Proof.
  induction ks as [|k rest IH]; intros nx k' H; [destruct H|].
  rewrite labelAll_cons in H.
  destruct (label k nx) as [k1 n1] eqn:L.
  destruct (labelAll rest n1) as [rest1 n2] eqn:R.
  cbn [fst] in H. destruct H as [<-|H].
  - exists k, nx. split; [left; reflexivity|]. rewrite L. reflexivity.
  - destruct (IH n1 k') as (k0 & j & K & E).
    + rewrite R. exact H.
    + exists k0, j. split; [right; exact K|exact E].
Qed.

Lemma forget_labelAll :
  forall ks,
    Forall (fun k => forall i, forget (fst (label k i)) = k) ks ->
    forall nx, map forget (fst (labelAll ks nx)) = ks.
Proof.
  induction ks as [|k rest IH]; intros H nx; [reflexivity|].
  rewrite labelAll_cons.
  destruct (label k nx) as [k1 n1] eqn:L.
  destruct (labelAll rest n1) as [rest1 n2] eqn:R.
  cbn [fst map]. f_equal.
  - rewrite <- (Forall_inv H nx), L. reflexivity.
  - rewrite <- (IH (Forall_inv_tail H) n1), R. reflexivity.
Qed.

(** Numbering the elements and forgetting the numbers gives the tree back. *)
Lemma forget_label : forall n i, forget (fst (label n i)) = n.
Proof.
  induction n as [x|t a s v kids IH] using node_induction; intro i;
    [reflexivity|].
  rewrite label_elem.
  destruct (labelAll kids (S i)) as [kids' next'] eqn:L.
  cbn [fst forget]. f_equal.
  rewrite <- (forget_labelAll kids IH (S i)), L. reflexivity.
Qed.

Section NothingSelected.
Variable p : list node -> node -> bool.
Variable r : node -> bool.
Hypothesis p_r : forall anc k, p anc k = true -> r k = true.

(** A step that finds its elements by a selector finds none where a weaker
    selector finds none. *)
Lemma lmatches_none :
  forall n i anc,
    querySelectorAll r n = [] -> lmatches p anc (fst (label n i)) = [].
Proof.
  induction n as [x|t a s v kids IH] using node_induction; intros i anc H;
    [reflexivity|].
  rewrite label_elem.
  destruct (labelAll kids (S i)) as [kids' next'] eqn:L.
  cbn [fst lmatches].
  apply flat_map_nil_in. intros k' K'.
  destruct (labelAll_in kids (S i) k') as (k & j & K & ->).
  { rewrite L. exact K'. }
  rewrite querySelectorAll_elem in H.
  pose proof (flat_map_nil_inv _ _ _ _ H k K) as N.
  apply app_eq_nil in N. destruct N as (N1 & N2).
  rewrite Forall_forall in IH.
  rewrite (IH k K j _ N2), app_nil_r, forget_label.
  destruct (idOf (fst (label k j))); [|reflexivity].
  destruct (p _ k) eqn:P; [|reflexivity].
  rewrite (p_r _ _ P) in N1. discriminate N1.
Qed.

End NothingSelected.

Section FixedSteps.
Variable p : list node -> node -> bool.

(** A loop over the matches whose callback leaves every match as it is
    leaves the tree as it is. *)
Lemma forEachMatch_keeps :
  forall f n anc,
    Forall (fun k => f k = k) (descendantsWith p anc n) ->
    forEachMatch p f anc n = n.
Proof.
  intros f.
  induction n as [x|t a s v kids IH] using node_induction; intros anc H;
    [reflexivity|].
  cbn [forEachMatch descendantsWith] in *. f_equal.
  rewrite Forall_forall in IH.
  rewrite <- (map_id kids) at 2. apply map_ext_in. intros k K.
  rewrite Forall_flat_map, Forall_forall in H.
  specialize (H k K). apply Forall_app in H. destruct H as (H1 & H2).
  rewrite (IH k K _ H2).
  destruct (p _ k); [|reflexivity].
  rewrite (Forall_inv H1). destruct k; reflexivity.
Qed.

Lemma rewriteMatch_keeps :
  forall f n anc,
    Forall (fun k => f k = [k]) (descendantsWith p anc n) ->
    rewriteMatch p f anc n = n.
Proof.
  intros f.
  induction n as [x|t a s v kids IH] using node_induction; intros anc H;
    [reflexivity|].
  cbn [rewriteMatch descendantsWith] in *. f_equal.
  rewrite Forall_forall in IH.
  rewrite Forall_flat_map, Forall_forall in H.
  assert (E : forall k, In k kids ->
                (if p (Elem t a s v kids :: anc) k then f k
                 else [rewriteMatch p f (Elem t a s v kids :: anc) k]) = [k]).
  { intros k K. specialize (H k K). apply Forall_app in H.
    destruct H as (H1 & H2).
    destruct (p _ k); [exact (Forall_inv H1)|].
    rewrite (IH k K _ H2). reflexivity. }
  rewrite (flat_map_ext_in _ _ _ (fun k => [k]) kids E).
  clear. induction kids as [|k kids IH]; [reflexivity|].
  cbn. rewrite IH. reflexivity.
Qed.

End FixedSteps.

(** Where every list item that holds a list has its icon, none is given one. *)
Lemma addListIndicators_keeps :
  forall n,
    Forall (fun item => hasDescendant isIcon item = true)
           (querySelectorAll isCollapsable n) ->
    addListIndicators n = n.
Proof.
  induction n as [x|t a s v kids IH] using node_induction; intros H;
    [reflexivity|].
  rewrite addListIndicators_elem. f_equal.
  rewrite querySelectorAll_elem in H.
  rewrite Forall_forall in IH.
  rewrite Forall_flat_map, Forall_forall in H.
  rewrite <- (map_id kids) at 2. apply map_ext_in. intros k K.
  specialize (H k K). apply Forall_app in H. destruct H as (H1 & H2).
  unfold indicated. rewrite (IH k K H2).
  destruct (isCollapsable k); [|reflexivity].
  rewrite (Forall_inv H1). reflexivity.
Qed.

(** A document in which no step of the post-processor finds work.  It has
    the class of a document on its root; it holds none of the elements that
    a step removes, replaces, moves or rewrites without looking at their
    state (decorations when they are not wanted, paragraphs around a [div],
    text inputs, tag links, PDF embeds, MAKE.md elements, front matter,
    links of a dynamic table of contents); and the elements that a step
    writes to are in the state in which the step's own test or write leaves
    them: media without a [width], frames that load lazily, list items with
    their icon, text areas that hold their value as their only text. *)
Record plain (options : MarkdownRendererOptions) (tree : node) : Prop := {
  pl_root : hasClass "obsidian-document" tree = true;
  pl_decorations :
    createDocumentContainer options = false ->
    querySelectorAll (fun k => hasClass "mod-header" k || hasClass "mod-footer" k)
                     tree = [];
  pl_paragraphs :
    querySelectorAll (fun k => isTag "p" k && hasDescendant (isTag "div") k) tree
    = [];
  pl_inputs : querySelectorAll (isTextInput []) tree = [];
  pl_textareas :
    Forall (fun e => textareaValue e = textContent e
                     /\ (kidsOf e = []
                         \/ exists x, x <> "" /\ kidsOf e = [Text x]))
           (querySelectorAll (isTag "textarea") tree);
  pl_tags :
    querySelectorAll (fun k => isTag "a" k && hasClass "tag" k) tree = [];
  pl_widths :
    Forall (fun e => getAttribute "width" e = None
                     \/ getAttribute "width" e = Some "")
           (querySelectorAll (isMedia []) tree);
  pl_pdf : querySelectorAll (isPdfEmbed []) tree = [];
  pl_makeMd :
    querySelectorAll (fun k => isTag "div" k && classStartsWith "mk-" k) tree = [];
  pl_frontmatter : querySelectorAll (hasClass "frontmatter") tree = [];
  pl_frames :
    Forall (fun e => getAttribute "loading" e = Some "lazy")
           (querySelectorAll (isTag "iframe") tree);
  pl_lists :
    Forall (fun item => hasDescendant isIcon item = true)
           (querySelectorAll isCollapsable tree);
  pl_toc : descendantsWith isTocLink [] tree = []
}.

(** A processed note: a converted image, a lazy frame, a text area that
    holds its text and a list item with its indicator. *)
Definition settledNote : node :=
  Elem "div" [("class", "markdown-preview-view obsidian-document")] [] None
       [Elem "p" [] [] None [Text "hello"];
        Elem "img" [("src", "a.png")]
             [("width", "300px"); ("max-width", "100%")] None [];
        Elem "iframe" [("src", "b.html"); ("loading", "lazy")] [] None [];
        Elem "textarea" [] [] None [Text "note"];
        Elem "ul" [] [] None
             [Elem "li" [] [] None
                   [listIndicator; Text "a";
                    Elem "ul" [] [] None [Elem "li" [] [] None [Text "b"]]]]].

Lemma replacePdfEmbeds_keeps :
  forall tree,
    querySelectorAll (isPdfEmbed []) tree = [] -> replacePdfEmbeds tree = tree.
Proof.
  intros tree H. unfold replacePdfEmbeds.
  destruct (label tree 0) as [t next] eqn:L.
  assert (T : t = fst (label tree 0)) by (rewrite L; reflexivity).
  rewrite T, (lmatches_none isPdfEmbed (isPdfEmbed []) (fun _ _ P => P) tree 0 [] H).
  cbn [fold_left fst]. apply forget_label.
Qed.

Lemma moveFrontmatter_keeps :
  forall tree,
    querySelectorAll (hasClass "frontmatter") tree = [] ->
    moveFrontmatter tree = tree.
Proof.
  intros tree H. unfold moveFrontmatter.
  rewrite (lmatches_none (fun _ k => hasClass "frontmatter" k)
             (hasClass "frontmatter") (fun _ _ P => P) tree 0 [] H).
  reflexivity.
Qed.

Lemma sizerInFrontmatter_none :
  forall tree,
    querySelectorAll (hasClass "frontmatter") tree = [] ->
    sizerInFrontmatter tree = false.
Proof.
  intros tree H. unfold sizerInFrontmatter.
  rewrite (lmatches_none (fun _ k => hasClass "frontmatter" k)
             (hasClass "frontmatter") (fun _ _ P => P) tree 0 [] H).
  reflexivity.
Qed.

Lemma assign_same :
  forall name v l, lookup name l = Some v -> assign name v l = l.
Proof.
  intros name v l. induction l as [|[k v0] l IH]; cbn; [discriminate|].
  destruct (String.eqb k name) eqn:E.
  - intros H. inversion H. reflexivity.
  - intros H. rewrite (IH H). reflexivity.
Qed.

Lemma setAttribute_same :
  forall name v e, getAttribute name e = Some v -> setAttribute name v e = e.
Proof.
  intros name v [x|t a s val kids] H; [reflexivity|].
  unfold getAttribute in H. cbn [attrsOf] in H. cbn [setAttribute].
  rewrite (assign_same _ _ _ H). reflexivity.
Qed.

Lemma convertWidth_same :
  forall e,
    getAttribute "width" e = None \/ getAttribute "width" e = Some "" ->
    convertWidth e = e.
Proof.
  intros e [H|H]; unfold convertWidth; rewrite H; reflexivity.
Qed.

Lemma setTextContent_same :
  forall e,
    textareaValue e = textContent e ->
    kidsOf e = [] \/ (exists x, x <> "" /\ kidsOf e = [Text x]) ->
    setTextContent (textareaValue e) e = e.
Proof.
  intros [y|t a s val kids] V K; [reflexivity|].
  rewrite V. cbn [kidsOf] in K. destruct K as [->|(x & N & ->)].
  - reflexivity.
  - unfold setTextContent. cbn [textContent map String.concat].
    destruct (String.eqb x "") eqn:E; [|reflexivity].
    apply String.eqb_eq in E. contradiction.
Qed.

(** X20. A document in which no step of [postProcessHTML] finds work comes
    out of the whole pipeline as it went in, with nothing logged and
    nothing thrown: it has the document class on its root, none of the
    elements that a step removes, replaces, moves or rewrites
    unconditionally, media without a [width] attribute, frames that already
    load lazily, list items that already have their collapse icon, and text
    areas whose only text is their value. *)
Theorem postProcessHTML_plain :
  forall host options tree w,
    plain options tree ->
    runPostProcess host options tree = Done tree
    /\ postProcessHTML host tree options w = (tree, w)
    /\ awaitPostProcessHTML host tree options w = (Returned tree, w).
Proof.
  intros host options tree w S.
  assert (P : runPostProcess host options tree = Done tree).
  { unfold runPostProcess, markDocumentRoot. rewrite (pl_root _ _ S).
    assert (D : (if createDocumentContainer options then tree
                 else removeDecorations tree) = tree).
    { destruct (createDocumentContainer options) eqn:C; [reflexivity|].
      apply rewriteMatch_fixed, (pl_decorations _ _ S C). }
    cbv zeta. rewrite D.
    unfold fixParagraphs.
    rewrite (rewriteMatch_fixed _ _ _ (pl_paragraphs _ _ S)).
    unfold serializeInputs.
    rewrite (forEachMatch_keeps isTextInput serializeInput tree []).
    2:{ change (Forall (fun k => serializeInput k = k)
                       (querySelectorAll (isTextInput []) tree)).
        rewrite (pl_inputs _ _ S). constructor. }
    unfold serializeTextareas.
    rewrite (rewriteMatch_keeps (fun _ k => isTag "textarea" k) _ tree []).
    2:{ pose proof (pl_textareas _ _ S) as H.
        eapply Forall_impl; [|exact H].
        intros e (V & K). cbv beta. rewrite (setTextContent_same e V K).
        reflexivity. }
    unfold rewriteTagLinks.
    rewrite (forEachMatch_keeps _ (rewriteTagLink host) tree []).
    2:{ change (Forall (fun k => rewriteTagLink host k = k)
                       (querySelectorAll
                          (fun k => isTag "a" k && hasClass "tag" k) tree)).
        rewrite (pl_tags _ _ S). constructor. }
    unfold convertWidths.
    rewrite (forEachMatch_keeps isMedia convertWidth tree []).
    2:{ pose proof (pl_widths _ _ S) as H.
        eapply Forall_impl; [|exact H]. exact convertWidth_same. }
    rewrite (replacePdfEmbeds_keeps _ (pl_pdf _ _ S)).
    unfold removeMakeMd.
    rewrite (rewriteMatch_fixed _ _ _ (pl_makeMd _ _ S)).
    rewrite (sizerInFrontmatter_none _ (pl_frontmatter _ _ S)).
    rewrite (moveFrontmatter_keeps _ (pl_frontmatter _ _ S)).
    unfold lazyFrames.
    rewrite (forEachMatch_keeps _ (setAttribute "loading" "lazy") tree []).
    2:{ pose proof (pl_frames _ _ S) as H.
        eapply Forall_impl; [|exact H].
        intros e E. apply setAttribute_same, E. }
    rewrite (addListIndicators_keeps _ (pl_lists _ _ S)).
    unfold renderTocLabels.
    rewrite (rewriteMatch_keeps isTocLink _ tree []); [reflexivity|].
    rewrite (pl_toc _ _ S). constructor. }
  split; [exact P|].
  unfold awaitPostProcessHTML, postProcessHTML, postProcessTree.
  rewrite P. split; reflexivity.
Qed.

Lemma postProcessHTML_plain_witness :
  plain defaultOptions settledNote
  /\ runPostProcess readyHost defaultOptions settledNote = Done settledNote
  /\ postProcessHTML readyHost settledNote defaultOptions activeWorld
     = (settledNote, activeWorld)
  /\ awaitPostProcessHTML readyHost settledNote defaultOptions activeWorld
     = (Returned settledNote, activeWorld).
Proof.
  assert (S : plain defaultOptions settledNote).
  { constructor.
    - reflexivity.
    - intros C. discriminate C.
    - reflexivity.
    - reflexivity.
    - constructor; [|constructor].
      split; [reflexivity|]. right. exists "note".
      split; [discriminate|reflexivity].
    - reflexivity.
    - constructor; [left; reflexivity|constructor].
    - reflexivity.
    - reflexivity.
    - reflexivity.
    - constructor; [reflexivity|constructor].
    - constructor; [reflexivity|constructor].
    - reflexivity. }
  split; [exact S|].
  apply (postProcessHTML_plain readyHost defaultOptions settledNote
           activeWorld S).
Defined.

Lemma querySelectorAll_none_or :
  forall r1 r2 n,
    querySelectorAll r1 n = [] -> querySelectorAll r2 n = [] ->
    querySelectorAll (fun k => r1 k || r2 k) n = [].
Proof.
  intros r1 r2.
  induction n as [x|t a s v kids IH] using node_induction; intros H1 H2;
    [reflexivity|].
  rewrite querySelectorAll_elem in *.
  apply flat_map_nil_in. intros k K.
  pose proof (flat_map_nil_inv _ _ _ _ H1 k K) as N.
  apply app_eq_nil in N. destruct N as (N1 & N2).
  pose proof (flat_map_nil_inv _ _ _ _ H2 k K) as M.
  apply app_eq_nil in M. destruct M as (M1 & M2).
  rewrite Forall_forall in IH. rewrite (IH k K N2 M2), app_nil_r.
  destruct (r1 k); [discriminate N1|].
  destruct (r2 k); [discriminate M1|]. reflexivity.
Qed.

Lemma querySelectorAll_none_child :
  forall r n,
    querySelectorAll r n = [] -> querySelectorAll (hasChild r) n = [].
Proof.
  intros r.
  induction n as [x|t a s v kids IH] using node_induction; intros H;
    [reflexivity|].
  rewrite querySelectorAll_elem in *.
  apply flat_map_nil_in. intros k K.
  pose proof (flat_map_nil_inv _ _ _ _ H k K) as N.
  apply app_eq_nil in N. destruct N as (N1 & N2).
  rewrite Forall_forall in IH. rewrite (IH k K N2), app_nil_r.
  destruct (hasChild r k) eqn:C; [|reflexivity].
  exfalso. unfold hasChild in C. apply existsb_exists in C.
  destruct C as (g & G & R).
  destruct k as [x|t1 a1 s1 v1 kids1]; [destruct G|].
  rewrite querySelectorAll_elem in N2. cbn [kidsOf] in G.
  pose proof (flat_map_nil_inv _ _ _ _ N2 g G) as M.
  cbv beta in M. rewrite R in M. discriminate M.
Qed.

(** X21. A tree with no heading and no inline title below its root is
    left as it is by [makeHeadingsTrees]. *)
Theorem makeHeadingsTrees_without_headings :
  forall tree,
    querySelectorAll isHeading tree = [] ->
    querySelectorAll (hasClass "inline-title") tree = [] ->
    makeHeadingsTrees tree = tree.
Proof.
  intros tree H I. unfold makeHeadingsTrees.
  destruct (label tree 0) as [t next] eqn:L.
  assert (T : t = fst (label tree 0)) by (rewrite L; reflexivity).
  assert (W : lmatches isHeadingWrapper [] t = []).
  { rewrite T. apply (lmatches_none isHeadingWrapper (hasChild isHeading)).
    - intros anc k P. unfold isHeadingWrapper in P.
      apply andb_prop in P. destruct P as (P & _).
      apply andb_prop in P. destruct P as (_ & P). exact P.
    - apply querySelectorAll_none_child, H. }
  rewrite W. cbn [fold_left].
  assert (C : lmatches (fun _ e => isHeading e && negb (hasClass "heading" e))
                       [] t = []).
  { rewrite T. apply (lmatches_none _ isHeading); [|exact H].
    intros anc k P. apply andb_prop in P. exact (proj1 P). }
  rewrite C. cbn [fold_left].
  assert (D : lmatches isTitleInDiv [] t = []).
  { rewrite T.
    apply (lmatches_none isTitleInDiv
             (fun k => isHeading k || hasClass "inline-title" k)).
    - intros anc k P. unfold isTitleInDiv in P.
      apply andb_prop in P. destruct P as (P & _).
      apply orb_prop in P. apply orb_true_iff.
      destruct P as [P|P]; [left|right; exact P].
      unfold isTag in P. apply andb_prop in P. destruct P as (E & G).
      unfold isHeading. rewrite E. cbn [andb existsb]. rewrite G. reflexivity.
    - apply querySelectorAll_none_or; assumption. }
  rewrite D. cbn [fold_left].
  rewrite T, forget_label. apply rewriteMatch_fixed, H.
Qed.

Lemma makeHeadingsTrees_without_headings_witness :
  makeHeadingsTrees settledNote = settledNote.
Proof.
  apply (makeHeadingsTrees_without_headings settledNote); reflexivity.
Defined.
